(** * The weChat session broker: pairing state machine and priority delivery

    A shallow embedding of the WebSocket broker of the repository (the
    variant with the priority-tiered [sendToClient], lines 294-721 of
    [src/unnamed/part_000]) and the properties its specification states.

    The broker is single-threaded JavaScript: every handler runs to
    completion.  A handler is therefore a function [state -> state]; the
    calls it makes on the transport ([ws.send], [ws.close]) are appended
    to the [wire] log of the state, in program order.

    The other servers of the repository are embedded in modules of
    their own, after the broker: [Direct] (the broker without lanes),
    [Signaling], [Server], [Lobby] and [Rooms]. *)

From stdpp Require Import base decidable option list strings gmap.

Local Open Scope string_scope.
Local Open Scope list_scope.
Local Open Scope nat_scope.

(** ** JavaScript [Map]

    A [Map] iterates in insertion order, and that order shows on the wire
    ([messageQueues.forEach], [Array.from(clients.values())]).  It is an
    association list: [set] on a present key keeps its place, [set] on an
    absent key appends, [delete] removes the entry. *)

Module JsMap.
Section JsMap.
Context {K V : Type} `{EqDecision K}.

Definition t := list (K * V).

Fixpoint get (k : K) (m : list (K * V)) : option V :=
  match m with
  | [] => None
  | (k', v) :: m => if decide (k = k') then Some v else get k m
  end.

Definition has (k : K) (m : list (K * V)) : bool :=
  match get k m with Some _ => true | None => false end.

Fixpoint set (k : K) (v : V) (m : list (K * V)) : list (K * V) :=
  match m with
  | [] => [(k, v)]
  | (k', v') :: m =>
      if decide (k = k') then (k, v) :: m else (k', v') :: set k v m
  end.

Fixpoint delete (k : K) (m : list (K * V)) : list (K * V) :=
  match m with
  | [] => []
  | (k', v') :: m =>
      if decide (k = k') then delete k m else (k', v') :: delete k m
  end.

Definition keys (m : list (K * V)) : list K := m.*1.
Definition values (m : list (K * V)) : list V := m.*2.
End JsMap.
Arguments t : clear implicits.
End JsMap.

(** ** Data model *)

(** [ws.readyState] as the server sees it. *)
Inductive ReadyState := OPEN | CLOSING | CLOSED.

Global Instance ReadyState_eq_dec : EqDecision ReadyState.
Proof. solve_decision. Defined.

(** A registry entry [{ id, ws, username, type }].  [ws] is the handle of
    the socket object; its mutable [readyState] lives in the socket
    table of the state, so every entry that shares a socket sees the
    same [readyState]. *)
Module Client.
Record t := mk { id : string; ws : nat; username : string; type : string }.
End Client.

(** An element of a chat history array: [{ from, text, timestamp }]. *)
Module Entry.
Record t := mk { from : string; text : string; timestamp : string }.
End Entry.

(** An element of the [users] array of a [userList] message. *)
Module UserInfo.
Record t :=
  mk { id : string; username : string; type : string; inChat : bool }.
End UserInfo.

(** The [with] object of a [chatStarted] message. *)
Module Peer.
Record t := mk { id : string; username : string; type : string }.
End Peer.

(** The [messages] field of [chatStarted] is
    [chatHistory.get(chatKey) || []]: either the very array stored in
    [chatHistory] (shared: a later [push] is visible through it) or a
    new empty array.  After [JSON.stringify] it is a plain array. *)
Inductive Messages :=
| stored (chatKey : string)
| array (entries : list Entry.t).

(** The outbound message objects, one constructor per [type]. *)
Inductive Message :=
| welcome (userId : string)
| error (message : string)
| queuePosition (position : nat)
| userList (users : list UserInfo.t)
| chatStarted (with_ : Peer.t) (messages : Messages)
| chatMessage (from text timestamp : string)
| startVideoStream
| stopVideoStream
| chatEnded (queuePosition : option nat)
| videoFrame (frame from : string).

(** The [priority] field: only chat [message] objects carry [priority: true]
    and only [videoFrame] objects carry [priority: false]; every other
    object has no such field. *)
Definition priority (m : Message) : option bool :=
  match m with
  | chatMessage _ _ _ => Some true
  | videoFrame _ _ => Some false
  | _ => None
  end.

(** Calls made on the transport. *)
Inductive Call :=
| send (ws : nat) (payload : Message)
| close (ws : nat).

(** A socket of the transport together with the [clientId] variable of
    the closure that [wss.on('connection')] creates for it. *)
Module Socket.
Record t := mk { readyState : ReadyState; clientId : option string }.
End Socket.

(** The global variables of the broker, the socket table and the log of
    transport calls. *)
Record state := mkState {
  clients : JsMap.t string Client.t;
  adminClient : option Client.t;
  userQueue : list string;
  activeChats : JsMap.t string string;
  chatHistory : JsMap.t string (list Entry.t);
  messageQueues : JsMap.t string (list Message);
  sockets : gmap nat Socket.t;
  wire : list Call
}.

Definition init : state :=
  {| clients := []; adminClient := None; userQueue := [];
     activeChats := []; chatHistory := []; messageQueues := [];
     sockets := ∅; wire := [] |}.

Definition set_clients (f : JsMap.t string Client.t → JsMap.t string Client.t)
    (s : state) : state :=
  mkState (f (clients s)) (adminClient s) (userQueue s) (activeChats s)
          (chatHistory s) (messageQueues s) (sockets s) (wire s).

Definition set_adminClient (a : option Client.t) (s : state) : state :=
  mkState (clients s) a (userQueue s) (activeChats s)
          (chatHistory s) (messageQueues s) (sockets s) (wire s).

Definition set_userQueue (f : list string → list string) (s : state) : state :=
  mkState (clients s) (adminClient s) (f (userQueue s)) (activeChats s)
          (chatHistory s) (messageQueues s) (sockets s) (wire s).

Definition set_activeChats
    (f : JsMap.t string string → JsMap.t string string) (s : state) : state :=
  mkState (clients s) (adminClient s) (userQueue s) (f (activeChats s))
          (chatHistory s) (messageQueues s) (sockets s) (wire s).

Definition set_chatHistory
    (f : JsMap.t string (list Entry.t) → JsMap.t string (list Entry.t))
    (s : state) : state :=
  mkState (clients s) (adminClient s) (userQueue s) (activeChats s)
          (f (chatHistory s)) (messageQueues s) (sockets s) (wire s).

Definition set_messageQueues
    (f : JsMap.t string (list Message) → JsMap.t string (list Message))
    (s : state) : state :=
  mkState (clients s) (adminClient s) (userQueue s) (activeChats s)
          (chatHistory s) (f (messageQueues s)) (sockets s) (wire s).

Definition set_sockets (f : gmap nat Socket.t → gmap nat Socket.t)
    (s : state) : state :=
  mkState (clients s) (adminClient s) (userQueue s) (activeChats s)
          (chatHistory s) (messageQueues s) (f (sockets s)) (wire s).

Definition set_wire (f : list Call → list Call) (s : state) : state :=
  mkState (clients s) (adminClient s) (userQueue s) (activeChats s)
          (chatHistory s) (messageQueues s) (sockets s) (f (wire s)).

(** ** The delivery engine *)

Definition readyStateOf (ws : nat) (s : state) : ReadyState :=
  match sockets s !! ws with
  | Some k => Socket.readyState k
  | None => CLOSED
  end.

(** [ws.readyState === WebSocket.OPEN] *)
Definition isOpen (ws : nat) (s : state) : bool :=
  bool_decide (readyStateOf ws s = OPEN).

(** [JSON.stringify(message)]: a history array shared with [chatHistory]
    is written out with the entries it holds at the time of the call. *)
Definition stringify (s : state) (m : Message) : Message :=
  match m with
  | chatStarted p (stored chatKey) =>
      chatStarted p (array (default [] (JsMap.get chatKey (chatHistory s))))
  | _ => m
  end.

(** [ws.send(JSON.stringify(message))].  The log records the call; what
    the transport does with a call on a socket that is no longer open is
    not the broker's business. *)
Definition wsSend (ws : nat) (m : Message) (s : state) : state :=
  set_wire (λ l, l ++ [send ws (stringify s m)]) s.

(** [ws.close()]: an open socket starts closing; the call is logged. *)
Definition closing (k : Socket.t) : Socket.t :=
  match Socket.readyState k with
  | OPEN => Socket.mk CLOSING (Socket.clientId k)
  | _ => k
  end.

Definition wsClose (ws : nat) (s : state) : state :=
  set_wire (λ l, l ++ [close ws]) (set_sockets (alter closing ws) s).

(** [queue.shift()], for its effect on the array. *)
Definition shift {A} (queue : list A) : list A := tail queue.

Definition sendToClient (clientId : string) (message : Message) (s : state)
    : state :=
  match JsMap.get clientId (clients s) with
  | Some client =>
      if isOpen (Client.ws client) s then
        if bool_decide (priority message = Some true) then
          wsSend (Client.ws client) message s
        else
          let s :=
            if JsMap.has clientId (messageQueues s) then s
            else set_messageQueues (JsMap.set clientId []) s in
          let queue := default [] (JsMap.get clientId (messageQueues s)) in
          let queue :=
            if bool_decide (1 ≤ length queue) then shift queue else queue in
          set_messageQueues (JsMap.set clientId (queue ++ [message])) s
      else s
  | None => s
  end.

(** A call [sendToClient(x, ...)] where [x] may be [undefined]:
    [clients.get(undefined)] is [undefined], so the guard fails. *)
Definition sendToClient' (clientId : option string) (message : Message)
    (s : state) : state :=
  match clientId with
  | Some clientId => sendToClient clientId message s
  | None => s
  end.

(** The callback of [messageQueues.forEach] in [processMessageQueues]. *)
Definition flushQueue (clientId : string) (s : state) : state :=
  match JsMap.get clientId (clients s),
        JsMap.get clientId (messageQueues s) with
  | Some client, Some (message :: queue) =>
      if isOpen (Client.ws client) s then
        wsSend (Client.ws client) message
          (set_messageQueues (JsMap.set clientId queue) s)
      else s
  | _, _ => s
  end.

(** The callback changes the arrays stored in [messageQueues] and never
    the set of keys, so the iteration visits the keys present at the
    start, in insertion order. *)
Definition processMessageQueues (s : state) : state :=
  foldl (λ s clientId, flushQueue clientId s) s
        (JsMap.keys (messageQueues s)).

(** ** Roster and queue positions *)

Definition userInfo (s : state) (c : Client.t) : UserInfo.t :=
  UserInfo.mk (Client.id c) (Client.username c) (Client.type c)
              (JsMap.has (Client.id c) (activeChats s)).

Definition updateUserList (s : state) : state :=
  match adminClient s with
  | None => s
  | Some admin =>
      let users :=
        userInfo s <$>
          filter (λ c, Client.type c = "user") (JsMap.values (clients s)) in
      sendToClient (Client.id admin) (userList users) s
  end.

(** [array.forEach((x, index) => ...)] over a callback that leaves the
    array alone. *)
Fixpoint forEach {A} (f : A → nat → state → state) (l : list A)
    (index : nat) (s : state) : state :=
  match l with
  | [] => s
  | x :: l => forEach f l (S index) (f x index s)
  end.

Definition updateQueue (s : state) : state :=
  forEach (λ userId index, sendToClient userId (queuePosition (index + 1)))
          (userQueue s) 0 s.

(** ** The message handlers

    The handlers are closures over the socket [ws] of the connection and
    over its [clientId] variable, which [handleJoin] assigns. *)

Definition closureClientId (ws : nat) (s : state) : option string :=
  sockets s !! ws ≫= Socket.clientId.

(** [clients.get(x)] where [x] may be [undefined] or [null]. *)
Definition getClient (x : option string) (s : state) : option Client.t :=
  x ≫= λ k, JsMap.get k (clients s).

(** [clients.get(clientId)?.type] in the closure of socket [ws]. *)
Definition senderRole (ws : nat) (s : state) : option string :=
  Client.type <$> getClient (closureClientId ws s) s.

(** Truthiness of a value that is [undefined] or a string. *)
Definition truthy (x : option string) : bool :=
  match x with
  | Some k => bool_decide (k ≠ "")
  | None => false
  end.

(** [array.indexOf(x)], [None] for [-1]. *)
Fixpoint indexOf (x : string) (l : list string) : option nat :=
  match l with
  | [] => None
  | y :: l => if decide (y = x) then Some 0 else S <$> indexOf x l
  end.

(** [const i = userQueue.indexOf(x); if (i > -1) userQueue.splice(i, 1)] *)
Definition spliceOut (x : string) (l : list string) : list string :=
  match indexOf x l with
  | Some queueIndex => delete queueIndex l
  | None => l
  end.

(** [map.delete(x)] where [x] may be [undefined]. *)
Definition deleteKey {V} (x : option string) (m : JsMap.t string V)
    : JsMap.t string V :=
  match x with
  | Some k => JsMap.delete k m
  | None => m
  end.

(** The template literal [`${adminId}-${userId}`]. *)
Definition chatKey (adminId userId : string) : string :=
  adminId +:+ "-" +:+ userId.

Definition setClientId (clientId : string) (k : Socket.t) : Socket.t :=
  Socket.mk (Socket.readyState k) (Some clientId).

(** [newId] is the value that [generateId()] returns. *)
Definition handleJoin (ws : nat) (username userType : string)
    (newId : string) (s : state) : state :=
  let s := set_sockets (alter (setClientId newId) ws) s in
  let clientId := newId in
  let client := Client.mk clientId ws username userType in
  let s := set_clients (JsMap.set clientId client) s in
  let s := wsSend ws (welcome clientId) s in
  if decide (userType = "admin") then
    match adminClient s with
    | Some _ =>
        let s := wsSend ws (error "An admin is already connected") s in
        wsClose ws s
    | None =>
        let s := set_adminClient (Some client) s in
        updateUserList s
    end
  else
    match adminClient s with
    | Some _ =>
        let s := set_userQueue (λ q, q ++ [clientId]) s in
        let s := updateQueue s in
        updateUserList s
    | None => wsSend ws (queuePosition 0) s
    end.

Definition handleSelectUser (ws : nat) (userId : option string) (s : state)
    : state :=
  let clientId := closureClientId ws s in
  match adminClient s with
  | None => s
  | Some admin =>
      if bool_decide (senderRole ws s = Some "admin") then
        let notFound := sendToClient' clientId (error "User not found") s in
        match userId with
        | None => notFound
        | Some userId =>
            match JsMap.get userId (clients s) with
            | None => notFound
            | Some user =>
                if decide (Client.type user = "user") then
                  let s := set_userQueue (spliceOut userId) s in
                  let s :=
                    set_activeChats (JsMap.set userId (Client.id admin)) s in
                  let s :=
                    set_activeChats (JsMap.set (Client.id admin) userId) s in
                  let chatKey := chatKey (Client.id admin) userId in
                  let messages :=
                    if JsMap.has chatKey (chatHistory s) then stored chatKey
                    else array [] in
                  let s :=
                    sendToClient (Client.id admin)
                      (chatStarted
                         (Peer.mk userId (Client.username user)
                                  (Client.type user))
                         messages) s in
                  let s :=
                    sendToClient userId
                      (chatStarted
                         (Peer.mk (Client.id admin) (Client.username admin)
                                  (Client.type admin))
                         messages) s in
                  let s := updateQueue s in
                  updateUserList s
                else notFound
            end
        end
      else s
  end.

(** [now] is the value of [new Date().toISOString()]. *)
Definition handleChatMessage (ws : nat) (to : option string) (text : string)
    (now : string) (s : state) : state :=
  match closureClientId ws s with
  | None => s
  | Some clientId =>
      match JsMap.get clientId (clients s), to with
      | Some fromClient, Some toId =>
          match JsMap.get toId (clients s) with
          | None => s
          | Some toClient =>
              let message := Entry.mk (Client.username fromClient) text now in
              let chatKey :=
                if decide (Client.type fromClient = "admin")
                then chatKey clientId toId
                else chatKey toId clientId in
              let s :=
                if JsMap.has chatKey (chatHistory s) then s
                else set_chatHistory (JsMap.set chatKey []) s in
              let s :=
                set_chatHistory
                  (λ h, JsMap.set chatKey
                          (default [] (JsMap.get chatKey h) ++ [message]) h)
                  s in
              sendToClient toId
                (chatMessage (Client.username fromClient) text
                             (Entry.timestamp message)) s
          end
      | _, _ => s
      end
  end.

Definition handleEndChat (ws : nat) (userId : option string) (s : state)
    : state :=
  match closureClientId ws s with
  | None => s
  | Some clientId =>
      match JsMap.get clientId (clients s) with
      | None => s
      | Some fromClient =>
          let otherUserId :=
            if decide (Client.type fromClient = "admin") then userId
            else JsMap.get clientId (activeChats s) in
          let s := set_activeChats (JsMap.delete clientId) s in
          let s := set_activeChats (deleteKey otherUserId) s in
          let s :=
            match otherUserId with
            | Some other =>
                if truthy otherUserId then
                  match JsMap.get other (clients s) with
                  | None => s
                  | Some otherClient =>
                      let s := sendToClient other stopVideoStream s in
                      if decide (Client.type otherClient = "user") then
                        let s := set_userQueue (λ q, q ++ [other]) s in
                        sendToClient other
                          (chatEnded (Some (length (userQueue s)))) s
                      else sendToClient other (chatEnded None) s
                  end
                else s
            | None => s
            end in
          let s := updateQueue s in
          updateUserList s
      end
  end.

Definition handleStartVideoStream (ws : nat) (userId : option string)
    (s : state) : state :=
  if bool_decide (senderRole ws s = Some "admin")
  then sendToClient' userId startVideoStream s
  else s.

Definition handleStopVideoStream (ws : nat) (userId : option string)
    (s : state) : state :=
  if bool_decide (senderRole ws s = Some "admin")
  then sendToClient' userId stopVideoStream s
  else s.

Definition handleVideoFrame (ws : nat) (to : option string) (frame : string)
    (s : state) : state :=
  match closureClientId ws s with
  | None => s
  | Some clientId =>
      match JsMap.get clientId (clients s) with
      | None => s
      | Some fromClient =>
          if decide (Client.type fromClient = "user") then
            match to with
            | Some toId =>
                if truthy to && JsMap.has toId (clients s) then
                  sendToClient toId (videoFrame frame clientId) s
                else s
            | None => s
            end
          else s
      end
  end.

(** The two [forEach] callbacks of the operator branch of
    [handleDisconnect]. *)
Definition endChatOf (clientId userId : string) (s : state) : state :=
  if decide (userId ≠ clientId) then
    let s := sendToClient userId stopVideoStream s in
    sendToClient userId (chatEnded None) s
  else s.

Definition resetPosition (clientId : string) (entry : string * Client.t)
    (s : state) : state :=
  let '(id, c) := entry in
  if decide (Client.type c = "user") then
    if decide (id ≠ clientId) then sendToClient id (queuePosition 0) s
    else s
  else s.

Definition handleDisconnect (clientId : option string) (s : state) : state :=
  match clientId with
  | None => s
  | Some clientId =>
      if truthy (Some clientId) then
        match JsMap.get clientId (clients s) with
        | None => s
        | Some client =>
            let s := set_messageQueues (JsMap.delete clientId) s in
            let s :=
              if decide (Client.type client = "admin") then
                let s := set_adminClient None s in
                let s :=
                  foldl (λ s userId, endChatOf clientId userId s) s
                        (JsMap.keys (activeChats s)) in
                let s := set_activeChats (λ _, []) s in
                let s := set_userQueue (λ _, []) s in
                foldl (λ s entry, resetPosition clientId entry s) s
                      (clients s)
              else
                let s :=
                  match indexOf clientId (userQueue s) with
                  | Some queueIndex =>
                      updateQueue (set_userQueue (delete queueIndex) s)
                  | None => s
                  end in
                let partnerId := JsMap.get clientId (activeChats s) in
                let s :=
                  match partnerId with
                  | Some partner =>
                      if truthy partnerId then
                        let s := set_activeChats (JsMap.delete clientId) s in
                        let s := set_activeChats (JsMap.delete partner) s in
                        sendToClient partner (chatEnded None) s
                      else s
                  | None => s
                  end in
                updateUserList s in
            set_clients (JsMap.delete clientId) s
        end
      else s
  end.

(** ** Events *)

(** The parsed payload of an inbound frame, by its [type]; [other] stands
    for an unknown [type] and for a frame that [JSON.parse] rejects.  An
    identifier field is [None] when the frame has no such field.  A
    value that is not a string is no key of [clients], so every handler
    treats it as it treats an absent field; it is [None] here too. *)
Inductive Data :=
| join (username userType : string)
| selectUser (userId : option string)
| chat (to : option string) (text : string)
| endChat (userId : option string)
| startVideo (userId : option string)
| stopVideo (userId : option string)
| frameFrom (to : option string) (frame : string)
| other.

(** What the environment supplies while one frame is handled. *)
Record Oracle := mkOracle { generateId : string; now : string }.

Definition handleMessage (ws : nat) (data : Data) (o : Oracle) (s : state)
    : state :=
  match data with
  | join username userType => handleJoin ws username userType (generateId o) s
  | selectUser userId => handleSelectUser ws userId s
  | chat to text => handleChatMessage ws to text (now o) s
  | endChat userId => handleEndChat ws userId s
  | startVideo userId => handleStartVideoStream ws userId s
  | stopVideo userId => handleStopVideoStream ws userId s
  | frameFrom to frame => handleVideoFrame ws to frame s
  | other => s
  end.

Inductive Event :=
| onConnection (ws : nat)
| onMessage (ws : nat) (data : Data) (o : Oracle)
| onClose (ws : nat)
| tick.

Definition closed (k : Socket.t) : Socket.t :=
  Socket.mk CLOSED (Socket.clientId k).

Definition step (e : Event) (s : state) : state :=
  match e with
  | onConnection ws => set_sockets <[ws := Socket.mk OPEN None]> s
  | onMessage ws data o => handleMessage ws data o s
  | onClose ws =>
      handleDisconnect (closureClientId ws s)
                       (set_sockets (alter closed ws) s)
  | tick => processMessageQueues s
  end.

(** When the environment can raise an event: a connection gets a new
    socket; frames arrive on, and [close] fires once for, a socket that
    has not been closed; [generateId] returns a non-empty identifier
    that no registry entry has. *)
Definition enabled (e : Event) (s : state) : bool :=
  match e with
  | onConnection ws => bool_decide (sockets s !! ws = None)
  | onMessage ws data o =>
      bool_decide (is_Some (sockets s !! ws) ∧ readyStateOf ws s ≠ CLOSED)
      && match data with
         | join _ _ =>
             bool_decide (generateId o ≠ "")
             && negb (JsMap.has (generateId o) (clients s))
         | _ => true
         end
  | onClose ws =>
      bool_decide (is_Some (sockets s !! ws) ∧ readyStateOf ws s ≠ CLOSED)
  | tick => true
  end.

Definition run (es : list Event) (s : state) : state :=
  foldl (λ s e, step e s) s es.

Inductive reachable : state → Prop :=
| reachable_init : reachable init
| reachable_step e s :
    reachable s → enabled e s = true → reachable (step e s).

(** * Specification vocabulary *)

(** The variables that the delivery engine never writes. *)
Definition core (s : state) :=
  (clients s, adminClient s, userQueue s, activeChats s, chatHistory s,
   sockets s).

(** A projection of the state that only looks at [core]. *)
Class CoreField {A} (proj : state → A) :=
  core_field : ∀ s s', core s = core s' → proj s = proj s'.

(** The registry and the operator slot. *)
Definition registry (s : state) := (clients s, adminClient s).

(** A connection identifier that [sendToClient] can reach: it is in the
    registry and its socket is open. *)
Definition deliverable (clientId : string) (s : state) : bool :=
  match JsMap.get clientId (clients s) with
  | Some client => isOpen (Client.ws client) s
  | None => false
  end.

(** The low-priority lane of a connection. *)
Definition pending (clientId : string) (s : state) : option (list Message) :=
  JsMap.get clientId (messageQueues s).

(** [messageQueues] has one lane per key and no lane holds more than one
    message. *)
Definition queues_wf (s : state) : Prop :=
  NoDup (JsMap.keys (messageQueues s)) ∧
  Forall (λ p, length p.2 ≤ 1) (messageQueues s).

(** What one tick hands to the transport: for every lane, in the order
    of [messageQueues], the head of the lane if the connection is
    registered and open. *)
Definition deliveryOf (s : state) (entry : string * list Message)
    : option (string * nat * Message) :=
  let '(clientId, queue) := entry in
  match JsMap.get clientId (clients s), queue with
  | Some client, message :: _ =>
      if isOpen (Client.ws client) s
      then Some (clientId, Client.ws client, message)
      else None
  | _, _ => None
  end.

(** One entry per message of a tick: the connection identifier, its
    socket and the message. *)
Definition tickDeliveries (s : state) : list (string * nat * Message) :=
  omap (deliveryOf s) (messageQueues s).

(** The transport call that a delivery makes. *)
Definition toCall (s : state) (d : string * nat * Message) : Call :=
  send d.1.2 (stringify s d.2).

(** One position update of [updateQueue]. *)
Definition push (s : state) (p : string * nat) : state :=
  sendToClient p.1 (queuePosition p.2) s.

(** The lane of every reachable queued participant other than the
    operator holds its position, counted from 1. *)
Definition positionsPending (s : state) : Prop :=
  ∀ i u, userQueue s !! i = Some u → deliverable u s = true →
         Client.id <$> adminClient s ≠ Some u →
         pending u s = Some [queuePosition (i + 1)].

(** The operator slot holds an entry of the registry whose role is
    [admin]. *)
Definition admin_registered (s : state) : Prop :=
  ∀ a, adminClient s = Some a →
       JsMap.get (Client.id a) (clients s) = Some a ∧ Client.type a = "admin".

(** The partner of a connection in the active-pairing relation. *)
Definition partner (clientId : string) (s : state) : option string :=
  JsMap.get clientId (activeChats s).

(** If [a]'s partner is [b] then [b]'s partner is [a]. *)
Definition symmetric (s : state) : Prop :=
  ∀ a b, partner a s = Some b → partner b s = Some a.

(** The registry entries that hold the operator role. *)
Definition operators (s : state) : list Client.t :=
  filter (λ c, Client.type c = "admin") (JsMap.values (clients s)).

(** What the transport was asked to send on one socket. *)
Definition sentOn (ws : nat) (s : state) : list Message :=
  omap (λ c, match c with
             | send ws' m => if decide (ws' = ws) then Some m else None
             | close _ => None
             end) (wire s).

(** A run in which every event is enabled when it is raised. *)
Fixpoint admissible (es : list Event) (s : state) : bool :=
  match es with
  | [] => true
  | e :: es => enabled e s && admissible es (step e s)
  end.

(** ** The pairing scheduler

    The waiting queue and the pairings, seen apart from delivery. *)



(** An [endChat] frame from a connection with the operator role is
    proper when it names a participant that has a partner. *)
Definition proper (e : Event) (s : state) : bool :=
  match e with
  | onMessage ws (endChat userId) _ =>
      if bool_decide (senderRole ws s = Some "admin") then
        match userId with
        | Some u => JsMap.has u (activeChats s)
        | None => false
        end
      else true
  | _ => true
  end.

(** The states reached by runs whose events are all proper. *)
Inductive reachable_proper : state → Prop :=
| proper_init : reachable_proper init
| proper_step e s :
    reachable_proper s → enabled e s = true → proper e s = true →
    reachable_proper (step e s).




(** ** Scenarios

    The operator "Op" connects on socket 0 and gets identifier "a";
    the participants "Bob" and "Cat" connect on sockets 1 and 2 and get
    "b" and "c". *)

Definition opJoins : list Event :=
  [onConnection 0; onMessage 0 (join "Op" "admin") (mkOracle "a" "t0")].

Definition bobJoins : list Event :=
  [onConnection 1; onMessage 1 (join "Bob" "user") (mkOracle "b" "t1")].

Definition catJoins : list Event :=
  [onConnection 2; onMessage 2 (join "Cat" "user") (mkOracle "c" "t2")].

(** The payload of an event that calls neither [generateId] nor [Date]. *)
Definition frame0 (ws : nat) (data : Data) : Event :=
  onMessage ws data (mkOracle "" "").

(** ** Further vocabulary of the broker *)

(** Every connection that has joined and is not closed has, under the
    identifier of its last join, an entry of the registry that holds its
    socket. *)
Definition closures_registered (s : state) : Prop :=
  ∀ ws k, readyStateOf ws s ≠ CLOSED → closureClientId ws s = Some k →
          ∃ c, JsMap.get k (clients s) = Some c ∧ Client.ws c = ws.

(** Every entry of the registry is stored under its own identifier. *)
Definition registry_keyed (s : state) : Prop :=
  ∀ k c, JsMap.get k (clients s) = Some c → Client.id c = k ∧ k ≠ "".

(** Every lane belongs to a registered connection and holds no message
    of high priority. *)
Definition lanes_ok (s : state) : Prop :=
  ∀ k q, pending k s = Some q →
         is_Some (JsMap.get k (clients s)) ∧
         Forall (λ m, priority m ≠ Some true) q.

(** While the [close] event of a connection is handled its socket is
    closed already: no send re-creates the lane that the handler has
    deleted. *)
Definition lanes_closing (cid : string) (s0 s : state) : Prop :=
  clients s = clients s0 ∧ sockets s = sockets s0 ∧
  pending cid s = None ∧ lanes_ok s.

(** The number of messages that wait in the lanes. *)
Definition buffered (s : state) : nat :=
  length (mjoin (JsMap.values (messageQueues s))).

(** No socket that can still raise an event has [k] as the identifier
    of its closure. *)
Definition orphan (k : string) (s : state) : Prop :=
  ∀ ws, readyStateOf ws s ≠ CLOSED → closureClientId ws s ≠ Some k.

(** The calls that a handler makes on the transport by itself: [close],
    and [send] of [welcome], of the role-conflict error, of position 0
    and of a chat message. *)
Definition immediate (c : Call) : bool :=
  match c with
  | close _ => true
  | send _ (welcome _) => true
  | send _ (error message) =>
      bool_decide (message = "An admin is already connected")
  | send _ (queuePosition position) => bool_decide (position = 0)
  | send _ (chatMessage _ _ _) => true
  | send _ _ => false
  end.

(** The calls that a tick makes: [send] of a message that is not of
    high priority. *)
Definition deferred (c : Call) : bool :=
  match c with
  | close _ => false
  | send _ m => bool_decide (priority m ≠ Some true)
  end.

(** What [handleJoin] hands to the transport after [welcome]. *)
Definition joinReply (ws : nat) (userType : string) (s : state) : list Call :=
  if decide (userType = "admin") then
    match adminClient s with
    | Some _ => [send ws (error "An admin is already connected"); close ws]
    | None => []
    end
  else
    match adminClient s with
    | Some _ => []
    | None => [send ws (queuePosition 0)]
    end.

(** A chat message that the log of the transport holds is an entry of
    some history. *)
Definition recorded (s : state) (c : Call) : Prop :=
  ∀ ws from text timestamp,
    c = send ws (chatMessage from text timestamp) →
    ∃ key h, JsMap.get key (chatHistory s) = Some h ∧
             Entry.mk from text timestamp ∈ h.

(** The roster that [updateUserList] computes. *)
Definition roster (s : state) : list UserInfo.t :=
  userInfo s <$> filter (λ c, Client.type c = "user") (JsMap.values (clients s)).

(** * The broker without lanes

    The last program of [src/unnamed/part_001] (lines 407-799) is the
    broker without the priority lanes: the same registry, queue,
    pairings and history, with a [sendToClient] that hands every
    message to the transport at once.  The functions below are the ones
    whose messages are the same objects in both programs. *)

Module Direct.

Definition sendToClient (clientId : string) (message : Message) (s : state)
    : state :=
  match JsMap.get clientId (clients s) with
  | Some client =>
      if isOpen (Client.ws client) s
      then wsSend (Client.ws client) message s
      else s
  | None => s
  end.

(** A call [sendToClient(x, ...)] where [x] may be [undefined]. *)
Definition sendToClient' (clientId : option string) (message : Message)
    (s : state) : state :=
  match clientId with
  | Some clientId => sendToClient clientId message s
  | None => s
  end.

Definition updateUserList (s : state) : state :=
  match adminClient s with
  | None => s
  | Some admin =>
      let users :=
        userInfo s <$>
          filter (λ c, Client.type c = "user") (JsMap.values (clients s)) in
      sendToClient (Client.id admin) (userList users) s
  end.

Definition updateQueue (s : state) : state :=
  forEach (λ userId index, sendToClient userId (queuePosition (index + 1)))
          (userQueue s) 0 s.

Definition handleJoin (ws : nat) (username userType : string)
    (newId : string) (s : state) : state :=
  let s := set_sockets (alter (setClientId newId) ws) s in
  let clientId := newId in
  let client := Client.mk clientId ws username userType in
  let s := set_clients (JsMap.set clientId client) s in
  let s := wsSend ws (welcome clientId) s in
  if decide (userType = "admin") then
    match adminClient s with
    | Some _ =>
        let s := wsSend ws (error "An admin is already connected") s in
        wsClose ws s
    | None =>
        let s := set_adminClient (Some client) s in
        updateUserList s
    end
  else
    match adminClient s with
    | Some _ =>
        let s := set_userQueue (λ q, q ++ [clientId]) s in
        let s := updateQueue s in
        updateUserList s
    | None => wsSend ws (queuePosition 0) s
    end.

Definition handleSelectUser (ws : nat) (userId : option string) (s : state)
    : state :=
  let clientId := closureClientId ws s in
  match adminClient s with
  | None => s
  | Some admin =>
      if bool_decide (senderRole ws s = Some "admin") then
        let notFound := sendToClient' clientId (error "User not found") s in
        match userId with
        | None => notFound
        | Some userId =>
            match JsMap.get userId (clients s) with
            | None => notFound
            | Some user =>
                if decide (Client.type user = "user") then
                  let s := set_userQueue (spliceOut userId) s in
                  let s :=
                    set_activeChats (JsMap.set userId (Client.id admin)) s in
                  let s :=
                    set_activeChats (JsMap.set (Client.id admin) userId) s in
                  let chatKey := chatKey (Client.id admin) userId in
                  let messages :=
                    if JsMap.has chatKey (chatHistory s) then stored chatKey
                    else array [] in
                  let s :=
                    sendToClient (Client.id admin)
                      (chatStarted
                         (Peer.mk userId (Client.username user)
                                  (Client.type user))
                         messages) s in
                  let s :=
                    sendToClient userId
                      (chatStarted
                         (Peer.mk (Client.id admin) (Client.username admin)
                                  (Client.type admin))
                         messages) s in
                  let s := updateQueue s in
                  updateUserList s
                else notFound
            end
        end
      else s
  end.

Definition handleEndChat (ws : nat) (userId : option string) (s : state)
    : state :=
  match closureClientId ws s with
  | None => s
  | Some clientId =>
      match JsMap.get clientId (clients s) with
      | None => s
      | Some fromClient =>
          let otherUserId :=
            if decide (Client.type fromClient = "admin") then userId
            else JsMap.get clientId (activeChats s) in
          let s := set_activeChats (JsMap.delete clientId) s in
          let s := set_activeChats (deleteKey otherUserId) s in
          let s :=
            match otherUserId with
            | Some otherId =>
                if truthy otherUserId then
                  match JsMap.get otherId (clients s) with
                  | None => s
                  | Some otherClient =>
                      if decide (Client.type otherClient = "user") then
                        let s := set_userQueue (λ q, q ++ [otherId]) s in
                        sendToClient otherId
                          (chatEnded (Some (length (userQueue s)))) s
                      else sendToClient otherId (chatEnded None) s
                  end
                else s
            | None => s
            end in
          let s := updateQueue s in
          updateUserList s
      end
  end.

(** The two [forEach] callbacks of the operator branch of
    [handleDisconnect]. *)
Definition endChatOf (clientId userId : string) (s : state) : state :=
  if decide (userId ≠ clientId) then sendToClient userId (chatEnded None) s
  else s.

Definition resetPosition (clientId : string) (entry : string * Client.t)
    (s : state) : state :=
  let '(id, c) := entry in
  if decide (Client.type c = "user") then
    if decide (id ≠ clientId) then sendToClient id (queuePosition 0) s
    else s
  else s.

Definition handleDisconnect (clientId : option string) (s : state) : state :=
  match clientId with
  | None => s
  | Some clientId =>
      if truthy (Some clientId) then
        match JsMap.get clientId (clients s) with
        | None => s
        | Some client =>
            let s :=
              if decide (Client.type client = "admin") then
                let s := set_adminClient None s in
                let s :=
                  foldl (λ s userId, endChatOf clientId userId s) s
                        (JsMap.keys (activeChats s)) in
                let s := set_activeChats (λ _, []) s in
                let s := set_userQueue (λ _, []) s in
                foldl (λ s entry, resetPosition clientId entry s) s
                      (clients s)
              else
                let s :=
                  match indexOf clientId (userQueue s) with
                  | Some queueIndex =>
                      updateQueue (set_userQueue (delete queueIndex) s)
                  | None => s
                  end in
                let partnerId := JsMap.get clientId (activeChats s) in
                let s :=
                  match partnerId with
                  | Some partner =>
                      if truthy partnerId then
                        let s := set_activeChats (JsMap.delete clientId) s in
                        let s := set_activeChats (JsMap.delete partner) s in
                        sendToClient partner (chatEnded None) s
                      else s
                  | None => s
                  end in
                updateUserList s in
            set_clients (JsMap.delete clientId) s
        end
      else s
  end.

End Direct.


(** What a send hands to the transport. *)
Definition directCall (s : state) (clientId : string) (m : Message)
    : list Call :=
  match JsMap.get clientId (clients s) with
  | Some client =>
      if isOpen (Client.ws client) s
      then [send (Client.ws client) (stringify s m)]
      else []
  | None => []
  end.

Definition grows (s s' : state) : Prop :=
  core s' = core s ∧ ∃ l, wire s' = wire s ++ l.

(** * The signaling server

    The first program of [src/unnamed/part_000] (lines 1-231): a
    directory of user names and a relay for WebRTC signaling. *)

Module Signaling.

(** [data.type] of a signaling frame and of a typing notice. *)
Inductive Kind := offer | answer | iceCandidate.
Inductive Typing := typing | stopTyping.

(** The parsed payload of an inbound frame, by its [type]; [other]
    stands for an unknown [type] and for a frame that [JSON.parse]
    rejects.  [register] and [checkOnline] carry the string on which the
    handler calls [toLowerCase]; [to] is [None] when the frame has no
    such field; [body] stands for the other fields of a signaling
    frame, which the server passes on as they are. *)
Inductive Data :=
| register (username : string)
| checkOnline (friend : string)
| signal (kind : Kind) (to : option string) (body : string)
| getOnlineUsers
| ping
| typingTo (kind : Typing) (to : option string)
| other.

(** The outbound message objects.  [relayed] is the signaling frame
    itself, as [JSON.stringify(data)] writes it out again. *)
Inductive Message :=
| registered (username : string)
| status (friend : string) (online : bool)
| relayed (kind : Kind) (to : option string) (body : string)
| error (message : string)
| onlineUsers (users : list string)
| pong
| typingFrom (kind : Typing) (from : option string).

(** Calls made on the transport. *)
Inductive Call :=
| send (ws : nat) (payload : Message)
| close (ws : nat) (code : nat) (reason : string).

(** A socket with the [username] property that [handleRegister] puts on
    it. *)
Module Socket.
Record t := mk { readyState : ReadyState; username : option string }.
End Socket.

(** A value of [userSessions]. *)
Module Session.
Record t := mk { connectedAt : string; lastSeen : string }.
End Session.

Record state := mkState {
  users : JsMap.t string nat;
  userSessions : JsMap.t string Session.t;
  sockets : gmap nat Socket.t;
  wire : list Call
}.

Definition init : state :=
  {| users := []; userSessions := []; sockets := ∅; wire := [] |}.

Definition set_users (f : JsMap.t string nat → JsMap.t string nat)
    (s : state) : state :=
  mkState (f (users s)) (userSessions s) (sockets s) (wire s).

Definition set_userSessions
    (f : JsMap.t string Session.t → JsMap.t string Session.t) (s : state)
    : state :=
  mkState (users s) (f (userSessions s)) (sockets s) (wire s).

Definition set_sockets (f : gmap nat Socket.t → gmap nat Socket.t)
    (s : state) : state :=
  mkState (users s) (userSessions s) (f (sockets s)) (wire s).

Definition set_wire (f : list Call → list Call) (s : state) : state :=
  mkState (users s) (userSessions s) (sockets s) (f (wire s)).

Definition readyStateOf (ws : nat) (s : state) : ReadyState :=
  match sockets s !! ws with
  | Some k => Socket.readyState k
  | None => CLOSED
  end.

(** [ws.readyState === WebSocket.OPEN] *)
Definition isOpen (ws : nat) (s : state) : bool :=
  bool_decide (readyStateOf ws s = OPEN).

(** [ws.username] *)
Definition usernameOf (ws : nat) (s : state) : option string :=
  sockets s !! ws ≫= Socket.username.

(** [ws.send(JSON.stringify(message))]; the log records the call. *)
Definition wsSend (ws : nat) (m : Message) (s : state) : state :=
  set_wire (λ l, l ++ [send ws m]) s.

(** [ws.close(code, reason)]: an open socket starts closing. *)
Definition closing (k : Socket.t) : Socket.t :=
  match Socket.readyState k with
  | OPEN => Socket.mk CLOSING (Socket.username k)
  | _ => k
  end.

Definition wsClose (ws : nat) (code : nat) (reason : string) (s : state)
    : state :=
  set_wire (λ l, l ++ [close ws code reason])
           (set_sockets (alter closing ws) s).

(** The callback of [users.forEach] in [broadcastOnlineUsers]. *)
Definition sendOnlineUsers (userList : list string) (s : state)
    (entry : string * nat) : state :=
  let '(username, ws) := entry in
  if isOpen ws s then
    let filteredList := filter (λ u, u ≠ username) userList in
    wsSend ws (onlineUsers filteredList) s
  else s.

Definition broadcastOnlineUsers (s : state) : state :=
  let userList := JsMap.keys (users s) in
  foldl (sendOnlineUsers userList) s (users s).

(** The template literal [`User ${data.to} is not online`]. *)
Definition notOnline (to : option string) : string :=
  "User " +:+ default "undefined" to +:+ " is not online".

(** [users.get(data.to)] where [data.to] may be [undefined]. *)
Definition target (to : option string) (s : state) : option nat :=
  to ≫= λ k, JsMap.get k (users s).

Section handlers.
(** [normalize x] is [x.toLowerCase().trim()]. *)
Variable normalize : string → string.

(** [connectedAt] and [lastSeen] are the values of the two calls of
    [new Date()]. *)
Definition handleRegister (ws : nat) (name : string)
    (connectedAt lastSeen : string) (s : state) : state :=
  let username := normalize name in
  let s :=
    match JsMap.get username (users s) with
    | Some existingWs => wsClose existingWs 1000 "New connection established" s
    | None => s
    end in
  let s := set_users (JsMap.set username ws) s in
  let s :=
    set_sockets
      (alter (λ k, Socket.mk (Socket.readyState k) (Some username)) ws) s in
  let s :=
    set_userSessions
      (JsMap.set username (Session.mk connectedAt lastSeen)) s in
  let s := wsSend ws (registered username) s in
  broadcastOnlineUsers s.

Definition handleCheckOnline (ws : nat) (name : string) (s : state) : state :=
  let friend := normalize name in
  let isOnline := JsMap.has friend (users s) in
  wsSend ws (status friend isOnline) s.

Definition handleSignaling (ws : nat) (kind : Kind) (to : option string)
    (body : string) (s : state) : state :=
  match target to s with
  | Some target =>
      if isOpen target s then wsSend target (relayed kind to body) s
      else wsSend ws (error (notOnline to)) s
  | None => wsSend ws (error (notOnline to)) s
  end.

Definition handleGetOnlineUsers (ws : nat) (s : state) : state :=
  let userList :=
    filter (λ u, Some u ≠ usernameOf ws s) (JsMap.keys (users s)) in
  wsSend ws (onlineUsers userList) s.

Definition handleTyping (ws : nat) (kind : Typing) (to : option string)
    (s : state) : state :=
  match target to s with
  | Some target =>
      if isOpen target s
      then wsSend target (typingFrom kind (usernameOf ws s)) s
      else s
  | None => s
  end.

(** What the environment supplies while one frame is handled. *)
Record Oracle := mkOracle { date1 : string; date2 : string }.

(** The [message] listener of a socket. *)
Definition handleMessage (ws : nat) (data : Data) (o : Oracle) (s : state)
    : state :=
  match data with
  | register username => handleRegister ws username (date1 o) (date2 o) s
  | checkOnline friend => handleCheckOnline ws friend s
  | signal kind to body => handleSignaling ws kind to body s
  | getOnlineUsers => handleGetOnlineUsers ws s
  | ping => wsSend ws pong s
  | typingTo kind to => handleTyping ws kind to s
  | other => s
  end.

(** The [close] listener of a socket, after the transport has closed
    it.  [if (ws.username)] fails for a socket without the property and
    for the empty name. *)
Definition closed (k : Socket.t) : Socket.t :=
  Socket.mk CLOSED (Socket.username k).

Definition handleClose (ws : nat) (s : state) : state :=
  let s := set_sockets (alter closed ws) s in
  match usernameOf ws s with
  | Some username =>
      if bool_decide (username ≠ "") then
        let s := set_users (JsMap.delete username) s in
        let s := set_userSessions (JsMap.delete username) s in
        broadcastOnlineUsers s
      else s
  | None => s
  end.

Inductive Event :=
| onConnection (ws : nat)
| onMessage (ws : nat) (data : Data) (o : Oracle)
| onClose (ws : nat).

Definition step (e : Event) (s : state) : state :=
  match e with
  | onConnection ws => set_sockets <[ws := Socket.mk OPEN None]> s
  | onMessage ws data o => handleMessage ws data o s
  | onClose ws => handleClose ws s
  end.

(** A connection gets a new socket; frames arrive on, and [close] fires
    once for, a socket that has not been closed. *)
Definition enabled (e : Event) (s : state) : bool :=
  match e with
  | onConnection ws => bool_decide (sockets s !! ws = None)
  | onMessage ws _ _ | onClose ws =>
      bool_decide (is_Some (sockets s !! ws) ∧ readyStateOf ws s ≠ CLOSED)
  end.

Definition run (es : list Event) (s : state) : state :=
  foldl (λ s e, step e s) s es.

Fixpoint admissible (es : list Event) (s : state) : bool :=
  match es with
  | [] => true
  | e :: es => enabled e s && admissible es (step e s)
  end.

Inductive reachable : state → Prop :=
| reachable_init : reachable init
| reachable_step e s :
    reachable s → enabled e s = true → reachable (step e s).
End handlers.

(** [toLowerCase().trim()] on a name made of ASCII letters, digits and
    blanks. *)
Definition lower (a : Ascii.ascii) : Ascii.ascii :=
  let n := Ascii.nat_of_ascii a in
  if (65 <=? n) && (n <=? 90) then Ascii.ascii_of_nat (n + 32) else a.

Definition blank (a : Ascii.ascii) : bool :=
  bool_decide (Ascii.nat_of_ascii a ∈ [9; 10; 11; 12; 13; 32]).

Fixpoint trimStart (x : string) : string :=
  match x with
  | String a x' => if blank a then trimStart x' else x
  | EmptyString => EmptyString
  end.

Fixpoint mapString (f : Ascii.ascii → Ascii.ascii) (x : string) : string :=
  match x with
  | String a x' => String (f a) (mapString f x')
  | EmptyString => EmptyString
  end.

Definition asciiNormalize (x : string) : string :=
  String.rev (trimStart (String.rev (trimStart (mapString lower x)))).

End Signaling.


(** What [broadcastOnlineUsers] sends for one entry of [users]. *)
Definition onlineUsersFor (s : Signaling.state) (entry : string * nat)
    : option Signaling.Call :=
  if Signaling.isOpen entry.2 s
  then Some (Signaling.send entry.2
               (Signaling.onlineUsers
                  (filter (λ u, u ≠ entry.1)
                          (JsMap.keys (Signaling.users s)))))
  else None.

(** Signaling scenarios: "  Alice " registers on socket 0. *)
Definition aliceRegisters : list Signaling.Event :=
  [Signaling.onConnection 0;
   Signaling.onMessage 0 (Signaling.register "  Alice ")
     (Signaling.mkOracle "d1" "d2")].

(** Every name of the directory is a value of [normalize], and the
    sessions are kept for the names of the directory. *)
Definition directory_ok (normalize : string → string) (s : Signaling.state)
    : Prop :=
  (∀ k, k ∈ JsMap.keys (Signaling.users s) → ∃ n, k = normalize n) ∧
  JsMap.keys (Signaling.userSessions s) = JsMap.keys (Signaling.users s).

(** * The directory of [src/server.js]

    The server of [src/server.js] keeps the directory of the signaling
    server without sessions, without normal forms of names and without
    a look at [readyState].  Its messages are objects of the signaling
    server.  A frame that [JSON.parse] rejects makes the listener
    throw; such frames are left out. *)

Module Server.

(** The parsed payload of an inbound frame, by its [type]; [other]
    stands for every other [type]. *)
Inductive Data :=
| register (username : string)
| checkOnline (friend : string)
| signal (kind : Signaling.Kind) (to : option string) (body : string)
| getOnlineUsers
| other.

Record state := mkState {
  users : JsMap.t string nat;
  sockets : gmap nat Signaling.Socket.t;
  wire : list Signaling.Call
}.

Definition init : state := {| users := []; sockets := ∅; wire := [] |}.

Definition set_users (f : JsMap.t string nat → JsMap.t string nat)
    (s : state) : state :=
  mkState (f (users s)) (sockets s) (wire s).

Definition set_sockets
    (f : gmap nat Signaling.Socket.t → gmap nat Signaling.Socket.t)
    (s : state) : state :=
  mkState (users s) (f (sockets s)) (wire s).

Definition set_wire (f : list Signaling.Call → list Signaling.Call)
    (s : state) : state :=
  mkState (users s) (sockets s) (f (wire s)).

(** [ws.username] *)
Definition usernameOf (ws : nat) (s : state) : option string :=
  sockets s !! ws ≫= Signaling.Socket.username.

(** [ws.send(JSON.stringify(message))]; the log records the call. *)
Definition wsSend (ws : nat) (m : Signaling.Message) (s : state) : state :=
  set_wire (λ l, l ++ [Signaling.send ws m]) s.

(** [users.forEach(ws => ws.send(JSON.stringify(data)))] *)
Definition broadcast (data : Signaling.Message) (s : state) : state :=
  foldl (λ s ws, wsSend ws data s) s (JsMap.values (users s)).

(** The [message] listener of a socket. *)
Definition handleMessage (ws : nat) (data : Data) (s : state) : state :=
  match data with
  | register username =>
      let s := set_users (JsMap.set username ws) s in
      let s :=
        set_sockets
          (alter (λ k, Signaling.Socket.mk (Signaling.Socket.readyState k)
                                           (Some username)) ws) s in
      let s := wsSend ws (Signaling.registered username) s in
      broadcast (Signaling.onlineUsers (JsMap.keys (users s))) s
  | checkOnline friend =>
      wsSend ws (Signaling.status friend (JsMap.has friend (users s))) s
  | signal kind to body =>
      match to ≫= λ k, JsMap.get k (users s) with
      | Some target => wsSend target (Signaling.relayed kind to body) s
      | None => s
      end
  | getOnlineUsers =>
      wsSend ws
        (Signaling.onlineUsers
           (filter (λ u, Some u ≠ usernameOf ws s) (JsMap.keys (users s))))
        s
  | other => s
  end.

(** The [close] listener of a socket, after the transport has closed
    it. *)
Definition handleClose (ws : nat) (s : state) : state :=
  let s := set_sockets (alter Signaling.closed ws) s in
  match usernameOf ws s with
  | Some username =>
      if bool_decide (username ≠ "") then
        let s := set_users (JsMap.delete username) s in
        broadcast (Signaling.onlineUsers (JsMap.keys (users s))) s
      else s
  | None => s
  end.

Inductive Event :=
| onConnection (ws : nat)
| onMessage (ws : nat) (data : Data)
| onClose (ws : nat).

Definition step (e : Event) (s : state) : state :=
  match e with
  | onConnection ws =>
      set_sockets <[ws := Signaling.Socket.mk OPEN None]> s
  | onMessage ws data => handleMessage ws data s
  | onClose ws => handleClose ws s
  end.

Definition run (es : list Event) (s : state) : state :=
  foldl (λ s e, step e s) s es.

End Server.


(** * The lobby

    The second program of [src/unnamed/part_000] (lines 231-293): users
    register under an identifier of their choice, an operator asks for a
    room with a user, and WebRTC frames are passed on inside a room. *)

Module Lobby.

(** A value of [users]: [{ ws, name, role, room }]; [room] is [None]
    for [null]. *)
Module User.
Record t :=
  mk { ws : nat; name : string; role : string; room : option string }.
End User.

(** An element of the [users] array of a [userlist] message. *)
Module Listed.
Record t := mk { id : string; name : string; role : string; online : bool }.
End Listed.

(** The parsed payload of an inbound frame, by its [type].  An
    identifier is [None] when the frame has no such field; [body]
    stands for the other fields of a [webrtc] frame; [other] stands for
    every other [type] and for a frame that [JSON.parse] rejects (the
    listener catches what is thrown). *)
Inductive Data :=
| register (id name role : string)
| connectRequest (fromId toId : option string)
| webrtc (room fromId : option string) (body : string)
| other.

(** The outbound message objects.  [connectResponse] has no [fromId]:
    the value of [from.id] is [undefined], and [JSON.stringify] leaves
    such a property out.  [relayed] is the [webrtc] frame itself. *)
Inductive Message :=
| userlist (users : list Listed.t)
| connectResponse (room : string)
| relayed (room fromId : option string) (body : string).

Inductive Call :=
| send (ws : nat) (payload : Message).

(** [users], and [wss.clients] with the [readyState] of every socket,
    in the order of connection. *)
Record state := mkState {
  users : JsMap.t string User.t;
  sockets : JsMap.t nat ReadyState;
  wire : list Call
}.

Definition init : state := {| users := []; sockets := []; wire := [] |}.

Definition set_users (f : JsMap.t string User.t → JsMap.t string User.t)
    (s : state) : state :=
  mkState (f (users s)) (sockets s) (wire s).

Definition set_sockets (f : JsMap.t nat ReadyState → JsMap.t nat ReadyState)
    (s : state) : state :=
  mkState (users s) (f (sockets s)) (wire s).

Definition set_wire (f : list Call → list Call) (s : state) : state :=
  mkState (users s) (sockets s) (f (wire s)).

(** [ws.send(JSON.stringify(message))]; the log records the call. *)
Definition wsSend (ws : nat) (m : Message) (s : state) : state :=
  set_wire (λ l, l ++ [send ws m]) s.

(** The element of the list that [broadcastUsers] computes for a value
    [u] of [users]: the key that [find] returns is the first one whose
    value is the object [u], that is the key of [u]. *)
Definition listed (entry : string * User.t) : Listed.t :=
  Listed.mk entry.1 (User.name entry.2) (User.role entry.2) true.

Definition broadcastUsers (s : state) : state :=
  let list := listed <$> users s in
  foldl (λ s client,
           if bool_decide (client.2 = OPEN)
           then wsSend client.1 (userlist list) s
           else s)
        s (sockets s).

(** The template literal [`${from.id}-${toId}`]: the objects of [users]
    have no [id], so [from.id] is [undefined]. *)
Definition roomName (toId : string) : string := "undefined-" +:+ toId.

Definition setRoom (room : string) (u : User.t) : User.t :=
  User.mk (User.ws u) (User.name u) (User.role u) (Some room).

(** The branch of a [connect-request] frame.  [from.role] throws when
    [users] has no [fromId]; the listener catches it. *)
Definition handleConnectRequest (fromId toId : option string) (s : state)
    : state :=
  match fromId with
  | None => s
  | Some fromId =>
      match JsMap.get fromId (users s) with
      | None => s
      | Some from =>
          match toId with
          | None => s
          | Some toId =>
              match JsMap.get toId (users s) with
              | None => s
              | Some to =>
                  if bool_decide (User.role from = "admin") &&
                     bool_decide (User.role to = "user")
                  then
                    let room := roomName toId in
                    let s :=
                      set_users (JsMap.set fromId (setRoom room from)) s in
                    let s := set_users (JsMap.set toId (setRoom room to)) s in
                    let s := wsSend (User.ws to) (connectResponse room) s in
                    broadcastUsers s
                  else s
              end
          end
      end
  end.

(** The branch of a [webrtc] frame whose [room] is truthy. *)
Definition handleWebrtc (room fromId : option string) (body : string)
    (s : state) : state :=
  if truthy room then
    foldl (λ s entry,
             if bool_decide (User.room entry.2 = room) &&
                bool_decide (Some entry.1 ≠ fromId)
             then wsSend (User.ws entry.2) (relayed room fromId body) s
             else s)
          s (users s)
  else s.

(** The [message] listener of a socket. *)
Definition handleMessage (ws : nat) (data : Data) (s : state) : state :=
  match data with
  | register id name role =>
      let s := set_users (JsMap.set id (User.mk ws name role None)) s in
      broadcastUsers s
  | connectRequest fromId toId => handleConnectRequest fromId toId s
  | webrtc room fromId body => handleWebrtc room fromId body s
  | other => s
  end.

(** The [close] listener of a socket; the server has taken the socket
    out of [wss.clients] before.  The callback of [users.forEach]
    deletes the entry it is called for and no other, so the iteration
    visits the entries present at the start. *)
Definition handleClose (ws : nat) (s : state) : state :=
  let s := set_sockets (JsMap.delete ws) s in
  foldl (λ s entry,
           if bool_decide (User.ws entry.2 = ws) then
             broadcastUsers (set_users (JsMap.delete entry.1) s)
           else s)
        s (users s).

Inductive Event :=
| onConnection (ws : nat)
| onMessage (ws : nat) (data : Data)
| onClose (ws : nat).

Definition step (e : Event) (s : state) : state :=
  match e with
  | onConnection ws => set_sockets (JsMap.set ws OPEN) s
  | onMessage ws data => handleMessage ws data s
  | onClose ws => handleClose ws s
  end.

Definition run (es : list Event) (s : state) : state :=
  foldl (λ s e, step e s) s es.

End Lobby.


(** What [handleWebrtc] sends for one entry of [users]. *)
Definition relayFor (room fromId : option string) (body : string)
    (entry : string * Lobby.User.t) : option Lobby.Call :=
  if bool_decide (Lobby.User.room entry.2 = room) &&
     bool_decide (Some entry.1 ≠ fromId)
  then Some (Lobby.send (Lobby.User.ws entry.2)
               (Lobby.relayed room fromId body))
  else None.

(** Lobby scenario: the operators "o1" and "o2" and the user "u"
    register on the sockets 0, 1 and 2. *)
Definition lobbyRegisters : list Lobby.Event :=
  [Lobby.onConnection 0; Lobby.onMessage 0 (Lobby.register "o1" "Op1" "admin");
   Lobby.onConnection 1; Lobby.onMessage 1 (Lobby.register "o2" "Op2" "admin");
   Lobby.onConnection 2; Lobby.onMessage 2 (Lobby.register "u" "Uma" "user")].

(** * The room server

    The first program of [src/unnamed/part_001] (lines 1-406): every
    operator opens a room with the password, users join a room by its
    identifier, and chats, histories and WebRTC signaling are kept per
    room.  [sendToClient] hands every message to the transport at
    once. *)

Module Rooms.

(** A value of [clients]: [{ ws, username, type, roomId }]. *)
Module Client.
Record t :=
  mk { ws : nat; username : string; type : string; roomId : string }.
End Client.

(** A value of [rooms]: [{ admin, users, activeChats, chatHistory }]. *)
Module Room.
Record t := mk {
  admin : string;
  users : list string;
  activeChats : JsMap.t string string;
  chatHistory : JsMap.t string (list Entry.t)
}.
End Room.

(** The three kinds of WebRTC frames. *)
Inductive Rtc := rtcOffer | rtcAnswer | rtcIce.

(** The outbound message objects, one constructor per [type].  In
    [rtc], [payload] is the [offer], the [answer] or the [candidate] of
    the frame, and [from] the [clientId] of the closure, [None] for
    [null]. *)
Inductive Message :=
| error (message : string)
| roomCreated (userId roomId roomUrl : string)
| welcome (userId roomId : string)
| userList (users : list UserInfo.t)
| chatStarted (with_ : Peer.t) (messages : list Entry.t)
| chatMessage (from text timestamp : string)
| chatEnded
| rtc (kind : Rtc) (payload from : option string)
| roomClosed (message : string).

Inductive Call :=
| send (ws : nat) (payload : Message).

Record state := mkState {
  rooms : JsMap.t string Room.t;
  clients : JsMap.t string Client.t;
  sockets : gmap nat Socket.t;
  wire : list Call
}.

Definition init : state :=
  {| rooms := []; clients := []; sockets := ∅; wire := [] |}.

Definition set_rooms (f : JsMap.t string Room.t → JsMap.t string Room.t)
    (s : state) : state :=
  mkState (f (rooms s)) (clients s) (sockets s) (wire s).

Definition set_clients
    (f : JsMap.t string Client.t → JsMap.t string Client.t) (s : state)
    : state :=
  mkState (rooms s) (f (clients s)) (sockets s) (wire s).

Definition set_sockets (f : gmap nat Socket.t → gmap nat Socket.t)
    (s : state) : state :=
  mkState (rooms s) (clients s) (f (sockets s)) (wire s).

Definition set_wire (f : list Call → list Call) (s : state) : state :=
  mkState (rooms s) (clients s) (sockets s) (f (wire s)).

Definition readyStateOf (ws : nat) (s : state) : ReadyState :=
  match sockets s !! ws with
  | Some k => Socket.readyState k
  | None => CLOSED
  end.

(** [ws.readyState === WebSocket.OPEN] *)
Definition isOpen (ws : nat) (s : state) : bool :=
  bool_decide (readyStateOf ws s = OPEN).

(** The [clientId] variable of the closure of socket [ws]. *)
Definition closureClientId (ws : nat) (s : state) : option string :=
  sockets s !! ws ≫= Socket.clientId.

(** [ws.send(JSON.stringify(message))]; the log records the call. *)
Definition wsSend (ws : nat) (m : Message) (s : state) : state :=
  set_wire (λ l, l ++ [send ws m]) s.

Definition sendToClient (clientId : string) (message : Message) (s : state)
    : state :=
  match JsMap.get clientId (clients s) with
  | Some client =>
      if isOpen (Client.ws client) s
      then wsSend (Client.ws client) message s
      else s
  | None => s
  end.

(** The update of one room object: [room.f = ...], [room.users.push],
    and the like, on the object stored under [roomId]. *)
Definition updateRoom (roomId : string) (f : Room.t → Room.t) (s : state)
    : state :=
  match JsMap.get roomId (rooms s) with
  | Some room => set_rooms (JsMap.set roomId (f room)) s
  | None => s
  end.

Definition set_users (f : list string → list string) (room : Room.t)
    : Room.t :=
  Room.mk (Room.admin room) (f (Room.users room)) (Room.activeChats room)
          (Room.chatHistory room).

Definition set_activeChats
    (f : JsMap.t string string → JsMap.t string string) (room : Room.t)
    : Room.t :=
  Room.mk (Room.admin room) (Room.users room) (f (Room.activeChats room))
          (Room.chatHistory room).

Definition set_chatHistory
    (f : JsMap.t string (list Entry.t) → JsMap.t string (list Entry.t))
    (room : Room.t) : Room.t :=
  Room.mk (Room.admin room) (Room.users room) (Room.activeChats room)
          (f (Room.chatHistory room)).

(** [getRoomUsers]; [None] when the callback of [map] throws, which it
    does at [client.username] for an identifier that [clients] does not
    have. *)
Definition getRoomUsers (roomId : string) (s : state)
    : option (list UserInfo.t) :=
  match JsMap.get roomId (rooms s) with
  | None => Some []
  | Some room =>
      mapM (λ userId,
              client ← JsMap.get userId (clients s);
              Some (UserInfo.mk userId (Client.username client)
                                (Client.type client)
                                (JsMap.has userId (Room.activeChats room))))
           (Room.users room)
  end.

(** [updateAdminUserList]; [None] when [getRoomUsers] throws. *)
Definition updateAdminUserList (roomId : string) (s : state) : option state :=
  match JsMap.get roomId (rooms s) with
  | None => Some s
  | Some room =>
      if bool_decide (Room.admin room ≠ "") then
        userList ← getRoomUsers roomId s;
        Some (sendToClient (Room.admin room) (Rooms.userList userList) s)
      else Some s
  end.

(** Inside the [message] listener, whatever a handler throws is caught
    and logged on the console: the state is the one at the throw. *)
Definition caught (s : state) (r : option state) : state := default s r.

Definition setClientId (clientId : string) (k : Socket.t) : Socket.t :=
  Socket.mk (Socket.readyState k) (Some clientId).

(** The template literal of [roomUrl]; [port] is [PORT]. *)
Definition roomUrl (origin : option string) (port roomId : string) : string :=
  (if truthy origin then default "" origin else "http://localhost:" +:+ port)
  +:+ "?room=" +:+ roomId.

(** [newRoomId] and [newId] are the values that [generateRoomId()] and
    [generateClientId()] return. *)
Definition handleCreateRoom (ws : nat) (password origin : option string)
    (username port newRoomId newId : string) (s : state) : state :=
  if bool_decide (password ≠ Some "admin123") then
    wsSend ws (error "Incorrect admin password") s
  else
    let roomId := newRoomId in
    let s := set_sockets (alter (setClientId newId) ws) s in
    let clientId := newId in
    let s := set_rooms (JsMap.set roomId (Room.mk clientId [] [] [])) s in
    let s :=
      set_clients (JsMap.set clientId (Client.mk ws username "admin" roomId))
                  s in
    wsSend ws (roomCreated clientId roomId (roomUrl origin port roomId)) s.

Definition handleJoinRoom (ws : nat) (roomId : option string)
    (username newId : string) (s : state) : state :=
  let notFound := wsSend ws (error "Room not found") s in
  match roomId with
  | None => notFound
  | Some roomId =>
      match JsMap.get roomId (rooms s) with
      | None => notFound
      | Some _ =>
          let s := set_sockets (alter (setClientId newId) ws) s in
          let clientId := newId in
          let s := updateRoom roomId (set_users (λ l, l ++ [clientId])) s in
          let s :=
            set_clients
              (JsMap.set clientId (Client.mk ws username "user" roomId)) s in
          let s := wsSend ws (welcome clientId roomId) s in
          caught s (updateAdminUserList roomId s)
      end
  end.

Definition handleSelectUser (ws : nat) (userId : option string) (s : state)
    : state :=
  match closureClientId ws s with
  | None => s
  | Some clientId =>
      match JsMap.get clientId (clients s) with
      | None => s
      | Some admin =>
          if decide (Client.type admin = "admin") then
            let roomId := Client.roomId admin in
            match JsMap.get roomId (rooms s) with
            | None => s
            | Some room =>
                let notFound :=
                  sendToClient clientId (error "User not found") s in
                match userId with
                | None => notFound
                | Some userId =>
                    match JsMap.get userId (clients s) with
                    | None => notFound
                    | Some user =>
                        if decide (Client.type user = "user") then
                          let s :=
                            updateRoom roomId
                              (set_activeChats (JsMap.set userId clientId))
                              s in
                          let s :=
                            updateRoom roomId
                              (set_activeChats (JsMap.set clientId userId))
                              s in
                          let chatKey := chatKey clientId userId in
                          let messages :=
                            default []
                              (JsMap.get chatKey (Room.chatHistory room)) in
                          let s :=
                            sendToClient clientId
                              (chatStarted
                                 (Peer.mk userId (Client.username user)
                                          (Client.type user))
                                 messages) s in
                          let s :=
                            sendToClient userId
                              (chatStarted
                                 (Peer.mk clientId (Client.username admin)
                                          (Client.type admin))
                                 messages) s in
                          caught s (updateAdminUserList roomId s)
                        else notFound
                    end
                end
            end
          else s
      end
  end.

(** [now] is the value of [new Date().toISOString()]. *)
Definition handleChatMessage (ws : nat) (to : option string) (text : string)
    (now : string) (s : state) : state :=
  match closureClientId ws s with
  | None => s
  | Some clientId =>
      match JsMap.get clientId (clients s) with
      | None => s
      | Some fromClient =>
          let roomId := Client.roomId fromClient in
          match JsMap.get roomId (rooms s), to with
          | Some room, Some toId =>
              match JsMap.get toId (clients s) with
              | None => s
              | Some toClient =>
                  let message :=
                    Entry.mk (Client.username fromClient) text now in
                  let chatKey :=
                    if decide (Client.type fromClient = "admin")
                    then chatKey clientId toId
                    else chatKey toId clientId in
                  let s :=
                    updateRoom roomId
                      (set_chatHistory
                         (λ h, JsMap.set chatKey
                                 (default [] (JsMap.get chatKey h) ++ [message])
                                 h))
                      s in
                  sendToClient toId
                    (chatMessage (Client.username fromClient) text
                                 (Entry.timestamp message)) s
              end
          | _, _ => s
          end
      end
  end.

Definition handleEndChat (ws : nat) (userId : option string) (s : state)
    : state :=
  match closureClientId ws s with
  | None => s
  | Some clientId =>
      match JsMap.get clientId (clients s) with
      | None => s
      | Some fromClient =>
          let roomId := Client.roomId fromClient in
          match JsMap.get roomId (rooms s) with
          | None => s
          | Some room =>
              let otherUserId :=
                if decide (Client.type fromClient = "admin") then userId
                else JsMap.get clientId (Room.activeChats room) in
              let s :=
                updateRoom roomId (set_activeChats (JsMap.delete clientId))
                           s in
              let s :=
                updateRoom roomId (set_activeChats (deleteKey otherUserId))
                           s in
              let s :=
                match otherUserId with
                | Some otherId =>
                    if truthy otherUserId
                    then sendToClient otherId chatEnded s
                    else s
                | None => s
                end in
              caught s (updateAdminUserList roomId s)
          end
      end
  end.

(** [handleWebRTCOffer], [handleWebRTCAnswer] and [handleWebRTCIce]. *)
Definition handleWebRTC (ws : nat) (kind : Rtc) (to payload : option string)
    (s : state) : state :=
  match to with
  | Some toId =>
      if JsMap.has toId (clients s)
      then sendToClient toId (rtc kind payload (closureClientId ws s)) s
      else s
  | None => s
  end.

(** [handleDisconnect]; it runs in the [close] listener, where nothing
    catches what [updateAdminUserList] throws: [None] stands for the
    exception that nobody handles. *)
Definition handleDisconnect (clientId : option string) (s : state)
    : option state :=
  match clientId with
  | None => Some s
  | Some clientId =>
      if truthy (Some clientId) then
        match JsMap.get clientId (clients s) with
        | None => Some s
        | Some client =>
            let roomId := Client.roomId client in
            s ←
              match JsMap.get roomId (rooms s) with
              | Some room =>
                  if decide (Client.type client = "admin") then
                    let s :=
                      foldl (λ s userId,
                               sendToClient userId
                                 (roomClosed "Admin left the room") s)
                            s (Room.users room) in
                    Some (set_rooms (JsMap.delete roomId) s)
                  else
                    let s :=
                      updateRoom roomId (set_users (spliceOut clientId)) s in
                    let partnerId :=
                      JsMap.get clientId (Room.activeChats room) in
                    let s :=
                      match partnerId with
                      | Some partner =>
                          if truthy partnerId then
                            let s :=
                              updateRoom roomId
                                (set_activeChats (JsMap.delete clientId)) s in
                            let s :=
                              updateRoom roomId
                                (set_activeChats (JsMap.delete partner)) s in
                            sendToClient partner chatEnded s
                          else s
                      | None => s
                      end in
                    updateAdminUserList roomId s
              | None => Some s
              end;
            Some (set_clients (JsMap.delete clientId) s)
        end
      else Some s
  end.

(** The parsed payload of an inbound frame, by its [type]; [other]
    stands for an unknown [type] and for a frame that [JSON.parse]
    rejects.  A field is [None] when the frame does not have it, or has
    a value there that is not a string; [username] and [text] are
    strings, and the payload of a WebRTC frame is its serialisation. *)
Inductive Data :=
| createRoom (password origin : option string) (username : string)
| joinRoom (roomId : option string) (username : string)
| selectUser (userId : option string)
| chat (to : option string) (text : string)
| endChat (userId : option string)
| webrtc (kind : Rtc) (to payload : option string)
| other.

(** What the environment supplies while one frame is handled. *)
Record Oracle := mkOracle {
  generateRoomId : string;
  generateClientId : string;
  now : string;
  port : string
}.

Definition handleMessage (ws : nat) (data : Data) (o : Oracle) (s : state)
    : state :=
  match data with
  | createRoom password origin username =>
      handleCreateRoom ws password origin username (port o)
                       (generateRoomId o) (generateClientId o) s
  | joinRoom roomId username =>
      handleJoinRoom ws roomId username (generateClientId o) s
  | selectUser userId => handleSelectUser ws userId s
  | chat to text => handleChatMessage ws to text (now o) s
  | endChat userId => handleEndChat ws userId s
  | webrtc kind to payload => handleWebRTC ws kind to payload s
  | other => s
  end.

Inductive Event :=
| onConnection (ws : nat)
| onMessage (ws : nat) (data : Data) (o : Oracle)
| onClose (ws : nat).

(** One event; [None] when the listener of [close] ends with an
    exception. *)
Definition step (e : Event) (s : state) : option state :=
  match e with
  | onConnection ws => Some (set_sockets <[ws := Socket.mk OPEN None]> s)
  | onMessage ws data o => Some (handleMessage ws data o s)
  | onClose ws =>
      handleDisconnect (closureClientId ws s)
                       (set_sockets (alter closed ws) s)
  end.

(** When the environment can raise an event: a connection gets a new
    socket; frames arrive on, and [close] fires once for, a socket that
    has not been closed; [generateClientId] returns a non-empty
    identifier that no entry of [clients] has, and [generateRoomId] a
    non-empty one. *)
Definition enabled (e : Event) (s : state) : bool :=
  match e with
  | onConnection ws => bool_decide (sockets s !! ws = None)
  | onMessage ws data o =>
      bool_decide (is_Some (sockets s !! ws) ∧ readyStateOf ws s ≠ CLOSED)
      && match data with
         | createRoom _ _ _ | joinRoom _ _ =>
             bool_decide (generateClientId o ≠ "")
             && bool_decide (generateRoomId o ≠ "")
             && negb (JsMap.has (generateClientId o) (clients s))
         | _ => true
         end
  | onClose ws =>
      bool_decide (is_Some (sockets s !! ws) ∧ readyStateOf ws s ≠ CLOSED)
  end.

Inductive reachable : state → Prop :=
| reachable_init : reachable init
| reachable_step e s s' :
    reachable s → enabled e s = true → step e s = Some s' → reachable s'.

(** A run; [None] from the first event on that ends with an
    exception. *)
Fixpoint run (es : list Event) (s : state) : option state :=
  match es with
  | [] => Some s
  | e :: es => step e s ≫= run es
  end.

(** The events of [es] are raised one after the other, each when the
    environment can raise it, and no listener ends with an exception. *)
Fixpoint admissible (es : list Event) (s : state) : bool :=
  match es with
  | [] => true
  | e :: es =>
      enabled e s
      && match step e s with
         | Some s' => admissible es s'
         | None => false
         end
  end.

End Rooms.


(** The members of every room are registered as users of that room,
    each once. *)
Definition members_ok (s : Rooms.state) : Prop :=
  ∀ rid room, JsMap.get rid (Rooms.rooms s) = Some room →
    NoDup (Rooms.Room.users room) ∧
    ∀ u, u ∈ Rooms.Room.users room →
         ∃ c, JsMap.get u (Rooms.clients s) = Some c ∧
              Rooms.Client.type c = "user" ∧ Rooms.Client.roomId c = rid.

(** The part of the state that sending leaves alone. *)
Definition roomsCore (s : Rooms.state) :=
  (Rooms.rooms s, Rooms.clients s, Rooms.sockets s).

(** What [sendToClient] hands to the transport for the entry under
    [clientId], if anything. *)
Definition roomsCall (message : Rooms.Message) (s : Rooms.state)
    (clientId : string) : option Rooms.Call :=
  client ← JsMap.get clientId (Rooms.clients s);
  if Rooms.isOpen (Rooms.Client.ws client) s
  then Some (Rooms.send (Rooms.Client.ws client) message)
  else None.

(** An operator opens a room on socket 1 and a user joins it on
    socket 2. *)
Definition roomOpened : list Rooms.Event :=
  [ Rooms.onConnection 1;
    Rooms.onMessage 1 (Rooms.createRoom (Some "admin123") None "ann")
      (Rooms.mkOracle "r1" "a1" "t0" "3000");
    Rooms.onConnection 2;
    Rooms.onMessage 2 (Rooms.joinRoom (Some "r1") "bob")
      (Rooms.mkOracle "r2" "u1" "t1" "3000") ].

Definition roomState : Rooms.state :=
  default Rooms.init (Rooms.run roomOpened Rooms.init).

(** * Properties *)

(** ** Laws of [JsMap] *)

Module JsMapFacts.
Section JsMapFacts.
Context {K V : Type} `{EqDecision K}.
Implicit Types (k : K) (v : V) (m : list (K * V)).

Lemma get_set_eq k v m : JsMap.get k (JsMap.set k v m) = Some v.
Proof.
  induction m as [|[k' v'] m IH]; simpl.
  - by rewrite decide_True.
  - destruct (decide (k = k')) as [->|Hne]; simpl.
    + by rewrite decide_True.
    + by rewrite decide_False.
Qed.

Lemma get_set_ne k k' v m :
  k ≠ k' → JsMap.get k' (JsMap.set k v m) = JsMap.get k' m.
Proof.
  intros Hne. induction m as [|[k0 v0] m IH]; simpl.
  - by rewrite decide_False.
  - destruct (decide (k = k0)) as [->|Hk]; simpl.
    + by rewrite !(decide_False (P := k' = k0)).
    + destruct (decide (k' = k0)); auto.
Qed.

Lemma get_delete_eq k m : JsMap.get k (JsMap.delete k m) = None.
Proof.
  induction m as [|[k' v'] m IH]; simpl; [done|].
  destruct (decide (k = k')) as [->|Hne]; simpl; [done|].
  by rewrite decide_False.
Qed.

Lemma get_delete_ne k k' m :
  k ≠ k' → JsMap.get k' (JsMap.delete k m) = JsMap.get k' m.
Proof.
  intros Hne. induction m as [|[k0 v0] m IH]; simpl; [done|].
  destruct (decide (k = k0)) as [->|Hk]; simpl.
  - by rewrite decide_False.
  - destruct (decide (k' = k0)); auto.
Qed.

Lemma get_delete_Some k x v m :
  JsMap.get x (JsMap.delete k m) = Some v → x ≠ k ∧ JsMap.get x m = Some v.
Proof.
  destruct (decide (k = x)) as [->|Hne].
  - by rewrite get_delete_eq.
  - rewrite get_delete_ne by done. by intros ?.
Qed.


Lemma set_set k v v' m : JsMap.set k v (JsMap.set k v' m) = JsMap.set k v m.
Proof.
  induction m as [|[k0 v0] m IH]; simpl.
  - by rewrite decide_True.
  - destruct (decide (k = k0)) as [->|Hne]; simpl.
    + by rewrite decide_True.
    + rewrite decide_False by done. by rewrite IH.
Qed.

Lemma get_elem_NoDup k v m :
  NoDup (JsMap.keys m) → (k, v) ∈ m → JsMap.get k m = Some v.
Proof.
  unfold JsMap.keys. induction m as [|[k' v'] m IH]; simpl.
  - by intros _ ?%elem_of_nil.
  - intros [Hn Hnd]%NoDup_cons [[= -> ->]|Hin]%elem_of_cons.
    + by rewrite decide_True.
    + rewrite decide_False; [auto|]. intros ->. apply Hn.
      by apply (list_elem_of_fmap_2 fst) in Hin.
Qed.

Lemma get_None_keys k m : JsMap.get k m = None ↔ k ∉ JsMap.keys m.
Proof.
  unfold JsMap.keys. induction m as [|[k' v'] m IH]; simpl.
  - split; [intros _; apply not_elem_of_nil | done].
  - rewrite not_elem_of_cons. destruct (decide (k = k')) as [->|Hne].
    + split; [done | by intros [? _]].
    + rewrite IH. tauto.
Qed.

Lemma get_Some_keys k v m : JsMap.get k m = Some v → k ∈ JsMap.keys m.
Proof.
  intros Hget. destruct (decide (k ∈ JsMap.keys m)) as [|Hn]; [done|].
  apply get_None_keys in Hn. congruence.
Qed.

Lemma get_Some_elem k v m : JsMap.get k m = Some v → (k, v) ∈ m.
Proof.
  induction m as [|[k' v'] m IH]; simpl; [done|].
  destruct (decide (k = k')) as [->|Hne].
  - intros [= ->]. apply list_elem_of_here.
  - intros Hget. apply list_elem_of_further. auto.
Qed.

Lemma keys_set_present k v m :
  k ∈ JsMap.keys m → JsMap.keys (JsMap.set k v m) = JsMap.keys m.
Proof.
  unfold JsMap.keys. induction m as [|[k' v'] m IH]; simpl.
  - by intros ?%elem_of_nil.
  - destruct (decide (k = k')) as [->|Hne]; simpl; [done|].
    intros [?|Hin]%elem_of_cons; [done|]. f_equal. by apply IH.
Qed.

Lemma keys_set_absent k v m :
  k ∉ JsMap.keys m → JsMap.keys (JsMap.set k v m) = JsMap.keys m ++ [k].
Proof.
  unfold JsMap.keys. induction m as [|[k' v'] m IH]; simpl; [done|].
  rewrite not_elem_of_cons. intros [Hne Hn].
  rewrite decide_False by done. simpl. f_equal. by apply IH.
Qed.

Lemma keys_delete_subseteq k m :
  JsMap.keys (JsMap.delete k m) ⊆ JsMap.keys m.
Proof.
  unfold JsMap.keys. induction m as [|[k' v'] m IH]; simpl; [done|].
  destruct (decide (k = k')); simpl.
  - intros x Hin. right. by apply IH.
  - intros x [->|Hin]%elem_of_cons; [left|right; by apply IH].
Qed.

Lemma NoDup_keys_set k v m :
  NoDup (JsMap.keys m) → NoDup (JsMap.keys (JsMap.set k v m)).
Proof.
  intros Hnd. destruct (decide (k ∈ JsMap.keys m)) as [Hin|Hn].
  - by rewrite keys_set_present.
  - rewrite keys_set_absent by done. apply NoDup_app.
    split_and!; [done| |apply NoDup_singleton].
    intros x Hx ->%list_elem_of_singleton. done.
Qed.

Lemma NoDup_keys_delete k m :
  NoDup (JsMap.keys m) → NoDup (JsMap.keys (JsMap.delete k m)).
Proof.
  unfold JsMap.keys. induction m as [|[k' v'] m IH]; simpl; [done|].
  intros [Hn Hnd]%NoDup_cons. destruct (decide (k = k')); simpl; [auto|].
  apply NoDup_cons. split; [|auto].
  intros Hin. apply Hn. by apply (keys_delete_subseteq k m).
Qed.

Lemma Forall_set (P : K * V → Prop) k v m :
  P (k, v) → Forall P m → Forall P (JsMap.set k v m).
Proof.
  intros Hkv. induction 1 as [|[k' v'] m Hx Hm IH]; simpl.
  - by repeat constructor.
  - destruct (decide (k = k')); constructor; auto.
Qed.

Lemma Forall_delete (P : K * V → Prop) k m :
  Forall P m → Forall P (JsMap.delete k m).
Proof.
  induction 1 as [|[k' v'] m Hx Hm IH]; simpl; [constructor|].
  destruct (decide (k = k')); [done|by constructor].
Qed.

Lemma has_true k m : JsMap.has k m = true ↔ is_Some (JsMap.get k m).
Proof.
  unfold JsMap.has. destruct (JsMap.get k m); split; done.
Qed.

Lemma has_false k m : JsMap.has k m = false ↔ JsMap.get k m = None.
Proof. unfold JsMap.has. by destruct (JsMap.get k m). Qed.
End JsMapFacts.
End JsMapFacts.

Import JsMapFacts.

(** ** Arrays *)

Lemma indexOf_elem x l : x ∈ l → is_Some (indexOf x l).
Proof.
  induction l as [|y l IH]; simpl; [by intros ?%elem_of_nil|].
  destruct (decide (y = x)); [by eexists|].
  intros [?|Hin]%elem_of_cons; [done|].
  destruct (IH Hin) as [i ->]. by eexists.
Qed.

Lemma indexOf_lookup x l i : indexOf x l = Some i → l !! i = Some x.
Proof.
  revert i. induction l as [|y l IH]; intros i; simpl; [done|].
  destruct (decide (y = x)) as [->|Hne]; [by intros [= <-]|].
  destruct (indexOf x l) as [j|]; [|done]. intros [= <-]. by apply IH.
Qed.

Lemma indexOf_None x l : indexOf x l = None → x ∉ l.
Proof.
  induction l as [|y l IH]; simpl; [intros _; apply not_elem_of_nil|].
  destruct (decide (y = x)) as [->|Hne]; [done|].
  destruct (indexOf x l); [done|]. intros _.
  apply not_elem_of_cons. split; [done|by apply IH].
Qed.

Lemma NoDup_spliceOut x l : NoDup l → NoDup (spliceOut x l).
Proof.
  unfold spliceOut. destruct (indexOf x l); [|done].
  intros Hnd. exact (sublist_NoDup _ _ Hnd (sublist_delete _ _)).
Qed.

Lemma spliceOut_elem x y l : y ∈ spliceOut x l → y ∈ l.
Proof.
  unfold spliceOut. destruct (indexOf x l); [|done].
  apply list_elem_of_delete_inv.
Qed.

Lemma spliceOut_NoDup_notin x l : NoDup l → x ∉ spliceOut x l.
Proof.
  intros Hnd. unfold spliceOut.
  destruct (indexOf x l) as [i|] eqn:Hi; [|by apply indexOf_None].
  apply indexOf_lookup in Hi. intros Hin.
  apply list_elem_of_lookup in Hin as [j Hj].
  destruct (decide (j < i)) as [Hlt|Hge].
  - rewrite list_lookup_delete_lt in Hj by done.
    pose proof (NoDup_lookup _ _ _ _ Hnd Hi Hj). lia.
  - rewrite list_lookup_delete_ge in Hj by lia.
    pose proof (NoDup_lookup _ _ _ _ Hnd Hi Hj). lia.
Qed.

(** ** Runs *)

Lemma reachable_run es s :
  reachable s → admissible es s = true → reachable (run es s).
Proof.
  revert s. induction es as [|e es IH]; intros s Hs; simpl; [done|].
  intros [He Hes]%andb_true_iff. apply IH; [|done]. by constructor.
Qed.

Lemma run_app es es' s : run (es ++ es') s = run es' (run es s).
Proof. apply foldl_app. Qed.

Lemma reachable_proper_reachable s : reachable_proper s → reachable s.
Proof. induction 1; by constructor. Qed.


(** ** Frame

    The delivery engine writes [messageQueues] and [wire] and nothing
    else; [frame] rewrites with this fact. *)

Lemma core_fields s s' :
  core s' = core s →
  clients s' = clients s ∧ adminClient s' = adminClient s ∧
  userQueue s' = userQueue s ∧ activeChats s' = activeChats s ∧
  chatHistory s' = chatHistory s ∧ sockets s' = sockets s.
Proof. unfold core. intros [= -> -> -> -> -> ->]. done. Qed.

Lemma sendToClient_core clientId m s :
  core (sendToClient clientId m s) = core s.
Proof.
  unfold sendToClient.
  repeat (case_match; simpl; try done).
Qed.

Lemma foldl_core {A} (f : state → A → state) (l : list A) s :
  (∀ s x, core (f s x) = core s) → core (foldl f s l) = core s.
Proof.
  intros Hf. revert s. induction l as [|x l IH]; intros s; simpl; [done|].
  by rewrite IH.
Qed.

Lemma forEach_core {A} (f : A → nat → state → state) (l : list A) i s :
  (∀ x i s, core (f x i s) = core s) → core (forEach f l i s) = core s.
Proof.
  intros Hf. revert i s. induction l as [|x l IH]; intros i s; simpl; [done|].
  by rewrite IH.
Qed.

Lemma updateQueue_core s : core (updateQueue s) = core s.
Proof. apply forEach_core. intros. apply sendToClient_core. Qed.

Lemma updateUserList_core s : core (updateUserList s) = core s.
Proof. unfold updateUserList. case_match; [apply sendToClient_core|done]. Qed.

Lemma flushQueue_core k s : core (flushQueue k s) = core s.
Proof. unfold flushQueue. repeat (case_match; simpl; try done). Qed.

Lemma processMessageQueues_core s : core (processMessageQueues s) = core s.
Proof. apply foldl_core. intros. apply flushQueue_core. Qed.

Lemma endChatOf_core cid u s : core (endChatOf cid u s) = core s.
Proof.
  unfold endChatOf. case_decide; [|done]. by rewrite !sendToClient_core.
Qed.

Lemma resetPosition_core cid e s : core (resetPosition cid e s) = core s.
Proof.
  unfold resetPosition. destruct e. repeat case_decide; try done.
  apply sendToClient_core.
Qed.

Lemma isOpen_core s s' :
  core s = core s' → ∀ ws, isOpen ws s = isOpen ws s'.
Proof.
  intros (_ & _ & _ & _ & _ & Hs)%core_fields ws.
  unfold isOpen, readyStateOf. by rewrite Hs.
Qed.

Lemma deliverable_core s s' k :
  core s = core s' → deliverable k s = deliverable k s'.
Proof.
  intros Hc. unfold deliverable.
  pose proof (isOpen_core _ _ Hc) as Ho.
  apply core_fields in Hc as (-> & _).
  destruct (JsMap.get k (clients s')); [apply Ho|done].
Qed.

Lemma deliveryOf_core s s' e :
  core s = core s' → deliveryOf s e = deliveryOf s' e.
Proof.
  intros Hc. pose proof (isOpen_core _ _ Hc) as Ho.
  apply core_fields in Hc as (Hcl & _).
  destruct e as [k q]. simpl. rewrite Hcl.
  destruct (JsMap.get k (clients s')), q; try done. by rewrite Ho.
Qed.

Lemma toCall_core s s' d : core s = core s' → toCall s d = toCall s' d.
Proof.
  intros (_ & _ & _ & _ & Hh & _)%core_fields.
  unfold toCall, stringify. destruct d.2 as [| | | |? []| | | | |]; try done.
  by rewrite Hh.
Qed.

Global Instance clients_core : CoreField clients.
Proof. by intros s s' (? & _)%core_fields. Qed.
Global Instance adminClient_core : CoreField adminClient.
Proof. by intros s s' (_ & ? & _)%core_fields. Qed.
Global Instance userQueue_core : CoreField userQueue.
Proof. by intros s s' (_ & _ & ? & _)%core_fields. Qed.
Global Instance activeChats_core : CoreField activeChats.
Proof. by intros s s' (_ & _ & _ & ? & _)%core_fields. Qed.
Global Instance chatHistory_core : CoreField chatHistory.
Proof. by intros s s' (_ & _ & _ & _ & ? & _)%core_fields. Qed.
Global Instance sockets_core : CoreField sockets.
Proof. by intros s s' (_ & _ & _ & _ & _ & ?)%core_fields. Qed.
Global Instance deliverable_core_field k : CoreField (deliverable k).
Proof. intros s s'. apply deliverable_core. Qed.

Section frame.
Context {A} (proj : state → A) `{!CoreField proj}.

Lemma frame_sendToClient k m s : proj (sendToClient k m s) = proj s.
Proof. apply core_field, sendToClient_core. Qed.

Lemma frame_sendToClient' k m s : proj (sendToClient' k m s) = proj s.
Proof. destruct k; [apply frame_sendToClient|done]. Qed.

Lemma frame_updateQueue s : proj (updateQueue s) = proj s.
Proof. apply core_field, updateQueue_core. Qed.

Lemma frame_updateUserList s : proj (updateUserList s) = proj s.
Proof. apply core_field, updateUserList_core. Qed.

Lemma frame_processMessageQueues s : proj (processMessageQueues s) = proj s.
Proof. apply core_field, processMessageQueues_core. Qed.

Lemma frame_wsSend ws m s : proj (wsSend ws m s) = proj s.
Proof. by apply core_field. Qed.

Lemma frame_set_messageQueues f s : proj (set_messageQueues f s) = proj s.
Proof. by apply core_field. Qed.

Lemma frame_foldl {B} (f : state → B → state) (l : list B) s :
  (∀ s x, core (f s x) = core s) → proj (foldl f s l) = proj s.
Proof. intros. by apply core_field, foldl_core. Qed.
End frame.

Ltac frame_field p :=
  rewrite ?(frame_sendToClient p), ?(frame_sendToClient' p),
    ?(frame_updateQueue p), ?(frame_updateUserList p),
    ?(frame_processMessageQueues p), ?(frame_wsSend p),
    ?(frame_set_messageQueues p).

Ltac frame :=
  repeat progress
    (frame_field clients; frame_field adminClient; frame_field userQueue;
     frame_field activeChats; frame_field chatHistory; frame_field sockets;
     cbn [clients adminClient userQueue activeChats chatHistory sockets
          messageQueues wire set_clients set_adminClient set_userQueue
          set_activeChats set_chatHistory set_sockets set_wire
          set_messageQueues]).

Lemma foldl_invariant {A} (P : state → Prop) (f : state → A → state) l s :
  (∀ s x, P s → P (f s x)) → P s → P (foldl f s l).
Proof.
  intros Hf. revert s. induction l as [|x l IH]; intros s Hs; simpl; auto.
Qed.

Lemma forEach_invariant {A} (P : state → Prop)
    (f : A → nat → state → state) l i s :
  (∀ x i s, P s → P (f x i s)) → P s → P (forEach f l i s).
Proof.
  intros Hf. revert i s.
  induction l as [|x l IH]; intros i s Hs; simpl; auto.
Qed.

(** ** The delivery engine *)

Lemma sendToClient_undeliverable k m s :
  deliverable k s = false → sendToClient k m s = s.
Proof.
  unfold deliverable, sendToClient. destruct (JsMap.get k (clients s)); [|done].
  by intros ->.
Qed.

Lemma sendToClient_low_wire k m s :
  priority m ≠ Some true → wire (sendToClient k m s) = wire s.
Proof.
  intros Hlow. unfold sendToClient.
  repeat (case_match; simpl; try done).
  by rewrite bool_decide_eq_true in *.
Qed.

Lemma queues_wf_bound k q s :
  queues_wf s → pending k s = Some q → length q ≤ 1.
Proof.
  intros [_ Hall] Hget%get_Some_elem.
  by apply (proj1 (Forall_forall _ _) Hall (k, q)).
Qed.

Lemma sendToClient_pending_ne k k' m s :
  k ≠ k' → pending k' (sendToClient k m s) = pending k' s.
Proof.
  intros Hne. unfold pending, sendToClient.
  repeat (case_match; simpl; try done);
    by rewrite ?get_set_ne by done.
Qed.

Lemma sendToClient_low_pending k m s :
  deliverable k s = true → priority m ≠ Some true →
  (∀ q, pending k s = Some q → length q ≤ 1) →
  pending k (sendToClient k m s) = Some [m].
Proof.
  unfold deliverable, pending, sendToClient. intros Hd Hlow Hq.
  destruct (JsMap.get k (clients s)) as [c|]; [|done]. rewrite Hd.
  rewrite bool_decide_eq_false_2 by done.
  destruct (JsMap.has k (messageQueues s)) eqn:Hhas; simpl.
  - apply has_true in Hhas as [q Hq']. rewrite Hq'. simpl.
    rewrite get_set_eq. f_equal. specialize (Hq q Hq').
    destruct q as [|x [|y q]]; simpl in *; [done|done|lia].
  - by rewrite !get_set_eq.
Qed.

Lemma sendToClient_wf k m s : queues_wf s → queues_wf (sendToClient k m s).
Proof.
  intros Hwf. unfold sendToClient.
  destruct (JsMap.get k (clients s)) as [c|]; [|done].
  destruct (isOpen _ _); [|done].
  destruct (bool_decide _); [done|].
  destruct (JsMap.has k (messageQueues s)) eqn:Hhas; simpl.
  - apply has_true in Hhas as [q Hq]. unfold queues_wf; simpl.
    rewrite Hq. simpl. destruct Hwf as [Hnd Hall]. split.
    + by apply NoDup_keys_set.
    + apply Forall_set; [|done]. simpl.
      pose proof (queues_wf_bound k q s (conj Hnd Hall) Hq) as Hb.
      destruct q as [|x [|y q]]; simpl in *; lia.
  - unfold queues_wf; simpl. rewrite get_set_eq. simpl.
    destruct Hwf as [Hnd Hall]. split.
    + by do 2 apply NoDup_keys_set.
    + apply Forall_set; [simpl; lia|]. apply Forall_set; [simpl; lia|done].
Qed.

Lemma updateUserList_wire s : wire (updateUserList s) = wire s.
Proof.
  unfold updateUserList. destruct (adminClient s); [|done].
  by apply sendToClient_low_wire.
Qed.

Lemma updateUserList_pending_ne u s :
  Client.id <$> adminClient s ≠ Some u →
  pending u (updateUserList s) = pending u s.
Proof.
  intros Hadm. unfold updateUserList. destruct (adminClient s) as [a|]; [|done].
  apply sendToClient_pending_ne. intros Heq. apply Hadm. simpl. by f_equal.
Qed.

Lemma endChatOf_wire cid u s : wire (endChatOf cid u s) = wire s.
Proof.
  unfold endChatOf. case_decide; [|done]. by rewrite !sendToClient_low_wire.
Qed.

Lemma resetPosition_wire cid e s : wire (resetPosition cid e s) = wire s.
Proof.
  unfold resetPosition. destruct e. repeat case_decide; try done.
  by apply sendToClient_low_wire.
Qed.

Lemma foldl_wire {A} (f : state → A → state) l s :
  (∀ s x, wire (f s x) = wire s) → wire (foldl f s l) = wire s.
Proof.
  intros Hf. revert s. induction l as [|x l IH]; intros s; simpl; [done|].
  by rewrite IH.
Qed.

(** ** The tick *)

Lemma flushQueue_pending_ne k k' s :
  k ≠ k' → pending k' (flushQueue k s) = pending k' s.
Proof.
  intros Hne. unfold pending, flushQueue.
  repeat (case_match; simpl; try done). by rewrite get_set_ne.
Qed.

Lemma flushQueue_pending_eq k s :
  pending k (flushQueue k s)
  = if deliverable k s then tail <$> pending k s else pending k s.
Proof.
  unfold pending, flushQueue, deliverable.
  destruct (JsMap.get k (clients s)) as [c|]; [|done].
  destruct (JsMap.get k (messageQueues s)) as [[|m q]|] eqn:Hq;
    destruct (isOpen (Client.ws c) s); simpl; try done.
  by rewrite get_set_eq.
Qed.

Lemma flushQueue_wire k q s :
  pending k s = Some q →
  wire (flushQueue k s) =
  wire s ++ (toCall s <$> option_list (deliveryOf s (k, q))).
Proof.
  unfold pending, flushQueue, deliveryOf. intros ->.
  destruct (JsMap.get k (clients s)) as [c|]; simpl;
    [|by rewrite app_nil_r].
  destruct q as [|m q]; simpl; [by rewrite app_nil_r|].
  destruct (isOpen (Client.ws c) s); simpl; [done|by rewrite app_nil_r].
Qed.

Lemma deliveries_core s s' (l : list (string * list Message)) :
  core s = core s' →
  toCall s <$> omap (deliveryOf s) l = toCall s' <$> omap (deliveryOf s') l.
Proof.
  intros Hc. induction l as [|e l IH]; csimpl; [done|].
  rewrite (deliveryOf_core s s') by done.
  destruct (deliveryOf s' e); csimpl; rewrite IH; [|done].
  by rewrite (toCall_core s s').
Qed.

Lemma flush_fold (l : list (string * list Message)) s :
  NoDup l.*1 → (∀ k q, (k, q) ∈ l → pending k s = Some q) →
  wire (foldl (λ s k, flushQueue k s) s l.*1) =
  wire s ++ (toCall s <$> omap (deliveryOf s) l).
Proof.
  revert s. induction l as [|[k q] l IH]; intros s Hnd Hl; csimpl.
  - by rewrite app_nil_r.
  - apply NoDup_cons in Hnd as [Hk Hnd].
    rewrite IH; [|done|].
    + rewrite (flushQueue_wire k q) by (apply Hl; left).
      rewrite <-app_assoc. f_equal.
      rewrite (deliveries_core (flushQueue k s) s) by apply flushQueue_core.
      unfold deliveryOf. by repeat case_match.
    + intros k' q' Hin. rewrite flushQueue_pending_ne.
      * apply Hl. by right.
      * intros ->. apply Hk. by apply (list_elem_of_fmap_2 fst) in Hin.
Qed.

Lemma processMessageQueues_wire s :
  NoDup (JsMap.keys (messageQueues s)) →
  wire (processMessageQueues s) = wire s ++ (toCall s <$> tickDeliveries s).
Proof.
  intros Hnd. unfold processMessageQueues, tickDeliveries.
  apply flush_fold; [done|]. intros k q. by apply get_elem_NoDup.
Qed.

Lemma tickDeliveries_elem s k w m :
  NoDup (JsMap.keys (messageQueues s)) →
  (k, w, m) ∈ tickDeliveries s ↔
  ∃ c q, JsMap.get k (clients s) = Some c ∧ w = Client.ws c ∧
         isOpen w s = true ∧ pending k s = Some (m :: q).
Proof.
  intros Hnd. unfold tickDeliveries. rewrite list_elem_of_omap. split.
  - intros ([k' q] & Hin & Hd). simpl in Hd.
    destruct (JsMap.get k' (clients s)) as [c|] eqn:Hc; [|done].
    destruct q as [|m' q]; [done|].
    destruct (isOpen (Client.ws c) s) eqn:Ho; [|done].
    injection Hd as -> <- ->. exists c, q. split_and!; try done.
    by apply get_elem_NoDup.
  - intros (c & q & Hc & -> & Ho & Hp). exists (k, m :: q). split.
    + by apply get_Some_elem.
    + simpl. by rewrite Hc, Ho.
Qed.

Lemma tickDeliveries_NoDup s :
  NoDup (JsMap.keys (messageQueues s)) →
  NoDup ((λ d, d.1.1) <$> tickDeliveries s).
Proof.
  unfold tickDeliveries, JsMap.keys.
  induction (messageQueues s) as [|[k q] l IH]; simpl; [constructor|].
  intros [Hk Hnd]%NoDup_cons.
  destruct (JsMap.get k (clients s)) as [c|]; [|auto].
  destruct q as [|m q]; [auto|].
  destruct (isOpen _ _); [|auto]. simpl. apply NoDup_cons. split; [|auto].
  intros ([[k' w] m'] & Hk' & ([k0 q0] & Hin & Hd)%list_elem_of_omap)
    %list_elem_of_fmap.
  simpl in *. apply Hk. apply list_elem_of_fmap. exists (k0, q0).
  split; [|done]. simpl.
  destruct (JsMap.get k0 (clients s)), q0; try done.
  destruct (isOpen _ _); [|done]. by injection Hd as -> _ _.
Qed.

Lemma flush_fold_pending_notin l k s :
  k ∉ l → pending k (foldl (λ s k, flushQueue k s) s l) = pending k s.
Proof.
  revert s. induction l as [|k' l IH]; intros s; simpl; [done|].
  intros [Hne Hn]%not_elem_of_cons. rewrite IH by done.
  by apply flushQueue_pending_ne.
Qed.

Lemma flush_fold_pending_in l k s :
  NoDup l → k ∈ l →
  pending k (foldl (λ s k, flushQueue k s) s l) = pending k (flushQueue k s).
Proof.
  revert s. induction l as [|k' l IH]; intros s; simpl.
  - by intros _ ?%elem_of_nil.
  - intros [Hk Hnd]%NoDup_cons Hin.
    destruct (decide (k' = k)) as [->|Hne].
    + by apply flush_fold_pending_notin.
    + apply elem_of_cons in Hin as [?|Hin]; [done|].
      rewrite IH by done. rewrite !flushQueue_pending_eq.
      rewrite (deliverable_core (flushQueue k' s) s k)
        by apply flushQueue_core.
      by rewrite flushQueue_pending_ne.
Qed.

Lemma processMessageQueues_pending k s :
  NoDup (JsMap.keys (messageQueues s)) →
  pending k (processMessageQueues s)
  = if deliverable k s then tail <$> pending k s else pending k s.
Proof.
  intros Hnd. unfold processMessageQueues.
  destruct (decide (k ∈ JsMap.keys (messageQueues s))) as [Hin|Hnin].
  - rewrite flush_fold_pending_in by done. apply flushQueue_pending_eq.
  - rewrite flush_fold_pending_notin by done.
    apply get_None_keys in Hnin. unfold pending. rewrite Hnin.
    by destruct (deliverable k s).
Qed.

(** ** Every operation keeps the lanes well formed *)

Lemma flushQueue_wf k s : queues_wf s → queues_wf (flushQueue k s).
Proof.
  intros [Hnd Hall]. unfold flushQueue.
  destruct (JsMap.get k (clients s)) as [c|]; [|done].
  destruct (JsMap.get k (messageQueues s)) as [[|m q]|] eqn:Hq; try done.
  destruct (isOpen _ _); [|done]. split; simpl.
  - by apply NoDup_keys_set.
  - apply Forall_set; [|done]. simpl.
    pose proof (queues_wf_bound k _ s (conj Hnd Hall) Hq). simpl in *. lia.
Qed.

Lemma delete_wf k s :
  queues_wf s → queues_wf (set_messageQueues (JsMap.delete k) s).
Proof.
  intros [Hnd Hall]. split; simpl.
  - by apply NoDup_keys_delete.
  - by apply Forall_delete.
Qed.

Ltac wf_step :=
  match goal with
  | H : queues_wf ?s |- queues_wf ?s => exact H
  | |- queues_wf (set_clients _ ?s) => change (queues_wf s)
  | |- queues_wf (set_adminClient _ ?s) => change (queues_wf s)
  | |- queues_wf (set_userQueue _ ?s) => change (queues_wf s)
  | |- queues_wf (set_activeChats _ ?s) => change (queues_wf s)
  | |- queues_wf (set_chatHistory _ ?s) => change (queues_wf s)
  | |- queues_wf (set_sockets _ ?s) => change (queues_wf s)
  | |- queues_wf (set_wire _ ?s) => change (queues_wf s)
  | |- queues_wf (wsSend _ _ ?s) => change (queues_wf s)
  | |- queues_wf (wsClose _ ?s) => change (queues_wf s)
  | |- queues_wf (set_messageQueues (JsMap.delete _) _) => apply delete_wf
  | |- queues_wf (sendToClient _ _ _) => apply sendToClient_wf
  | |- queues_wf (flushQueue _ _) => apply flushQueue_wf
  | |- queues_wf (foldl _ _ _) => apply foldl_invariant; [intros|]
  | |- queues_wf (forEach _ _ _ _) => apply forEach_invariant; [intros|]
  | |- queues_wf (match ?x with _ => _ end) => destruct x eqn:?
  end.

Ltac wf := cbv zeta; repeat wf_step.

Lemma updateQueue_wf s : queues_wf s → queues_wf (updateQueue s).
Proof. intros. unfold updateQueue. wf. Qed.

Lemma updateUserList_wf s : queues_wf s → queues_wf (updateUserList s).
Proof. intros. unfold updateUserList. wf. Qed.

Lemma processMessageQueues_wf s :
  queues_wf s → queues_wf (processMessageQueues s).
Proof. intros. unfold processMessageQueues. wf. Qed.

Lemma resetPosition_wf cid e s :
  queues_wf s → queues_wf (resetPosition cid e s).
Proof. intros. unfold resetPosition. destruct e. wf. Qed.

Lemma handleMessage_wf ws data o s :
  queues_wf s → queues_wf (handleMessage ws data o s).
Proof.
  intros. destruct data; simpl; [..|done];
    unfold handleJoin, handleSelectUser, handleChatMessage, handleEndChat,
      handleStartVideoStream, handleStopVideoStream, handleVideoFrame,
      sendToClient';
    wf; try apply updateUserList_wf; try apply updateQueue_wf; wf.
Qed.

Lemma handleDisconnect_wf clientId s :
  queues_wf s → queues_wf (handleDisconnect clientId s).
Proof.
  intros. unfold handleDisconnect, endChatOf, resetPosition.
  wf; try apply updateUserList_wf; wf; try apply updateQueue_wf; wf.
Qed.

Lemma step_wf e s : queues_wf s → queues_wf (step e s).
Proof.
  intros. destruct e; simpl.
  - done.
  - by apply handleMessage_wf.
  - by apply handleDisconnect_wf.
  - by apply processMessageQueues_wf.
Qed.

Lemma reachable_wf s : reachable s → queues_wf s.
Proof.
  induction 1 as [|e s _ IH _].
  - split; [apply NoDup_nil_2|apply Forall_nil_2].
  - by apply step_wf.
Qed.

(** ** Queue positions *)

Lemma forEach_pushes l i s :
  forEach (λ userId index, sendToClient userId (queuePosition (index + 1)))
          l i s
  = foldl push s (zip l (seq (i + 1) (length l))).
Proof.
  revert i s. induction l as [|u l IH]; intros i s; simpl; [done|].
  by rewrite IH.
Qed.

Lemma updateQueue_pushes s :
  updateQueue s = foldl push s (zip (userQueue s) (seq 1 (length (userQueue s)))).
Proof. apply forEach_pushes. Qed.

Lemma pushes_pending_notin ps u s :
  u ∉ ps.*1 → pending u (foldl push s ps) = pending u s.
Proof.
  revert s. induction ps as [|[u0 p0] ps IH]; intros s; csimpl; [done|].
  intros [Hne Hn]%not_elem_of_cons. rewrite IH by done.
  by apply sendToClient_pending_ne.
Qed.

Lemma pushes_pending ps u p s :
  NoDup ps.*1 → (u, p) ∈ ps → deliverable u s = true →
  (∀ q, pending u s = Some q → length q ≤ 1) →
  pending u (foldl push s ps) = Some [queuePosition p].
Proof.
  revert s. induction ps as [|[u0 p0] ps IH]; intros s; csimpl.
  - by intros _ ?%elem_of_nil.
  - intros [Hn Hnd]%NoDup_cons Hin Hd Hq.
    destruct (decide (u0 = u)) as [->|Hne].
    + assert (p0 = p) as ->.
      { apply elem_of_cons in Hin as [[= ->]|Hin]; [done|].
        destruct Hn. by apply (list_elem_of_fmap_2 fst) in Hin. }
      rewrite pushes_pending_notin by done.
      by apply sendToClient_low_pending.
    + apply elem_of_cons in Hin as [[= -> _]|Hin]; [done|].
      apply IH; try done.
      * by rewrite (deliverable_core _ s) by apply sendToClient_core.
      * unfold push. simpl. by rewrite sendToClient_pending_ne.
Qed.

Lemma updateQueue_pending s i u :
  queues_wf s → NoDup (userQueue s) → userQueue s !! i = Some u →
  deliverable u s = true →
  pending u (updateQueue s) = Some [queuePosition (i + 1)].
Proof.
  intros Hwf Hnd Hi Hd. rewrite updateQueue_pushes.
  apply pushes_pending; try done.
  - rewrite fst_zip; [done|]. by rewrite length_seq.
  - apply list_elem_of_lookup. exists i. apply lookup_zip_with_Some.
    exists u, (i + 1). split_and!; [done..|].
    rewrite lookup_seq. split; [lia|]. by apply lookup_lt_Some in Hi.
  - intros q. by apply queues_wf_bound.
Qed.

Lemma updateQueue_wire s : wire (updateQueue s) = wire s.
Proof.
  rewrite updateQueue_pushes.
  generalize (zip (userQueue s) (seq 1 (length (userQueue s)))) as ps.
  intros ps. revert s. induction ps as [|p ps IH]; intros s; simpl; [done|].
  rewrite IH. by apply sendToClient_low_wire.
Qed.

Lemma renumber_pending s :
  queues_wf s → NoDup (userQueue s) →
  positionsPending (updateUserList (updateQueue s)).
Proof.
  intros Hwf Hnd i u.
  pose proof (updateUserList_core (updateQueue s)) as Hc1.
  pose proof (updateQueue_core s) as Hc2.
  rewrite (deliverable_core _ _ u Hc1), (deliverable_core _ _ u Hc2).
  apply core_fields in Hc1 as (_ & -> & -> & _).
  apply core_fields in Hc2 as (_ & Ha & -> & _).
  intros Hi Hd Hadm. rewrite <-(updateQueue_pending s i u) by done.
  unfold updateUserList. rewrite Ha in *.
  destruct (adminClient s) as [a|]; [|done].
  apply sendToClient_pending_ne. intros Heq. apply Hadm. simpl. by f_equal.
Qed.

Lemma positionsPending_join ws username userType newId s :
  queues_wf s → NoDup (userQueue s) → newId ∉ userQueue s →
  userType ≠ "admin" → is_Some (adminClient s) →
  positionsPending (handleJoin ws username userType newId s).
Proof.
  intros Hwf Hnd Hfresh Htype [a Ha]. unfold handleJoin. cbv zeta.
  rewrite decide_False by done. frame. rewrite Ha.
  apply renumber_pending; [wf|]. frame.
  apply NoDup_app. split_and!; [done| |apply NoDup_singleton].
  by intros x Hx ->%list_elem_of_singleton.
Qed.

Lemma positionsPending_select ws userId user s :
  queues_wf s → NoDup (userQueue s) →
  is_Some (adminClient s) →
  senderRole ws s = Some "admin" →
  JsMap.get userId (clients s) = Some user → Client.type user = "user" →
  positionsPending (handleSelectUser ws (Some userId) s).
Proof.
  intros Hwf Hnd [a Ha] Hsender Huser Htype. unfold handleSelectUser.
  cbv zeta. rewrite Ha, Hsender, Huser.
  rewrite bool_decide_eq_true_2, decide_True by done.
  apply renumber_pending; [wf|]. frame. by apply NoDup_spliceOut.
Qed.

Lemma positionsPending_endChat ws userId s :
  queues_wf s → is_Some (getClient (closureClientId ws s) s) →
  NoDup (userQueue (handleEndChat ws userId s)) →
  positionsPending (handleEndChat ws userId s).
Proof.
  intros Hwf [c Hc]. unfold getClient, handleEndChat in *.
  destruct (closureClientId ws s) as [cid|]; [|done]. simpl in Hc.
  rewrite Hc. cbv zeta. frame. intros Hnd.
  apply renumber_pending; [|done]. wf.
Qed.

Lemma deliverable_delete u cid s :
  deliverable u (set_clients (JsMap.delete cid) s) = true →
  u ≠ cid ∧ deliverable u s = true.
Proof.
  unfold deliverable. simpl. destruct (decide (cid = u)) as [->|Hne].
  - by rewrite get_delete_eq.
  - rewrite get_delete_ne by done. unfold isOpen, readyStateOf. simpl.
    by intros ?.
Qed.

Lemma positionsPending_delete cid s :
  (∀ i u, userQueue s !! i = Some u → u ≠ cid → deliverable u s = true →
          Client.id <$> adminClient s ≠ Some u →
          pending u s = Some [queuePosition (i + 1)]) →
  positionsPending (set_clients (JsMap.delete cid) s).
Proof.
  intros Hs i u Hi [Hne Hd]%deliverable_delete Hadm. by apply Hs.
Qed.

Lemma positionsPending_leave cid c s :
  queues_wf s → NoDup (userQueue s) →
  cid ≠ "" → JsMap.get cid (clients s) = Some c → Client.type c ≠ "admin" →
  cid ∈ userQueue s →
  (∀ p, JsMap.get cid (activeChats s) = Some p → p ∉ userQueue s) →
  positionsPending (handleDisconnect (Some cid) s).
Proof.
  intros Hwf Hnd Hcid Hc Htype Hin Hpartner.
  destruct (indexOf_elem _ _ Hin) as [idx Hidx].
  unfold handleDisconnect. cbv zeta.
  cbn [truthy]. rewrite bool_decide_eq_true_2 by done. rewrite Hc.
  rewrite decide_False by done. frame. rewrite Hidx. frame.
  set (s0 := set_userQueue (delete idx) (set_messageQueues (JsMap.delete cid) s)).
  assert (queues_wf s0) as Hwf0 by (subst s0; wf).
  assert (NoDup (userQueue s0)) as Hnd0.
  { subst s0. simpl. exact (sublist_NoDup _ _ Hnd (sublist_delete _ _)). }
  assert (∀ i u, userQueue s0 !! i = Some u → deliverable u s0 = true →
                 pending u (updateQueue s0) = Some [queuePosition (i + 1)])
    as Hupd by (intros; by apply updateQueue_pending).
  assert (∀ i u, userQueue s0 !! i = Some u → u ∈ userQueue s) as Hsub.
  { intros i u Hi. eapply list_elem_of_delete_inv, list_elem_of_lookup_2.
    exact Hi. }
  apply positionsPending_delete. intros i u.
  destruct (JsMap.get cid (activeChats s)) as [p|] eqn:Hp;
    [destruct (truthy (Some p))|];
    unfold deliverable, isOpen, readyStateOf; frame;
    intros Hi Hne Hd Hadm;
    (rewrite updateUserList_pending_ne by (by frame));
    [rewrite sendToClient_pending_ne|..];
    try (apply Hupd; [done|]; exact Hd).
  intros ->. eapply Hpartner; [done|]. by eapply Hsub.
Qed.

Lemma handleDisconnect_userQueue cid c s :
  cid ≠ "" → JsMap.get cid (clients s) = Some c → Client.type c ≠ "admin" →
  userQueue (handleDisconnect (Some cid) s) = spliceOut cid (userQueue s).
Proof.
  intros Hcid Hc Hty. unfold handleDisconnect, spliceOut. cbv zeta.
  cbn [truthy]. rewrite bool_decide_eq_true_2 by done. rewrite Hc.
  rewrite decide_False by done. frame.
  destruct (indexOf cid (userQueue s)); frame; repeat case_match; by frame.
Qed.

(** ** The operator slot points into the registry *)

Lemma handleMessage_registry ws data o s :
  (∀ username userType, data ≠ join username userType) →
  registry (handleMessage ws data o s) = registry s.
Proof.
  intros Hj. unfold registry.
  destruct data; simpl; [by destruct (Hj username userType)|..|done];
    unfold handleSelectUser, handleChatMessage, handleEndChat,
      handleStartVideoStream, handleStopVideoStream, handleVideoFrame;
    cbv zeta; repeat case_match; frame; congruence.
Qed.

Lemma handleDisconnect_admin_registered clientId s :
  admin_registered s → admin_registered (handleDisconnect clientId s).
Proof.
  intros Hs. unfold handleDisconnect.
  destruct clientId as [cid|]; [|done].
  destruct (truthy (Some cid)); [|done].
  destruct (JsMap.get cid (clients s)) as [c|] eqn:Hc; [|done].
  cbv zeta. destruct (decide (Client.type c = "admin")) as [Ht|Ht].
  - intros a. frame.
    rewrite (frame_foldl adminClient) by (intros; apply resetPosition_core).
    frame.
    rewrite (frame_foldl adminClient) by (intros; apply endChatOf_core).
    done.
  - intros a. frame.
    assert (∀ x, adminClient x = adminClient s → clients x = clients s →
                 adminClient x = Some a →
                 JsMap.get (Client.id a) (JsMap.delete cid (clients x))
                 = Some a ∧ Client.type a = "admin") as Hx.
    { intros x Ha Hcl. rewrite Ha, Hcl. intros [Hget Hty]%Hs.
      split; [|done]. rewrite get_delete_ne; [done|].
      intros ->. congruence. }
    apply Hx; repeat case_match; frame; done.
Qed.

Lemma handleJoin_admin_registered ws username userType newId s :
  JsMap.has newId (clients s) = false →
  admin_registered s →
  admin_registered (handleJoin ws username userType newId s).
Proof.
  intros Hfresh%has_false Hs. unfold handleJoin. cbv zeta.
  assert (∀ a, adminClient s = Some a →
            JsMap.get (Client.id a)
              (JsMap.set newId (Client.mk newId ws username userType)
                 (clients s)) = Some a ∧ Client.type a = "admin") as Hold.
  { intros a [Hget Hty]%Hs. split; [|done].
    rewrite get_set_ne; [done|]. intros ->. congruence. }
  destruct (decide (userType = "admin")) as [->|Hty]; frame.
  - destruct (adminClient s) as [a|] eqn:Ha.
    + intros a'. unfold wsClose. frame. rewrite Ha. by apply Hold.
    + intros a'. frame. intros [= <-]. simpl. by rewrite get_set_eq.
  - destruct (adminClient s) as [a|] eqn:Ha.
    + intros a'. frame. rewrite Ha. by apply Hold.
    + intros a'. frame. by rewrite Ha.
Qed.

Lemma step_admin_registered e s :
  enabled e s = true → admin_registered s → admin_registered (step e s).
Proof.
  intros He Hs. destruct e as [ws|ws data o|ws|].
  - exact Hs.
  - destruct data as [username userType| | | | | | |];
      [|first
         [ exact Hs
         | match goal with
           | |- admin_registered (step (onMessage _ ?d _) _) =>
               pose proof (handleMessage_registry ws d o s
                             ltac:(intros; discriminate)) as [= Hc Ha];
               intros a; cbn [step handleMessage]; rewrite Hc, Ha;
               by apply Hs
           end ]..].
    simpl in *. apply handleJoin_admin_registered; [|done].
    apply andb_true_iff in He as [_ [_ Hf]%andb_true_iff].
    by apply negb_true_iff in Hf.
  - by apply handleDisconnect_admin_registered.
  - intros a. cbn [step]. frame. apply Hs.
Qed.

Lemma reachable_admin_registered s : reachable s → admin_registered s.
Proof.
  induction 1 as [|e s _ IH He]; [done|]. by apply step_admin_registered.
Qed.


(** ** Control messages share the depth-one lane *)

Lemma updateUserList_pending a s :
  queues_wf s → adminClient s = Some a → deliverable (Client.id a) s = true →
  ∃ users, pending (Client.id a) (updateUserList s) = Some [userList users].
Proof.
  intros Hwf Ha Hd. unfold updateUserList. rewrite Ha. eexists.
  apply sendToClient_low_pending; [done..|]. intros q.
  by apply queues_wf_bound.
Qed.

(** Whenever a selection succeeds and the operator can be reached, the
    [chatStarted] message for the operator is overwritten by the roster
    within the handler: nothing goes to the transport and the operator's
    lane holds a [userList] message. *)
Lemma select_overwrites_chatStarted ws userId user a s :
  queues_wf s → adminClient s = Some a →
  senderRole ws s = Some "admin" →
  JsMap.get userId (clients s) = Some user → Client.type user = "user" →
  deliverable (Client.id a) s = true →
  let s' := handleSelectUser ws (Some userId) s in
  wire s' = wire s ∧
  ∃ users, pending (Client.id a) s' = Some [userList users].
Proof.
  intros Hwf Ha Hrole Huser Hty Hd. unfold handleSelectUser. cbv zeta.
  rewrite Ha, Hrole, Huser.
  rewrite bool_decide_eq_true_2, decide_True by done. split.
  - rewrite updateUserList_wire, updateQueue_wire.
    by rewrite !sendToClient_low_wire.
  - apply updateUserList_pending.
    + apply updateQueue_wf. wf.
    + by frame.
    + rewrite (frame_updateQueue (deliverable _)).
      rewrite !(frame_sendToClient (deliverable _)). exact Hd.
Qed.

Lemma resetPosition_stable cid e u s :
  queues_wf s → pending u s = Some [queuePosition 0] →
  pending u (resetPosition cid e s) = Some [queuePosition 0].
Proof.
  intros Hwf Hp. destruct e as [k c]. unfold resetPosition.
  repeat case_decide; try done.
  destruct (decide (k = u)) as [->|Hne];
    [|by rewrite sendToClient_pending_ne].
  destruct (deliverable u s) eqn:Hd.
  - apply sendToClient_low_pending; [done..|]. intros q.
    by apply queues_wf_bound.
  - by rewrite sendToClient_undeliverable.
Qed.

Lemma resetPosition_fold_stable cid u l s :
  queues_wf s → pending u s = Some [queuePosition 0] →
  pending u (foldl (λ s e, resetPosition cid e s) s l)
  = Some [queuePosition 0].
Proof.
  revert s. induction l as [|e l IH]; intros s Hwf Hp; simpl; [done|].
  apply IH; [by apply resetPosition_wf|by apply resetPosition_stable].
Qed.

Lemma resetPosition_fold cid u cu l s :
  queues_wf s → (u, cu) ∈ l → Client.type cu = "user" → u ≠ cid →
  deliverable u s = true →
  pending u (foldl (λ s e, resetPosition cid e s) s l)
  = Some [queuePosition 0].
Proof.
  revert s. induction l as [|e l IH]; intros s Hwf Hin Hty Hne Hd; simpl.
  - by apply elem_of_nil in Hin.
  - apply elem_of_cons in Hin as [<-|Hin].
    + apply resetPosition_fold_stable; [by apply resetPosition_wf|].
      unfold resetPosition. rewrite !decide_True by done.
      apply sendToClient_low_pending; [done..|]. intros q.
      by apply queues_wf_bound.
    + apply IH; try done; [by apply resetPosition_wf|].
      by rewrite (deliverable_core _ s) by apply resetPosition_core.
Qed.

(** Whenever a connection with the operator role disconnects, nothing
    goes to the transport within the handler, and the lane of every
    participant the broker can reach ends up holding [queuePosition 0]
    alone: the [stopVideoStream] and [chatEnded] messages that the
    handler sends to the paired participants are overwritten. *)
Lemma operator_disconnect_overwrites_chatEnded cid c s :
  queues_wf s → cid ≠ "" →
  JsMap.get cid (clients s) = Some c → Client.type c = "admin" →
  let s' := handleDisconnect (Some cid) s in
  wire s' = wire s ∧ adminClient s' = None ∧
  activeChats s' = [] ∧ userQueue s' = [] ∧
  ∀ u cu, u ≠ cid → JsMap.get u (clients s) = Some cu →
          Client.type cu = "user" → isOpen (Client.ws cu) s = true →
          pending u s' = Some [queuePosition 0].
Proof.
  intros Hwf Hcid Hc Hty. unfold handleDisconnect. cbv zeta. cbn [truthy].
  rewrite bool_decide_eq_true_2 by done. rewrite Hc.
  rewrite decide_True by done. frame.
  set (s1 := foldl (λ s0 userId, endChatOf cid userId s0)
               (set_adminClient None (set_messageQueues (JsMap.delete cid) s))
               (JsMap.keys (activeChats s))).
  assert (core s1 = core (set_adminClient None s)) as Hc1.
  { unfold s1. rewrite foldl_core by (intros; apply endChatOf_core). done. }
  assert (queues_wf s1) as Hwf1 by (unfold s1, endChatOf; wf).
  pose proof Hc1 as (Hcl & Hadm & _ & _ & _ & _)%core_fields.
  set (s2 := set_userQueue (λ _, []) (set_activeChats (λ _, []) s1)).
  assert (∀ u, deliverable u s2 = deliverable u s) as Hdel.
  { intros u. unfold deliverable, isOpen, readyStateOf, s2. simpl.
    apply core_fields in Hc1 as (-> & _ & _ & _ & _ & ->). done. }
  rewrite Hcl. cbn [clients set_adminClient]. split_and!.
  - rewrite foldl_wire by (intros; apply resetPosition_wire). simpl.
    unfold s1. by rewrite foldl_wire by (intros; apply endChatOf_wire).
  - rewrite (frame_foldl adminClient) by (intros; apply resetPosition_core).
    unfold s2. cbn [adminClient set_userQueue set_activeChats].
    by rewrite Hadm.
  - by rewrite (frame_foldl activeChats)
      by (intros; apply resetPosition_core).
  - by rewrite (frame_foldl userQueue) by (intros; apply resetPosition_core).
  - intros u cu Hne Hu Hcu Ho.
    change (pending u (set_clients ?f ?x)) with (pending u x).
    apply (resetPosition_fold cid u cu (clients s) s2); try done.
    + by apply get_Some_elem.
    + rewrite Hdel. unfold deliverable. by rewrite Hu.
Qed.

(** ** Chat history *)

(** The history key of a chat message does not depend on its direction:
    a message from the operator [op] to [p] and a message from [p] (any
    role but operator) to [op] are appended to the array stored under
    [chatKey op p], which is the key [handleSelectUser] reads. *)
Lemma chat_appends ws sender to toClient text now cid s :
  closureClientId ws s = Some cid →
  JsMap.get cid (clients s) = Some sender →
  JsMap.get to (clients s) = Some toClient →
  let key :=
    if decide (Client.type sender = "admin") then chatKey cid to
    else chatKey to cid in
  chatHistory (handleChatMessage ws (Some to) text now s)
  = JsMap.set key
      (default [] (JsMap.get key (chatHistory s))
         ++ [Entry.mk (Client.username sender) text now])
      (chatHistory s).
Proof.
  intros Hcid Hs Ht key. unfold handleChatMessage. rewrite Hcid, Hs, Ht.
  cbv zeta. fold key. frame.
  destruct (JsMap.has key (chatHistory s)) eqn:Hhas; [done|]. simpl.
  apply has_false in Hhas. by rewrite get_set_eq, Hhas, set_set.
Qed.

Lemma handleChatMessage_history ws to text now s key h :
  JsMap.get key (chatHistory s) = Some h →
  ∃ h', JsMap.get key (chatHistory (handleChatMessage ws to text now s))
        = Some (h ++ h').
Proof.
  intros Hkey.
  destruct (closureClientId ws s) as [cid|] eqn:Hcid;
    [|exists []; unfold handleChatMessage; by rewrite Hcid, app_nil_r].
  destruct (JsMap.get cid (clients s)) as [sender|] eqn:Hs;
    [|exists []; unfold handleChatMessage; by rewrite Hcid, Hs, app_nil_r].
  destruct to as [to|];
    [|exists []; unfold handleChatMessage; by rewrite Hcid, Hs, app_nil_r].
  destruct (JsMap.get to (clients s)) as [toClient|] eqn:Ht;
    [|exists []; unfold handleChatMessage;
      by rewrite Hcid, Hs, Ht, app_nil_r].
  rewrite (chat_appends ws sender to toClient text now cid s) by done.
  cbv zeta.
  set (k := if decide (Client.type sender = "admin") then chatKey cid to
            else chatKey to cid).
  destruct (decide (k = key)) as [->|Hne].
  - rewrite get_set_eq, Hkey. by eexists.
  - rewrite get_set_ne by done. exists []. by rewrite app_nil_r.
Qed.

Lemma handleDisconnect_history clientId s :
  chatHistory (handleDisconnect clientId s) = chatHistory s.
Proof.
  unfold handleDisconnect. cbv zeta. repeat case_match; frame; try done.
  rewrite (frame_foldl chatHistory) by (intros; apply resetPosition_core).
  frame.
  by rewrite (frame_foldl chatHistory) by (intros; apply endChatOf_core).
Qed.

(** No operation removes or rewrites a history entry: the history of
    every key after an event extends its history before the event. *)
Lemma history_monotone e s key h :
  JsMap.get key (chatHistory s) = Some h →
  ∃ h', JsMap.get key (chatHistory (step e s)) = Some (h ++ h').
Proof.
  intros Hkey.
  destruct e as [ws|ws [| |to text| | | | |] o|ws|];
    try (exists []; rewrite app_nil_r; rewrite <-Hkey; f_equal;
         cbn [step handleMessage];
         unfold handleJoin, handleSelectUser, handleEndChat,
           handleStartVideoStream, handleStopVideoStream,
           handleVideoFrame, wsClose;
         cbv zeta; repeat case_match; frame;
         rewrite ?handleDisconnect_history; by frame).
  by apply handleChatMessage_history.
Qed.

Lemma run_history_monotone es s key h :
  JsMap.get key (chatHistory s) = Some h →
  ∃ h', JsMap.get key (chatHistory (run es s)) = Some (h ++ h').
Proof.
  revert s h. induction es as [|e es IH]; intros s h Hkey; simpl.
  - exists []. by rewrite app_nil_r.
  - destruct (history_monotone e s key h Hkey) as [h1 H1].
    destruct (IH _ _ H1) as [h2 H2]. exists (h1 ++ h2).
    by rewrite app_assoc.
Qed.

(** ** The pairing scheduler along proper runs *)
















(** ** Where pairings and the operator slot go wrong *)

(** A selection while the operator is paired with another participant
    [p] leaves [p]'s entry alone and repoints the operator's entry. *)
Lemma select_keeps_old_pairing ws userId user a p s :
  adminClient s = Some a → senderRole ws s = Some "admin" →
  JsMap.get userId (clients s) = Some user → Client.type user = "user" →
  partner p s = Some (Client.id a) → p ≠ userId → p ≠ Client.id a →
  let s' := handleSelectUser ws (Some userId) s in
  partner p s' = Some (Client.id a) ∧
  partner (Client.id a) s' = Some userId ∧ ¬ symmetric s'.
Proof.
  intros Ha Hrole Huser Hty Hp Hpu Hpa s'.
  assert (partner p s' = Some (Client.id a) ∧
          partner (Client.id a) s' = Some userId) as [H1 H2].
  { unfold s', partner, handleSelectUser. cbv zeta.
    rewrite Ha, Hrole, Huser.
    rewrite bool_decide_eq_true_2, decide_True by done. frame.
    rewrite get_set_eq. split; [|done].
    by rewrite !get_set_ne by done. }
  split_and!; [done..|]. intros Hsym. apply Hsym in H1. congruence.
Qed.

(** When the connection of a refused operator is cleaned up, the
    operator slot is cleared although the operator stays registered. *)
Lemma refused_cleanup_clears_slot cid c a s :
  cid ≠ "" → JsMap.get cid (clients s) = Some c → Client.type c = "admin" →
  adminClient s = Some a → Client.id a ≠ cid →
  JsMap.get (Client.id a) (clients s) = Some a →
  let s' := handleDisconnect (Some cid) s in
  adminClient s' = None ∧ JsMap.get (Client.id a) (clients s') = Some a.
Proof.
  intros Hcid Hc Hty Ha Hne Hget s'. unfold s', handleDisconnect. cbv zeta.
  cbn [truthy]. rewrite bool_decide_eq_true_2 by done. rewrite Hc.
  rewrite decide_True by done. frame.
  repeat (rewrite ?(frame_foldl clients), ?(frame_foldl adminClient)
            by (intros; first [apply resetPosition_core
                              |apply endChatOf_core]);
          progress frame).
  split; [done|]. by rewrite get_delete_ne.
Qed.

(** ** Queue positions and selections in the regular cases *)

(** [updateQueue] sends the participant at index [i] of the queue the
    position [i + 1]: the positions are 1..N in queue order.  While the
    queue has no duplicates, after a participant is enqueued (by its
    join, or at the end of its chat), dequeued (selection) or removed
    (disconnect), the lane of every queued participant the broker can
    reach holds exactly its position in the new queue. *)
Theorem queue_positions_contiguous s :
  updateQueue s
    = foldl push s (zip (userQueue s) (seq 1 (length (userQueue s)))) ∧
  (reachable s → NoDup (userQueue s) →
  (∀ i u, userQueue s !! i = Some u → deliverable u s = true →
          pending u (updateQueue s) = Some [queuePosition (i + 1)]) ∧
  (∀ ws username userType o,
     userType ≠ "admin" → is_Some (adminClient s) →
     generateId o ∉ userQueue s →
     let s' := step (onMessage ws (join username userType) o) s in
     userQueue s' = userQueue s ++ [generateId o] ∧ positionsPending s') ∧
  (∀ ws userId user o,
     is_Some (adminClient s) →
     senderRole ws s = Some "admin" →
     JsMap.get userId (clients s) = Some user → Client.type user = "user" →
     let s' := step (onMessage ws (selectUser (Some userId)) o) s in
     userQueue s' = spliceOut userId (userQueue s) ∧ positionsPending s') ∧
  (∀ ws cid c,
     closureClientId ws s = Some cid → cid ≠ "" →
     JsMap.get cid (clients s) = Some c → Client.type c ≠ "admin" →
     cid ∈ userQueue s →
     (∀ p, partner cid s = Some p → p ∉ userQueue s) →
     let s' := step (onClose ws) s in
     userQueue s' = spliceOut cid (userQueue s) ∧ positionsPending s') ∧
  (∀ ws userId o,
     is_Some (getClient (closureClientId ws s) s) →
     let s' := step (onMessage ws (endChat userId) o) s in
     NoDup (userQueue s') → positionsPending s')).
Proof.
  split; [apply updateQueue_pushes|].
  intros Hwf%reachable_wf Hnd. split_and!.
  - intros i u Hi Hd. by apply updateQueue_pending.
  - intros ws username userType o Hty [a Ha] Hfresh s'. split.
    + unfold s'. cbn [step handleMessage]. unfold handleJoin. cbv zeta.
      rewrite decide_False by done. frame. rewrite Ha. by frame.
    + by apply positionsPending_join.
  - intros ws userId user o [a Ha] Hrole Huser Hty s'. split.
    + unfold s'. cbn [step handleMessage]. unfold handleSelectUser. cbv zeta.
      rewrite Ha, Hrole, Huser.
      rewrite bool_decide_eq_true_2, decide_True by done. by frame.
    + by eapply positionsPending_select.
  - intros ws cid c Hcl Hcid Hc Hty Hin Hp s'. unfold s'.
    cbn [step]. rewrite Hcl. split.
    + by erewrite handleDisconnect_userQueue.
    + by eapply positionsPending_leave.
  - intros ws userId o Hsender s'. by apply positionsPending_endChat.
Qed.

(** Bob and Cat wait at positions 1 and 2; the operator selects Bob and
    Cat moves up to position 1. *)
Lemma queue_positions_contiguous_witness :
  let s := run (opJoins ++ bobJoins ++ catJoins) init in
  let s' := step (frame0 0 (selectUser (Some "b"))) s in
  reachable s ∧ NoDup (userQueue s) ∧
  userQueue s = ["b"; "c"] ∧ userQueue s' = ["c"] ∧
  pending "c" s' = Some [queuePosition 1].
Proof.
  intros s s'.
  assert (reachable s) as Hs
    by (apply reachable_run; [apply reachable_init|reflexivity]).
  assert (NoDup (userQueue s)) as Hnd
    by (apply (bool_decide_unpack _); vm_compute; exact I).
  destruct (queue_positions_contiguous s) as [_ Hops].
  destruct (Hops Hs Hnd) as (_ & _ & Hsel & _ & _).
  destruct (Hsel 0 "b" (Client.mk "b" 1 "Bob" "user") (mkOracle "" ""))
    as [Hq Hpos]; [by eexists|reflexivity..|].
  split_and!; [done|done|reflexivity|reflexivity|].
  apply (Hpos 0 "c"); [reflexivity|reflexivity|vm_compute; discriminate].
Defined.

(** A [selectUser] frame from a connection whose registry entry does
    not have the operator role (or that has no entry), and any
    [selectUser] frame while there is no operator, is ignored: the
    state, that is the registry, the waiting queue, the pairings, the
    history, the lanes and the transport log, is what it was. *)
Theorem selectUser_unauthorized ws userId o s :
  adminClient s = None ∨ senderRole ws s ≠ Some "admin" →
  step (onMessage ws (selectUser userId) o) s = s.
Proof.
  intros Hrole. simpl. unfold handleSelectUser.
  destruct (adminClient s); [|done]. destruct Hrole as [?|Hrole]; [done|].
  unfold senderRole in Hrole. by rewrite bool_decide_eq_false_2.
Qed.

(** Bob, a participant, asks to be paired with Cat. *)
Lemma selectUser_unauthorized_witness :
  let s := run (opJoins ++ bobJoins ++ catJoins) init in
  step (frame0 1 (selectUser (Some "c"))) s = s.
Proof.
  intros s. apply (selectUser_unauthorized 1 (Some "c") _ s).
  right. vm_compute. discriminate.
Defined.

(** * The claims *)

(** C1.  The operator selects Bob and then, without ending that chat,
    selects Cat.  [handleSelectUser] overwrites the operator's partner
    and leaves Bob's entry in place: Bob's partner is the operator, the
    operator's partner is Cat, and the operator is in two pairings.
    When Bob then disconnects, [handleDisconnect] deletes his entry and
    his partner's, that is the operator's entry for Cat: Cat is left
    paired with an operator that has no partner. *)
Theorem second_selectUser_breaks_symmetry :
  let es :=
    opJoins ++ bobJoins ++ catJoins ++
    [frame0 0 (selectUser (Some "b")); frame0 0 (selectUser (Some "c"))] in
  let s := run es init in
  admissible es init = true ∧ reachable s ∧
  activeChats s = [("b", "a"); ("a", "c"); ("c", "a")] ∧
  partner "b" s = Some "a" ∧ partner "c" s = Some "a" ∧
  partner "a" s = Some "c" ∧
  ¬ symmetric s ∧
  activeChats (step (onClose 1) s) = [("c", "a")].
Proof.
  intros es s.
  assert (admissible es init = true) as Hadm by (vm_compute; reflexivity).
  split_and!; try (vm_compute; reflexivity).
  - by apply reachable_run; [apply reachable_init|].
  - intros Hsym. specialize (Hsym "b" "a" eq_refl). vm_compute in Hsym.
    discriminate.
Qed.

(** C2.  In every reachable state no low-priority lane holds more than
    one message.  A low-priority send to a connection the broker can
    reach replaces whatever the lane held and leaves the transport
    alone: when [F1] and then [F2] are sent before a tick, the lane
    holds [F2] only, the tick hands exactly [F2] to that connection and
    empties the lane, and no tick hands two messages to one connection. *)
Theorem low_priority_lane_latest_wins s :
  reachable s →
  (∀ k q, pending k s = Some q → length q ≤ 1) ∧
  NoDup ((λ d, d.1.1) <$> tickDeliveries s) ∧
  wire (processMessageQueues s) = wire s ++ (toCall s <$> tickDeliveries s) ∧
  ∀ k F1 F2,
    deliverable k s = true →
    priority F1 ≠ Some true → priority F2 ≠ Some true →
    let s1 := sendToClient k F1 s in
    let s2 := sendToClient k F2 s1 in
    wire s1 = wire s ∧ pending k s1 = Some [F1] ∧
    wire s2 = wire s ∧ pending k s2 = Some [F2] ∧
    (∀ m, (∃ ws, (k, ws, m) ∈ tickDeliveries s2) ↔ m = F2) ∧
    NoDup ((λ d, d.1.1) <$> tickDeliveries s2) ∧
    wire (processMessageQueues s2)
      = wire s ++ (toCall s2 <$> tickDeliveries s2) ∧
    pending k (processMessageQueues s2) = Some [].
Proof.
  intros Hwf%reachable_wf. pose proof Hwf as [Hnd Hall].
  split_and!.
  - intros k q. by apply queues_wf_bound.
  - by apply tickDeliveries_NoDup.
  - by apply processMessageQueues_wire.
  - intros k F1 F2 Hd Hlow1 Hlow2 s1 s2.
    assert (queues_wf s1) as Hwf1 by by apply sendToClient_wf.
    assert (queues_wf s2) as Hwf2 by by apply sendToClient_wf.
    assert (deliverable k s1 = true) as Hd1
      by (unfold s1; by rewrite (frame_sendToClient (deliverable k))).
    assert (deliverable k s2 = true) as Hd2
      by (unfold s2; by rewrite (frame_sendToClient (deliverable k))).
    assert (pending k s1 = Some [F1]) as Hp1.
    { apply sendToClient_low_pending; try done.
      intros q. by apply queues_wf_bound. }
    assert (pending k s2 = Some [F2]) as Hp2.
    { apply sendToClient_low_pending; try done.
      intros q. by apply queues_wf_bound. }
    assert (wire s2 = wire s) as Hw2.
    { subst s2 s1. by rewrite !sendToClient_low_wire. }
    split_and!; try done.
    + by apply sendToClient_low_wire.
    + intros m. split.
      * intros [ws (c & q & _ & _ & _ & Hp)%tickDeliveries_elem];
          [|apply Hwf2].
        rewrite Hp2 in Hp. by injection Hp as ->.
      * intros ->. unfold deliverable in Hd2.
        destruct (JsMap.get k (clients s2)) as [c|] eqn:Hc; [|done].
        exists (Client.ws c). apply tickDeliveries_elem; [apply Hwf2|].
        by exists c, [].
    + apply tickDeliveries_NoDup, Hwf2.
    + rewrite <-Hw2. apply processMessageQueues_wire, Hwf2.
    + rewrite processMessageQueues_pending by apply Hwf2.
      by rewrite Hd2, Hp2.
Qed.

(** The operator and Bob are connected and a tick has emptied the
    lanes; Bob streams two frames to the operator before the next tick. *)
Lemma low_priority_lane_latest_wins_witness :
  let s := run (opJoins ++ bobJoins ++ [tick]) init in
  let s2 :=
    sendToClient "a" (videoFrame "F2" "b")
      (sendToClient "a" (videoFrame "F1" "b") s) in
  reachable s ∧
  pending "a" s2 = Some [videoFrame "F2" "b"] ∧
  wire (processMessageQueues s2) = wire s ++ [send 0 (videoFrame "F2" "b")].
Proof.
  intros s s2.
  assert (reachable s) as Hs
    by (apply reachable_run; [apply reachable_init|reflexivity]).
  split; [exact Hs|].
  destruct (low_priority_lane_latest_wins s Hs) as (_ & _ & _ & H).
  destruct (H "a" (videoFrame "F1" "b") (videoFrame "F2" "b"))
    as (_ & _ & _ & Hp & _ & _ & Hw & _); [reflexivity|done|done|].
  split; [exact Hp|]. etrans; [exact Hw|]. vm_compute. reflexivity.
Defined.

(** C3.  While "Op" is the operator, "Eve" joins as operator: she is
    refused and the broker closes her socket.  When the [close] event of
    that socket is handled, [handleDisconnect] finds an entry with the
    operator role and clears the operator slot, although "Op" is still
    connected.  "Mal" then joins as operator and is accepted without an
    error: two open connections are registered with the operator role
    and both pass the operator check of [handleSelectUser]. *)
Theorem rejected_operator_cleanup_frees_slot :
  let refused :=
    opJoins ++
    [onConnection 1; onMessage 1 (join "Eve" "admin") (mkOracle "x" "t1")] in
  let es :=
    refused ++
    [onClose 1;
     onConnection 2; onMessage 2 (join "Mal" "admin") (mkOracle "m" "t2")] in
  let s := run es init in
  admissible es init = true ∧ reachable s ∧
  operators (run refused init)
    = [Client.mk "a" 0 "Op" "admin"; Client.mk "x" 1 "Eve" "admin"] ∧
  adminClient (run (refused ++ [onClose 1]) init) = None ∧
  operators s
    = [Client.mk "a" 0 "Op" "admin"; Client.mk "m" 2 "Mal" "admin"] ∧
  adminClient s = Some (Client.mk "m" 2 "Mal" "admin") ∧
  sentOn 2 s = [welcome "m"] ∧
  isOpen 0 s = true ∧ isOpen 2 s = true ∧
  senderRole 0 s = Some "admin" ∧
  senderRole 2 s = Some "admin".
Proof.
  intros refused es s.
  assert (admissible es init = true) as Hadm by (vm_compute; reflexivity).
  split_and!; try (vm_compute; reflexivity).
  by apply reachable_run; [apply reachable_init|].
Qed.




(** C5.  Bob and Cat wait at positions 1 and 2, and the operator sends
    [endChat] naming Bob, who has no partner.  [handleEndChat] appends
    Bob to the queue without looking whether he is there: the queue is
    Bob, Cat, Bob.  [updateQueue] sends one position per entry, so Bob's
    lane gets 1 and then 3, and keeps 3: after this enqueue Bob, first
    in the queue, is told 3, Cat is told 2 and nobody is told 1. *)
Theorem repeated_enqueue_breaks_positions :
  let before := opJoins ++ bobJoins ++ catJoins ++ [tick] in
  let e := frame0 0 (endChat (Some "b")) in
  let s := run (before ++ [e]) init in
  let roster :=
    userList [UserInfo.mk "b" "Bob" "user" false;
              UserInfo.mk "c" "Cat" "user" false] in
  admissible (before ++ [e; tick]) init = true ∧ reachable s ∧
  userQueue (run before init) = ["b"; "c"] ∧
  partner "b" (run before init) = None ∧
  userQueue s = ["b"; "c"; "b"] ∧
  messageQueues s
    = [("a", [roster]); ("b", [queuePosition 3]); ("c", [queuePosition 2])] ∧
  ¬ positionsPending s ∧
  wire (step tick s)
    = wire s ++ [send 0 roster; send 1 (queuePosition 3);
                 send 2 (queuePosition 2)] ∧
  sentOn 1 (step tick s) = [welcome "b"; queuePosition 1; queuePosition 3] ∧
  sentOn 2 (step tick s) = [welcome "c"; queuePosition 2; queuePosition 2].
Proof.
  intros before e s roster.
  assert (admissible (before ++ [e; tick]) init = true) as Hadm
    by (vm_compute; reflexivity).
  split_and!; try (vm_compute; reflexivity).
  - apply reachable_run; [apply reachable_init|]. vm_compute. reflexivity.
  - intros Hpos.
    assert (pending "b" s = Some [queuePosition (0 + 1)]) as Hb.
    { apply Hpos; [vm_compute; reflexivity..|vm_compute; discriminate]. }
    vm_compute in Hb. discriminate.
Qed.

(** C6.  The operator is paired with Bob, Cat waits at position 1, and
    the operator disconnects.  The pairings, the queue and the operator
    slot are cleared and both participants are told position 0.  The
    [chatEnded] message for Bob goes to his depth-one lane and is
    overwritten there by [queuePosition 0] before any tick: nothing is
    sent within the handler, and Bob's socket never carries
    [chatEnded]. *)
Theorem operator_disconnect_chatEnded_lost :
  let before :=
    opJoins ++ bobJoins ++ catJoins ++
    [frame0 0 (selectUser (Some "b")); tick] in
  let es := before ++ [onClose 0; tick] in
  let s := run es init in
  admissible es init = true ∧ reachable s ∧
  partner "b" (run before init) = Some "a" ∧
  userQueue (run before init) = ["c"] ∧
  activeChats s = [] ∧ userQueue s = [] ∧ adminClient s = None ∧
  wire (run (before ++ [onClose 0]) init) = wire (run before init) ∧
  messageQueues (run (before ++ [onClose 0]) init)
    = [("b", [queuePosition 0]); ("c", [queuePosition 0])] ∧
  sentOn 1 s
    = [welcome "b";
       chatStarted (Peer.mk "a" "Op" "admin") (array []);
       queuePosition 0] ∧
  sentOn 2 s = [welcome "c"; queuePosition 1; queuePosition 0] ∧
  (∀ ws q, send ws (chatEnded q) ∉ wire s).
Proof.
  intros before es s.
  assert (admissible es init = true) as Hadm by (vm_compute; reflexivity).
  split_and!; try (vm_compute; reflexivity).
  - by apply reachable_run; [apply reachable_init|].
  - intros ws q Hin. vm_compute in Hin.
    repeat (apply elem_of_cons in Hin as [Hin|Hin]; [discriminate|]).
    by apply elem_of_nil in Hin.
Qed.

(** C7.  The operator selects Bob, the two exchange one message each,
    the operator ends the chat and selects Bob again.  Both messages are
    stored under the one key "a-b" and the second [chatStarted] for Bob
    carries them.  The [chatStarted] message for the operator goes to
    the operator's depth-one lane and is overwritten there by the roster
    that [updateUserList] sends at the end of [handleSelectUser]: the
    operator's socket never carries [chatStarted], so the history never
    reaches the operator. *)
Theorem operator_never_receives_chatStarted :
  let es :=
    opJoins ++ bobJoins ++
    [tick; frame0 0 (selectUser (Some "b")); tick;
     onMessage 1 (chat (Some "a") "hi") (mkOracle "" "t3");
     onMessage 0 (chat (Some "b") "hello") (mkOracle "" "t4");
     frame0 0 (endChat (Some "b")); tick;
     frame0 0 (selectUser (Some "b")); tick] in
  let s := run es init in
  let hi := Entry.mk "Bob" "hi" "t3" in
  let hello := Entry.mk "Op" "hello" "t4" in
  admissible es init = true ∧ reachable s ∧
  chatHistory s = [("a-b", [hi; hello])] ∧
  sentOn 1 s
    = [welcome "b"; queuePosition 1;
       chatStarted (Peer.mk "a" "Op" "admin") (array []);
       chatMessage "Op" "hello" "t4"; queuePosition 1;
       chatStarted (Peer.mk "a" "Op" "admin") (array [hi; hello])] ∧
  sentOn 0 s
    = [welcome "a";
       userList [UserInfo.mk "b" "Bob" "user" false];
       userList [UserInfo.mk "b" "Bob" "user" true];
       chatMessage "Bob" "hi" "t3";
       userList [UserInfo.mk "b" "Bob" "user" false];
       userList [UserInfo.mk "b" "Bob" "user" true]] ∧
  (∀ p h, chatStarted p h ∉ sentOn 0 s).
Proof.
  intros es s hi hello.
  assert (admissible es init = true) as Hadm by (vm_compute; reflexivity).
  split_and!; try (vm_compute; reflexivity).
  - by apply reachable_run; [apply reachable_init|].
  - intros p h Hin. vm_compute in Hin.
    repeat (apply elem_of_cons in Hin as [Hin|Hin]; [discriminate|]).
    by apply elem_of_nil in Hin.
Qed.

(** C8.  While "Op" is the operator and Bob waits in the queue, "Eve"
    joins as operator and is refused; her entry, with the operator role,
    is in the registry until the [close] of her socket is handled.  A
    [selectUser] frame that arrives from her in between passes the check
    of [handleSelectUser], which looks at the role of the sender's entry
    and at whether the operator slot is taken: Bob is taken from the
    queue and paired with "Op", and at the next tick Bob is sent
    [chatStarted] and "Op" the roster.  Eve is not the operator: the
    slot holds "Op". *)
Theorem refused_operator_selectUser_obeyed :
  let es :=
    opJoins ++ bobJoins ++
    [tick; onConnection 3;
     onMessage 3 (join "Eve" "admin") (mkOracle "e" "t3")] in
  let e := frame0 3 (selectUser (Some "b")) in
  let s := run es init in
  let s' := step e s in
  admissible (es ++ [e; tick]) init = true ∧ reachable s ∧
  adminClient s = Some (Client.mk "a" 0 "Op" "admin") ∧
  closureClientId 3 s = Some "e" ∧
  senderRole 3 s = Some "admin" ∧
  sentOn 3 s = [welcome "e"; error "An admin is already connected"] ∧
  userQueue s = ["b"] ∧ activeChats s = [] ∧
  messageQueues s = [("a", []); ("b", [])] ∧
  userQueue s' = [] ∧
  activeChats s' = [("b", "a"); ("a", "b")] ∧
  messageQueues s'
    = [("a", [userList [UserInfo.mk "b" "Bob" "user" true]]);
       ("b", [chatStarted (Peer.mk "a" "Op" "admin") (array [])])] ∧
  wire (step tick s')
    = wire s ++ [send 0 (userList [UserInfo.mk "b" "Bob" "user" true]);
                 send 1 (chatStarted (Peer.mk "a" "Op" "admin") (array []))].
Proof.
  intros es e s s'.
  assert (admissible (es ++ [e; tick]) init = true) as Hadm
    by (vm_compute; reflexivity).
  split_and!; try (vm_compute; reflexivity).
  apply reachable_run; [apply reachable_init|]. vm_compute. reflexivity.
Qed.



(** C10.  A send (of low priority in particular) to a connection that
    is absent from the registry, or whose socket is not open, changes
    nothing: no lane is created or written, nothing goes to the
    transport, and whatever happens afterwards happens as if the send
    had not been made.  A tick delivers nothing to such a connection. *)
Theorem low_priority_send_unreachable k m s :
  JsMap.get k (clients s) = None ∨
  (∃ c, JsMap.get k (clients s) = Some c ∧
        readyStateOf (Client.ws c) s ≠ OPEN) →
  sendToClient k m s = s ∧
  pending k (sendToClient k m s) = pending k s ∧
  (∀ es, run es (sendToClient k m s) = run es s) ∧
  (∀ ws m', (k, ws, m') ∉ tickDeliveries s).
Proof.
  intros Hk. assert (deliverable k s = false) as Hd.
  { unfold deliverable, isOpen. destruct Hk as [->|(c & -> & Hc)]; [done|].
    by rewrite bool_decide_eq_false_2. }
  rewrite (sendToClient_undeliverable k m s Hd). split_and!; try done.
  intros ws m' ([k' q] & _ & Hdel)%list_elem_of_omap. simpl in Hdel.
  destruct (JsMap.get k' (clients s)) as [c|] eqn:Hc; [|done].
  destruct q as [|m0 q]; [done|].
  destruct (isOpen (Client.ws c) s) eqn:Ho; [|done].
  injection Hdel as -> _ _. unfold deliverable in Hd.
  rewrite Hc in Hd. congruence.
Qed.

(** Cat's socket starts closing: a frame sent to "c" afterwards is
    dropped. *)
Lemma low_priority_send_unreachable_witness :
  let s :=
    wsClose 2 (run (opJoins ++ catJoins) init) in
  sendToClient "c" (videoFrame "F" "b") s = s ∧
  sendToClient "zz" (videoFrame "F" "b") s = s.
Proof.
  intros s. split.
  - apply (low_priority_send_unreachable "c" (videoFrame "F" "b") s).
    right. eexists. split; [reflexivity|]. vm_compute. discriminate.
  - apply (low_priority_send_unreachable "zz" (videoFrame "F" "b") s).
    left. reflexivity.
Defined.

(** * Further properties *)

(** ** Sockets *)

Lemma handleMessage_sockets ws data o s :
  (∀ username userType, data ≠ join username userType) →
  sockets (handleMessage ws data o s) = sockets s.
Proof.
  intros Hj.
  destruct data; simpl; [by destruct (Hj username userType)|..|done];
    unfold handleSelectUser, handleChatMessage, handleEndChat,
      handleStartVideoStream, handleStopVideoStream, handleVideoFrame;
    cbv zeta; repeat case_match; frame; congruence.
Qed.

Lemma handleDisconnect_sockets clientId s :
  sockets (handleDisconnect clientId s) = sockets s.
Proof.
  unfold handleDisconnect. cbv zeta. repeat case_match; frame; try done.
  rewrite (frame_foldl sockets) by (intros; apply resetPosition_core).
  frame.
  by rewrite (frame_foldl sockets) by (intros; apply endChatOf_core).
Qed.

Lemma handleDisconnect_clients cid s :
  clients (handleDisconnect (Some cid) s) = clients s ∨
  clients (handleDisconnect (Some cid) s) = JsMap.delete cid (clients s).
Proof.
  unfold handleDisconnect. cbv zeta. repeat case_match; frame; auto.
  right.
  rewrite (frame_foldl clients) by (intros; apply resetPosition_core).
  frame.
  by rewrite (frame_foldl clients) by (intros; apply endChatOf_core).
Qed.

Lemma handleJoin_clients ws username userType newId s :
  clients (handleJoin ws username userType newId s)
  = JsMap.set newId (Client.mk newId ws username userType) (clients s).
Proof.
  unfold handleJoin, wsClose. cbv zeta. repeat case_match; by frame.
Qed.

Lemma handleJoin_closure ws username userType newId s ws' :
  closureClientId ws' (handleJoin ws username userType newId s)
  = if decide (ws' = ws) then (sockets s !! ws) ≫= λ _, Some newId
    else closureClientId ws' s.
Proof.
  unfold closureClientId.
  assert (∀ x : state,
            sockets x = alter (setClientId newId) ws (sockets s) ∨
            sockets x = alter closing ws
                          (alter (setClientId newId) ws (sockets s)) →
            sockets x !! ws' ≫= Socket.clientId
            = if decide (ws' = ws) then (sockets s !! ws) ≫= λ _, Some newId
              else sockets s !! ws' ≫= Socket.clientId) as Hx.
  { intros x Hx. destruct (decide (ws' = ws)) as [->|Hne].
    - destruct Hx as [-> | ->]; rewrite ?lookup_alter_eq;
        destruct (sockets s !! ws) as [[[] ?]|]; done.
    - destruct Hx as [-> | ->]; by rewrite ?lookup_alter_ne by done. }
  apply Hx. unfold handleJoin, wsClose. cbv zeta.
  repeat case_match; frame; auto.
Qed.

Lemma handleJoin_readyState ws username userType newId s ws' :
  readyStateOf ws' (handleJoin ws username userType newId s) ≠ CLOSED →
  readyStateOf ws' s ≠ CLOSED.
Proof.
  unfold readyStateOf.
  assert (∀ x : state,
            sockets x = alter (setClientId newId) ws (sockets s) ∨
            sockets x = alter closing ws
                          (alter (setClientId newId) ws (sockets s)) →
            match sockets x !! ws' with
            | Some k => Socket.readyState k | None => CLOSED end ≠ CLOSED →
            match sockets s !! ws' with
            | Some k => Socket.readyState k | None => CLOSED end ≠ CLOSED)
    as Hx.
  { intros x Hx. destruct (decide (ws' = ws)) as [->|Hne].
    - destruct Hx as [-> | ->]; rewrite ?lookup_alter_eq;
        destruct (sockets s !! ws) as [[[] ?]|]; done.
    - destruct Hx as [-> | ->]; by rewrite ?lookup_alter_ne by done. }
  apply Hx. unfold handleJoin, wsClose. cbv zeta.
  repeat case_match; frame; auto.
Qed.

Lemma enabled_live ws data o s :
  enabled (onMessage ws data o) s = true →
  is_Some (sockets s !! ws) ∧ readyStateOf ws s ≠ CLOSED.
Proof.
  simpl. intros [H _]%andb_true_iff. by apply bool_decide_eq_true in H.
Qed.

Lemma enabled_join_fresh ws username userType o s :
  enabled (onMessage ws (join username userType) o) s = true →
  generateId o ≠ "" ∧ JsMap.get (generateId o) (clients s) = None.
Proof.
  simpl. intros [_ [H1 H2]%andb_true_iff]%andb_true_iff.
  apply bool_decide_eq_true in H1. by apply negb_true_iff, has_false in H2.
Qed.

Lemma join_or_not data :
  (∃ u t, data = join u t) ∨ (∀ u t, data ≠ join u t).
Proof. destruct data; eauto. Qed.

(** ** Live connections are registered *)

Lemma step_closures_registered e s :
  enabled e s = true → closures_registered s → closures_registered (step e s).
Proof.
  intros He Hs. destruct e as [ws|ws data o|ws|]; cbn [step].
  - intros ws' k. unfold readyStateOf, closureClientId. simpl.
    apply bool_decide_eq_true in He.
    destruct (decide (ws' = ws)) as [->|Hne].
    + by rewrite lookup_insert_eq.
    + rewrite !lookup_insert_ne by done. apply Hs.
  - destruct (join_or_not data) as [(u & t & ->)|Hj].
    + cbn [handleMessage]. intros ws' k Hlive.
      apply handleJoin_readyState in Hlive.
      rewrite handleJoin_closure, handleJoin_clients.
      destruct (enabled_join_fresh _ _ _ _ _ He) as [_ Hfresh].
      destruct (decide (ws' = ws)) as [->|Hne].
      * destruct (sockets s !! ws); [|done]. intros [= <-].
        eexists. by rewrite get_set_eq.
      * intros Hk. destruct (Hs ws' k Hlive Hk) as (c & Hc & Hws).
        exists c. split; [|done]. rewrite get_set_ne; [done|].
        intros Heq. rewrite Heq in Hfresh. congruence.
    + pose proof (handleMessage_registry ws data o s Hj) as [= Hc _].
      pose proof (handleMessage_sockets ws data o s Hj) as Hso.
      intros ws' k. unfold readyStateOf, closureClientId.
      rewrite Hc, Hso. apply Hs.
  - apply bool_decide_eq_true in He as [_ Hlive].
    set (s0 := set_sockets (alter closed ws) s).
    assert (∀ k c, JsMap.get k (clients s) = Some c →
                   closureClientId ws s ≠ Some k →
                   JsMap.get k (clients (handleDisconnect
                                           (closureClientId ws s) s0))
                   = Some c) as Hkeep.
    { intros k c Hc Hk. destruct (closureClientId ws s) as [cid|]; [|exact Hc].
      destruct (handleDisconnect_clients cid s0) as [-> | ->]; [exact Hc|].
      rewrite get_delete_ne; [exact Hc|]. congruence. }
    intros ws' k Hlive' Hk.
    assert (ws' ≠ ws ∧ readyStateOf ws' s ≠ CLOSED ∧
            closureClientId ws' s = Some k) as (Hne & Hl & Hcl).
    { revert Hlive' Hk. unfold readyStateOf, closureClientId.
      rewrite handleDisconnect_sockets. unfold s0. simpl.
      destruct (decide (ws' = ws)) as [->|Hne].
      - rewrite lookup_alter_eq. by destruct (sockets s !! ws).
      - by rewrite lookup_alter_ne by done. }
    destruct (Hs ws' k Hl Hcl) as (c & Hc & Hws).
    exists c. split; [|done]. apply Hkeep; [done|]. intros Hcid.
    destruct (Hs ws k Hlive Hcid) as (c' & Hc' & Hws'). congruence.
  - intros ws' k. unfold readyStateOf, closureClientId. frame. apply Hs.
Qed.

Lemma reachable_closures_registered s : reachable s → closures_registered s.
Proof.
  induction 1 as [|e s _ IH He]; [|by apply step_closures_registered].
  intros ws k. unfold readyStateOf. simpl. by rewrite lookup_empty.
Qed.

(** ** The registry is keyed by identifier *)

Lemma step_registry_keyed e s :
  enabled e s = true → registry_keyed s → registry_keyed (step e s).
Proof.
  intros He Hs. destruct e as [ws|ws data o|ws|]; cbn [step].
  - exact Hs.
  - destruct (join_or_not data) as [(u & t & ->)|Hj].
    + cbn [handleMessage]. intros k c. rewrite handleJoin_clients.
      destruct (enabled_join_fresh _ _ _ _ _ He) as [Hne _].
      destruct (decide (generateId o = k)) as [<-|Hk].
      * rewrite get_set_eq. by intros [= <-].
      * rewrite get_set_ne by done. apply Hs.
    + pose proof (handleMessage_registry ws data o s Hj) as [= Hc _].
      intros k c. rewrite Hc. apply Hs.
  - destruct (closureClientId ws s) as [cid|]; [|exact Hs].
    intros k c.
    destruct (handleDisconnect_clients cid (set_sockets (alter closed ws) s))
      as [-> | ->]; [apply Hs|].
    intros [_ Hk]%get_delete_Some. by apply Hs.
  - intros k c. frame. apply Hs.
Qed.

Lemma reachable_registry_keyed s : reachable s → registry_keyed s.
Proof.
  induction 1 as [|e s _ IH He]; [done|]. by apply step_registry_keyed.
Qed.

(** ** Predicates on the lanes

    A predicate that looks at the registry, the sockets and the lanes
    only, and that [sendToClient] keeps, is kept by every operation that
    leaves the registry and the sockets alone. *)

Section lanes.
Variable P : state → Prop.
Hypothesis P_ext : ∀ s s',
  clients s = clients s' → sockets s = sockets s' →
  messageQueues s = messageQueues s' → P s → P s'.
Hypothesis P_send : ∀ k m s, P s → P (sendToClient k m s).

Ltac lanes_step :=
  match goal with
  | H : P ?s |- P ?s => exact H
  | |- P (sendToClient _ _ _) => apply P_send
  | |- P (sendToClient' ?k _ _) => destruct k; cbn [sendToClient']
  | |- P (set_adminClient ?f ?s) => apply (P_ext s); [done..|]
  | |- P (set_userQueue ?f ?s) => apply (P_ext s); [done..|]
  | |- P (set_activeChats ?f ?s) => apply (P_ext s); [done..|]
  | |- P (set_chatHistory ?f ?s) => apply (P_ext s); [done..|]
  | |- P (set_wire ?f ?s) => apply (P_ext s); [done..|]
  | |- P (wsSend ?ws ?m ?s) => apply (P_ext s); [done..|]
  | |- P (foldl _ _ _) => apply foldl_invariant; [intros|]
  | |- P (forEach _ _ _ _) => apply forEach_invariant; [intros|]
  | |- P (match ?x with _ => _ end) => destruct x eqn:?
  end.

Ltac lanes := cbv zeta; repeat lanes_step.

Lemma lanes_updateQueue s : P s → P (updateQueue s).
Proof. intros. unfold updateQueue. lanes. Qed.

Lemma lanes_updateUserList s : P s → P (updateUserList s).
Proof. intros. unfold updateUserList. lanes. Qed.

Lemma lanes_handleMessage ws data o s :
  (∀ username userType, data ≠ join username userType) →
  P s → P (handleMessage ws data o s).
Proof.
  intros Hj Hs.
  destruct data; simpl; [by destruct (Hj username userType)|..|done];
    unfold handleSelectUser, handleChatMessage, handleEndChat,
      handleStartVideoStream, handleStopVideoStream, handleVideoFrame;
    repeat first [apply lanes_updateUserList | apply lanes_updateQueue
                 | progress lanes].
Qed.

Lemma lanes_handleDisconnect cid c s :
  cid ≠ "" → JsMap.get cid (clients s) = Some c →
  P (set_messageQueues (JsMap.delete cid) s) →
  ∃ x, handleDisconnect (Some cid) s = set_clients (JsMap.delete cid) x ∧
       P x.
Proof.
  intros Hcid Hc Hs. unfold handleDisconnect. cbv zeta. cbn [truthy].
  rewrite bool_decide_eq_true_2 by done. rewrite Hc.
  eexists. split; [reflexivity|].
  unfold endChatOf, resetPosition.
  repeat first [apply lanes_updateUserList | apply lanes_updateQueue
               | progress lanes].
Qed.

Lemma lanes_processMessageQueues s :
  (∀ k s, P s → P (flushQueue k s)) → P s → P (processMessageQueues s).
Proof. intros Hf Hs. unfold processMessageQueues. lanes. by apply Hf. Qed.
End lanes.

(** ** Lanes belong to registered connections *)

Lemma lanes_ok_ext s s' :
  clients s = clients s' → sockets s = sockets s' →
  messageQueues s = messageQueues s' → lanes_ok s → lanes_ok s'.
Proof. unfold lanes_ok, pending. intros <- _ <-. done. Qed.

Lemma sendToClient_lanes_ok k m s : lanes_ok s → lanes_ok (sendToClient k m s).
Proof.
  intros Hs k' q. rewrite (frame_sendToClient clients).
  destruct (decide (k = k')) as [<-|Hne];
    [|rewrite sendToClient_pending_ne by done; apply Hs].
  specialize (Hs k). revert q Hs. unfold pending, sendToClient.
  destruct (JsMap.get k (clients s)) as [c|] eqn:Hc; [|intros q Hs; apply Hs].
  destruct (isOpen _ _); [|intros q Hs; apply Hs].
  destruct (bool_decide _) eqn:Hp; [intros q Hs; apply Hs|].
  apply bool_decide_eq_false in Hp. intros q Hs.
  destruct (JsMap.has k (messageQueues s)) eqn:Hhas; simpl.
  - apply has_true in Hhas as [q0 Hq0]. rewrite Hq0. simpl.
    rewrite get_set_eq. intros [= <-]. split; [by eexists|].
    destruct (Hs q0 Hq0) as [_ Hall].
    apply Forall_app_2; [|by repeat constructor].
    case_bool_decide; [|done]. unfold shift. destruct q0; [done|].
    by apply Forall_cons in Hall as [_ ?].
  - rewrite !get_set_eq. simpl. intros [= <-]. split; [by eexists|].
    by repeat constructor.
Qed.

Lemma flushQueue_lanes_ok k s : lanes_ok s → lanes_ok (flushQueue k s).
Proof.
  intros Hs k' q. rewrite (core_field (proj := clients) _ _ (flushQueue_core k s)).
  destruct (decide (k = k')) as [<-|Hne];
    [|rewrite flushQueue_pending_ne by done; apply Hs].
  rewrite flushQueue_pending_eq.
  destruct (deliverable k s); [|apply Hs].
  destruct (pending k s) as [q0|] eqn:Hq0; [|done]. simpl. intros [= <-].
  destruct (Hs k q0 Hq0) as [Hreg Hall]. split; [done|].
  destruct q0; [done|]. by apply Forall_cons in Hall as [_ ?].
Qed.

Lemma lanes_closing_ext cid s0 s s' :
  clients s = clients s' → sockets s = sockets s' →
  messageQueues s = messageQueues s' →
  lanes_closing cid s0 s → lanes_closing cid s0 s'.
Proof.
  intros Hc Hso Hm (? & ? & ? & ?). split_and!.
  - congruence.
  - congruence.
  - unfold pending in *. congruence.
  - by eapply lanes_ok_ext.
Qed.

Lemma sendToClient_lanes_closing cid s0 k m s :
  deliverable cid s0 = false →
  lanes_closing cid s0 s → lanes_closing cid s0 (sendToClient k m s).
Proof.
  intros Hd (Hc & Hso & Hp & Hok).
  destruct (decide (k = cid)) as [->|Hne].
  - rewrite sendToClient_undeliverable; [done|].
    unfold deliverable, isOpen, readyStateOf in *. by rewrite Hc, Hso.
  - split_and!.
    + by rewrite (frame_sendToClient clients).
    + by rewrite (frame_sendToClient sockets).
    + by rewrite sendToClient_pending_ne.
    + by apply sendToClient_lanes_ok.
Qed.

Lemma handleJoin_lanes_ok ws username userType newId s :
  lanes_ok s → lanes_ok (handleJoin ws username userType newId s).
Proof.
  intros Hs.
  assert (lanes_ok
            (set_clients
               (JsMap.set newId (Client.mk newId ws username userType))
               (set_sockets (alter (setClientId newId) ws) s))) as Hreg.
  { intros k q Hq. destruct (Hs k q Hq) as [[c Hc] Hall]. split; [|done].
    simpl. destruct (decide (newId = k)) as [<-|Hne].
    - rewrite get_set_eq. by eexists.
    - rewrite get_set_ne by done. by eexists. }
  pose proof (lanes_updateUserList lanes_ok sendToClient_lanes_ok) as Hul.
  pose proof (lanes_updateQueue lanes_ok sendToClient_lanes_ok) as Huq.
  unfold handleJoin. cbv zeta.
  repeat case_match; repeat first [apply Hul | apply Huq]; exact Hreg.
Qed.

Lemma step_lanes_ok e s :
  enabled e s = true → closures_registered s → lanes_ok s →
  lanes_ok (step e s).
Proof.
  intros He Hcl Hs. destruct e as [ws|ws data o|ws|]; cbn [step].
  - exact Hs.
  - destruct (join_or_not data) as [(u & t & ->)|Hj].
    + by apply handleJoin_lanes_ok.
    + by apply (lanes_handleMessage lanes_ok lanes_ok_ext
                  sendToClient_lanes_ok).
  - apply bool_decide_eq_true in He as [_ Hlive].
    set (s0 := set_sockets (alter closed ws) s).
    assert (lanes_ok s0) as Hs0 by exact Hs.
    destruct (closureClientId ws s) as [cid|] eqn:Hcid; [|exact Hs0].
    destruct (Hcl ws cid Hlive Hcid) as (c & Hc & Hws).
    destruct (decide (cid = "")) as [->|Hne]; [exact Hs0|].
    assert (deliverable cid s0 = false) as Hd.
    { unfold deliverable, isOpen, readyStateOf, s0. simpl. rewrite Hc, Hws.
      rewrite lookup_alter_eq. by destruct (sockets s !! ws). }
    destruct (lanes_handleDisconnect (lanes_closing cid s0)
                (lanes_closing_ext cid s0)
                (λ k m x, sendToClient_lanes_closing cid s0 k m x Hd)
                cid c s0 Hne Hc) as (x & -> & Hx).
    { split_and!; try done.
      - unfold pending. simpl. apply get_delete_eq.
      - intros k q [_ Hq]%get_delete_Some. by apply Hs0. }
    destruct Hx as (Hxc & _ & Hxp & Hxok). intros k q Hq.
    change (pending k x = Some q) in Hq.
    destruct (Hxok k q Hq) as [[ck Hck] Hall]. split; [|done]. simpl.
    exists ck. rewrite get_delete_ne; [done|]. intros ->. congruence.
  - apply (lanes_processMessageQueues lanes_ok); [|done].
    intros. by apply flushQueue_lanes_ok.
Qed.

Lemma reachable_lanes_ok s : reachable s → lanes_ok s.
Proof.
  induction 1 as [|e s Hr IH He]; [done|].
  apply step_lanes_ok; [done| |done]. by apply reachable_closures_registered.
Qed.

(** ** Entries that no connection owns *)

Lemma step_orphan e s k c :
  enabled e s = true →
  orphan k s → JsMap.get k (clients s) = Some c →
  orphan k (step e s) ∧ JsMap.get k (clients (step e s)) = Some c.
Proof.
  intros He Ho Hk. destruct e as [ws|ws data o|ws|]; cbn [step].
  - split; [|done]. intros ws'. unfold readyStateOf, closureClientId. simpl.
    destruct (decide (ws' = ws)) as [->|Hne].
    + by rewrite lookup_insert_eq.
    + rewrite !lookup_insert_ne by done. apply Ho.
  - destruct (join_or_not data) as [(u & t & ->)|Hj].
    + cbn [handleMessage].
      destruct (enabled_join_fresh _ _ _ _ _ He) as [_ Hfresh].
      assert (generateId o ≠ k) as Hne by (intros Heq; congruence).
      split.
      * intros ws' Hlive%handleJoin_readyState. rewrite handleJoin_closure.
        destruct (decide (ws' = ws)) as [->|Hws]; [|by apply Ho].
        destruct (sockets s !! ws); [|done]. simpl. congruence.
      * rewrite handleJoin_clients. by rewrite get_set_ne.
    + pose proof (handleMessage_registry ws data o s Hj) as [= Hc _].
      pose proof (handleMessage_sockets ws data o s Hj) as Hso.
      split; [|by rewrite Hc]. intros ws'.
      unfold readyStateOf, closureClientId. rewrite Hso. apply Ho.
  - apply bool_decide_eq_true in He as [_ Hlive].
    set (s0 := set_sockets (alter closed ws) s). split.
    + intros ws'. unfold readyStateOf, closureClientId.
      rewrite handleDisconnect_sockets. unfold s0. simpl.
      destruct (decide (ws' = ws)) as [->|Hne].
      * rewrite lookup_alter_eq. by destruct (sockets s !! ws).
      * rewrite lookup_alter_ne by done. apply Ho.
    + specialize (Ho ws Hlive).
      destruct (closureClientId ws s) as [cid|]; [|exact Hk].
      destruct (handleDisconnect_clients cid s0) as [-> | ->]; [exact Hk|].
      rewrite get_delete_ne; [exact Hk|]. congruence.
  - split; [|by frame]. intros ws'. unfold readyStateOf, closureClientId.
    frame. apply Ho.
Qed.

Lemma run_orphan es s k c :
  admissible es s = true →
  orphan k s → JsMap.get k (clients s) = Some c →
  JsMap.get k (clients (run es s)) = Some c.
Proof.
  revert s. induction es as [|e es IH]; intros s; simpl; [done|].
  intros [He Hes]%andb_true_iff Ho Hk.
  destruct (step_orphan e s k c He Ho Hk) as [Ho' Hk']. by apply IH.
Qed.

(** ** The tick drains the lanes *)

Lemma flushQueue_idle k s :
  (deliverable k s = true → ∀ m q, pending k s ≠ Some (m :: q)) →
  flushQueue k s = s.
Proof.
  unfold deliverable, pending, flushQueue. intros H.
  destruct (JsMap.get k (clients s)) as [c|]; [|done].
  destruct (JsMap.get k (messageQueues s)) as [[|m q]|]; try done.
  destruct (isOpen _ _); [|done]. by destruct (H eq_refl m q).
Qed.

Lemma foldl_flushQueue_idle l s :
  (∀ k, deliverable k s = true → ∀ m q, pending k s ≠ Some (m :: q)) →
  foldl (λ s k, flushQueue k s) s l = s.
Proof.
  intros H. induction l as [|k l IH]; simpl; [done|].
  by rewrite flushQueue_idle by apply H.
Qed.

Lemma processMessageQueues_drained s k m q :
  queues_wf s → deliverable k (processMessageQueues s) = true →
  pending k (processMessageQueues s) ≠ Some (m :: q).
Proof.
  intros Hwf. rewrite (frame_processMessageQueues (deliverable k)).
  intros Hd. rewrite processMessageQueues_pending by apply Hwf. rewrite Hd.
  destruct (pending k s) as [q0|] eqn:Hq0; [|done]. simpl.
  pose proof (queues_wf_bound k q0 s Hwf Hq0).
  destruct q0 as [|? [|]]; simpl in *; try done. lia.
Qed.

(** ** Counting *)

Lemma buffered_le (l : list (string * list Message)) :
  Forall (λ p, length p.2 ≤ 1) l → length (mjoin l.*2) ≤ length l.
Proof.
  induction 1 as [|[k q] l Hq _ IH]; csimpl; [done|].
  rewrite length_app. simpl in Hq. lia.
Qed.

(** X1.  In every reachable state, a connection that has joined and
    whose [close] event has not been handled yet is in the registry
    under the identifier of its last join; the entry holds the socket of
    the connection and carries its own key, which is not empty. *)
Theorem live_connection_registered s ws k :
  reachable s →
  readyStateOf ws s ≠ CLOSED → closureClientId ws s = Some k →
  ∃ c, JsMap.get k (clients s) = Some c ∧
       Client.ws c = ws ∧ Client.id c = k ∧ k ≠ "".
Proof.
  intros Hs Hlive Hk.
  destruct (reachable_closures_registered s Hs ws k Hlive Hk) as (c & Hc & Hws).
  destruct (reachable_registry_keyed s Hs k c Hc) as [Hid Hne].
  by exists c.
Qed.

(** Bob has joined on socket 1 and the refused operator Eve's socket 3
    is closing. *)
Lemma live_connection_registered_witness :
  let s :=
    run (opJoins ++ bobJoins ++
         [onConnection 3;
          onMessage 3 (join "Eve" "admin") (mkOracle "x" "t3")]) init in
  (∃ c, JsMap.get "b" (clients s) = Some c ∧ Client.ws c = 1 ∧
        Client.id c = "b" ∧ "b" ≠ "") ∧
  (∃ c, JsMap.get "x" (clients s) = Some c ∧ Client.ws c = 3 ∧
        Client.id c = "x" ∧ "x" ≠ "").
Proof.
  intros s.
  assert (reachable s) as Hs
    by (apply reachable_run; [apply reachable_init|reflexivity]).
  split.
  - apply (live_connection_registered s 1 "b" Hs); [|reflexivity].
    vm_compute. discriminate.
  - apply (live_connection_registered s 3 "x" Hs); [|reflexivity].
    vm_compute. discriminate.
Defined.

(** X2.  A connection that joins again is registered under a new
    identifier and its closure forgets the old one: the entry of the
    old identifier stays in the registry through every later run,
    whatever the events, the [close] of the connection included. *)
Theorem rejoin_leaves_entry_behind s ws old username userType o :
  reachable s →
  closureClientId ws s = Some old →
  enabled (onMessage ws (join username userType) o) s = true →
  let s1 := step (onMessage ws (join username userType) o) s in
  ∃ c, JsMap.get old (clients s) = Some c ∧ Client.ws c = ws ∧
       closureClientId ws s1 = Some (generateId o) ∧
       generateId o ≠ old ∧
       ∀ es, admissible es s1 = true →
             JsMap.get old (clients (run es s1)) = Some c.
Proof.
  intros Hs Hold He s1.
  destruct (enabled_live _ _ _ _ He) as [[sock Hsock] Hlive].
  destruct (enabled_join_fresh _ _ _ _ _ He) as [_ Hfresh].
  destruct (reachable_closures_registered s Hs ws old Hlive Hold)
    as (c & Hc & Hws).
  assert (generateId o ≠ old) as Hne by (intros Heq; congruence).
  assert (closureClientId ws s1 = Some (generateId o)) as Hnew.
  { unfold s1. cbn [step handleMessage]. rewrite handleJoin_closure.
    rewrite decide_True by done. by rewrite Hsock. }
  exists c. split_and!; try done.
  intros es Hes. apply run_orphan; [done| |].
  - intros ws' Hlive'. unfold s1 in *. cbn [step handleMessage] in *.
    apply handleJoin_readyState in Hlive'. rewrite handleJoin_closure.
    destruct (decide (ws' = ws)) as [->|Hws'].
    + rewrite Hsock. simpl. congruence.
    + intros Hcl.
      destruct (reachable_closures_registered s Hs ws' old Hlive' Hcl)
        as (c' & Hc' & Hws''). congruence.
  - unfold s1. cbn [step handleMessage]. rewrite handleJoin_clients.
    by rewrite get_set_ne.
Qed.

(** Bob joins a second time on his socket and disconnects: the entry
    "b" of his first join is still in the registry. *)
Lemma rejoin_leaves_entry_behind_witness :
  let s := run (opJoins ++ bobJoins) init in
  let rejoin := onMessage 1 (join "Bob" "user") (mkOracle "b2" "t2") in
  reachable s ∧
  JsMap.get "b" (clients (run [onClose 1; tick] (step rejoin s)))
  = Some (Client.mk "b" 1 "Bob" "user").
Proof.
  intros s rejoin.
  assert (reachable s) as Hs
    by (apply reachable_run; [apply reachable_init|reflexivity]).
  split; [exact Hs|].
  destruct (rejoin_leaves_entry_behind s 1 "b" "Bob" "user"
              (mkOracle "b2" "t2") Hs)
    as (c & Hc & _ & _ & _ & Hrun); [reflexivity..|].
  unfold rejoin. rewrite (Hrun [onClose 1; tick]) by reflexivity.
  rewrite <-Hc. reflexivity.
Defined.

(** X3.  In every reachable state each lane belongs to a registered
    connection, holds at most one message and no chat message, so the
    broker never buffers more messages than it has registry entries. *)
Theorem lanes_bounded_by_registry s :
  reachable s →
  (∀ k q, pending k s = Some q →
          is_Some (JsMap.get k (clients s)) ∧ length q ≤ 1 ∧
          Forall (λ m, priority m ≠ Some true) q) ∧
  buffered s ≤ length (messageQueues s) ∧
  length (messageQueues s) ≤ length (clients s).
Proof.
  intros Hs. pose proof (reachable_wf s Hs) as Hwf.
  pose proof (reachable_lanes_ok s Hs) as Hok. split_and!.
  - intros k q Hq. destruct (Hok k q Hq) as [Hreg Hlow].
    split_and!; [done| |done]. by eapply queues_wf_bound.
  - unfold buffered, JsMap.values. apply buffered_le, Hwf.
  - rewrite <-(length_fmap fst (messageQueues s)).
    rewrite <-(length_fmap fst (clients s)).
    apply submseteq_length, NoDup_submseteq; [apply Hwf|].
    intros k Hk.
    destruct (JsMap.get k (messageQueues s)) as [q|] eqn:Hq.
    + destruct (Hok k q Hq) as [[c Hc] _]. by eapply get_Some_keys.
    + by apply get_None_keys in Hq.
Qed.

(** The operator, Bob and Cat are registered; the roster waits in the
    operator's lane and the positions in Bob's and Cat's. *)
Lemma lanes_bounded_by_registry_witness :
  let s := run (opJoins ++ bobJoins ++ catJoins) init in
  buffered s = 3 ∧ buffered s ≤ length (clients s).
Proof.
  intros s. split; [reflexivity|].
  assert (reachable s) as Hs
    by (apply reachable_run; [apply reachable_init|reflexivity]).
  destruct (lanes_bounded_by_registry s Hs) as (_ & H1 & H2). lia.
Defined.

(** X4.  A tick drains every lane that it can deliver: in every
    reachable state a second tick right after a tick finds nothing to
    send and changes nothing. *)
Theorem tick_idempotent s :
  reachable s →
  tickDeliveries (step tick s) = [] ∧
  step tick (step tick s) = step tick s.
Proof.
  intros Hwf%reachable_wf. cbn [step].
  set (s1 := processMessageQueues s).
  assert (∀ k, deliverable k s1 = true → ∀ m q, pending k s1 ≠ Some (m :: q))
    as Hidle by (intros; by apply processMessageQueues_drained).
  split.
  - destruct (tickDeliveries s1) as [|[[k w] m] l] eqn:Hd; [done|].
    assert ((k, w, m) ∈ tickDeliveries s1) as Hin by (rewrite Hd; left).
    apply tickDeliveries_elem in Hin as (c & q & Hc & -> & Ho & Hp);
      [|by apply processMessageQueues_wf].
    destruct (Hidle k) with m q; [|done]. unfold deliverable.
    by rewrite Hc.
  - unfold processMessageQueues at 1. by apply foldl_flushQueue_idle.
Qed.

(** After the operator and Bob have joined, the first tick sends the
    roster and Bob's position, the second sends nothing. *)
Lemma tick_idempotent_witness :
  let s := run (opJoins ++ bobJoins) init in
  length (wire (step tick s)) = length (wire s) + 2 ∧
  step tick (step tick s) = step tick s.
Proof.
  intros s. split; [reflexivity|].
  apply (tick_idempotent s).
  apply reachable_run; [apply reachable_init|reflexivity].
Defined.

(** ** What the handlers hand to the transport *)

Lemma handleJoin_wire ws username userType newId s :
  wire (handleJoin ws username userType newId s)
  = wire s ++ send ws (welcome newId) :: joinReply ws userType s.
Proof.
  unfold handleJoin, joinReply, wsClose. cbv zeta.
  destruct (decide (userType = "admin")); frame;
    destruct (adminClient s); simpl;
    rewrite ?updateUserList_wire, ?updateQueue_wire; simpl;
    by rewrite <-?app_assoc.
Qed.

Lemma sendToClient'_wire k m s :
  priority m ≠ Some true → wire (sendToClient' k m s) = wire s.
Proof. destruct k; [apply sendToClient_low_wire|done]. Qed.

Ltac wires :=
  repeat first
    [ rewrite updateUserList_wire
    | rewrite updateQueue_wire
    | rewrite sendToClient'_wire by done
    | rewrite sendToClient_low_wire by done
    | rewrite foldl_wire by (intros; apply resetPosition_wire)
    | rewrite foldl_wire by (intros; apply endChatOf_wire)
    | progress cbn [wire set_clients set_adminClient set_userQueue
                    set_activeChats set_chatHistory set_sockets
                    set_messageQueues] ].

Lemma handleSelectUser_wire ws userId s :
  wire (handleSelectUser ws userId s) = wire s.
Proof.
  unfold handleSelectUser. cbv zeta.
  repeat case_match; by wires.
Qed.

Lemma handleEndChat_wire ws userId s :
  wire (handleEndChat ws userId s) = wire s.
Proof.
  unfold handleEndChat. cbv zeta.
  repeat case_match; by wires.
Qed.

Lemma handleVideo_wire ws userId frame s :
  wire (handleStartVideoStream ws userId s) = wire s ∧
  wire (handleStopVideoStream ws userId s) = wire s ∧
  wire (handleVideoFrame ws userId frame s) = wire s.
Proof.
  unfold handleStartVideoStream, handleStopVideoStream, handleVideoFrame.
  split_and!; repeat case_match; by wires.
Qed.

Lemma handleDisconnect_wire clientId s :
  wire (handleDisconnect clientId s) = wire s.
Proof.
  unfold handleDisconnect. cbv zeta.
  repeat case_match; by wires.
Qed.

(** A chat message is stored under the key of the two connections and,
    when the socket of the recipient is open, sent at once. *)
Lemma handleChatMessage_relay ws sender to rcpt text now cid s :
  closureClientId ws s = Some cid →
  JsMap.get cid (clients s) = Some sender →
  JsMap.get to (clients s) = Some rcpt →
  let s' := handleChatMessage ws (Some to) text now s in
  wire s'
  = wire s ++
    (if isOpen (Client.ws rcpt) s
     then [send (Client.ws rcpt)
             (chatMessage (Client.username sender) text now)]
     else []) ∧
  messageQueues s' = messageQueues s.
Proof.
  intros Hcid Hs Ht. unfold handleChatMessage. rewrite Hcid, Hs, Ht.
  cbv zeta.
  match goal with
  | |- context [sendToClient to _ ?x] => set (s2 := x)
  end.
  assert (clients s2 = clients s ∧ sockets s2 = sockets s ∧
          wire s2 = wire s ∧ messageQueues s2 = messageQueues s)
    as (Hc2 & Hso2 & Hw2 & Hm2).
  { unfold s2. simpl. by destruct (JsMap.has _ (chatHistory s)). }
  unfold sendToClient. rewrite Hc2, Ht.
  replace (isOpen (Client.ws rcpt) s2) with (isOpen (Client.ws rcpt) s)
    by (unfold isOpen, readyStateOf; by rewrite Hso2).
  destruct (isOpen (Client.ws rcpt) s); [|by rewrite app_nil_r].
  rewrite bool_decide_eq_true_2 by done.
  unfold wsSend, stringify. cbn [wire messageQueues set_wire].
  by rewrite Hw2, Hm2.
Qed.

Lemma handleChatMessage_unsent ws to text now s :
  (closureClientId ws s = None ∨
   (∃ cid, closureClientId ws s = Some cid ∧
           JsMap.get cid (clients s) = None) ∨
   to = None ∨ (∃ k, to = Some k ∧ JsMap.get k (clients s) = None)) →
  handleChatMessage ws to text now s = s.
Proof.
  unfold handleChatMessage.
  intros [->|[(cid & -> & ->)|[->|(k & -> & Hk)]]];
    repeat case_match; try done; congruence.
Qed.

(** ** What an event adds to the log of the transport *)

Lemma joinReply_immediate ws userType s :
  Forall (λ c, immediate c = true) (joinReply ws userType s).
Proof.
  unfold joinReply. repeat case_match; by repeat constructor.
Qed.

Lemma stringify_priority s m : priority (stringify s m) = priority m.
Proof. by destruct m as [| | | |? []| | | | |]. Qed.

Lemma tick_deferred s :
  queues_wf s → lanes_ok s →
  Forall (λ c, deferred c = true) (toCall s <$> tickDeliveries s).
Proof.
  intros Hwf Hok. apply Forall_fmap, Forall_forall.
  intros [[k w] m] (c & q & _ & _ & _ & Hq)%tickDeliveries_elem;
    [|apply Hwf].
  destruct (Hok k _ Hq) as [_ [Hlow _]%Forall_cons]. simpl.
  apply bool_decide_eq_true. by rewrite stringify_priority.
Qed.

Lemma deferred_no_chat c ws f t ts :
  deferred c = true → c ≠ send ws (chatMessage f t ts).
Proof. by intros Hd ->. Qed.

Lemma step_wire e s :
  queues_wf s → lanes_ok s →
  ∃ l, wire (step e s) = wire s ++ l ∧
       Forall (λ c, (if e is tick then deferred c else immediate c) = true) l ∧
       Forall (recorded (step e s)) l.
Proof.
  intros Hwf Hok. destruct e as [ws|ws data o|ws|]; cbn [step].
  - exists []. by rewrite app_nil_r.
  - destruct data as [username userType|userId|to text|userId|userId
                     |userId|to frame|]; cbn [handleMessage].
    + eexists. split; [apply handleJoin_wire|]. split.
      * constructor; [done|apply joinReply_immediate].
      * apply Forall_forall. intros c Hc w f t ts ->.
        unfold joinReply in Hc.
        repeat case_match;
          repeat (apply elem_of_cons in Hc as [Hc|Hc]; [discriminate|]);
          by apply elem_of_nil in Hc.
    + exists []. by rewrite app_nil_r, handleSelectUser_wire.
    + destruct (closureClientId ws s) as [cid|] eqn:Hcid;
        [|exists []; rewrite app_nil_r, handleChatMessage_unsent; auto].
      destruct (JsMap.get cid (clients s)) as [sender|] eqn:Hsender;
        [|exists []; rewrite app_nil_r, handleChatMessage_unsent; eauto 6].
      destruct to as [to|];
        [|exists []; rewrite app_nil_r, handleChatMessage_unsent; auto].
      destruct (JsMap.get to (clients s)) as [rcpt|] eqn:Hrcpt;
        [|exists []; rewrite app_nil_r, handleChatMessage_unsent; eauto 8].
      destruct (handleChatMessage_relay ws sender to rcpt text (now o) cid s)
        as [Hw _]; [done..|].
      eexists. split; [exact Hw|].
      destruct (isOpen (Client.ws rcpt) s); [|done]. split.
      * by repeat constructor.
      * repeat constructor. intros w f t ts [= <- <- <- <-].
        rewrite (chat_appends ws sender to rcpt text (now o) cid s) by done.
        cbv zeta. eexists _, _. rewrite get_set_eq. split; [done|].
        apply elem_of_app. right. apply list_elem_of_here.
    + exists []. by rewrite app_nil_r, handleEndChat_wire.
    + exists []. rewrite app_nil_r.
      by destruct (handleVideo_wire ws userId "" s) as (-> & _ & _).
    + exists []. rewrite app_nil_r.
      by destruct (handleVideo_wire ws userId "" s) as (_ & -> & _).
    + exists []. rewrite app_nil_r.
      by destruct (handleVideo_wire ws to frame s) as (_ & _ & ->).
    + exists []. by rewrite app_nil_r.
  - exists []. by rewrite app_nil_r, handleDisconnect_wire.
  - eexists. split; [by apply processMessageQueues_wire, Hwf|].
    pose proof (tick_deferred s Hwf Hok) as Hd. split; [exact Hd|].
    eapply Forall_impl; [exact Hd|]. intros c Hc w f t ts Heq.
    by destruct (deferred_no_chat c w f t ts).
Qed.



(** X6.  Every chat message that the transport was ever asked to send
    is an entry of a history: the broker relays no chat message that it
    has not recorded, and no later event removes the record. *)
Theorem relayed_chat_recorded s ws from text timestamp :
  reachable s →
  send ws (chatMessage from text timestamp) ∈ wire s →
  ∃ key h, JsMap.get key (chatHistory s) = Some h ∧
           Entry.mk from text timestamp ∈ h.
Proof.
  intros Hs. revert ws from text timestamp.
  induction Hs as [|e s Hs IH He]; intros ws from text timestamp.
  - by intros ?%elem_of_nil.
  - destruct (step_wire e s (reachable_wf s Hs) (reachable_lanes_ok s Hs))
      as (l & -> & _ & Hrec).
    intros [Hold|Hnew]%elem_of_app.
    + destruct (IH _ _ _ _ Hold) as (key & h & Hkey & Hin).
      destruct (history_monotone e s key h Hkey) as (h' & Hkey').
      exists key, (h ++ h'). split; [done|]. apply elem_of_app. by left.
    + by apply (proj1 (Forall_forall _ _) Hrec _ Hnew ws).
Qed.

(** Bob writes to the operator and leaves: his message is still in the
    history "a-b". *)
Lemma relayed_chat_recorded_witness :
  let s :=
    run (opJoins ++ bobJoins ++
         [onMessage 1 (chat (Some "a") "hi") (mkOracle "" "t3"); onClose 1])
        init in
  send 0 (chatMessage "Bob" "hi" "t3") ∈ wire s ∧
  ∃ key h, JsMap.get key (chatHistory s) = Some h ∧
           Entry.mk "Bob" "hi" "t3" ∈ h.
Proof.
  intros s.
  assert (send 0 (chatMessage "Bob" "hi" "t3") ∈ wire s) as Hin.
  { vm_compute. do 2 apply list_elem_of_further. apply list_elem_of_here. }
  split; [exact Hin|].
  apply (relayed_chat_recorded s 0 "Bob" "hi" "t3"); [|exact Hin].
  apply reachable_run; [apply reachable_init|reflexivity].
Defined.

(** X7.  A chat message from a registered connection to a registered
    connection is appended to the history of the two (under the key
    that starts with the identifier of the side with role [admin]) and,
    if the socket of the recipient is open, sent on it at once; if it is
    not, the message is recorded and never sent.  The lanes, the
    registry, the queue and the pairings are left alone, and no pairing
    of the two is asked for. *)
Theorem chat_message_relay ws sender to rcpt text o cid s :
  closureClientId ws s = Some cid →
  JsMap.get cid (clients s) = Some sender →
  JsMap.get to (clients s) = Some rcpt →
  let s' := step (onMessage ws (chat (Some to) text) o) s in
  let key :=
    if decide (Client.type sender = "admin") then chatKey cid to
    else chatKey to cid in
  let entry := Entry.mk (Client.username sender) text (now o) in
  chatHistory s'
  = JsMap.set key (default [] (JsMap.get key (chatHistory s)) ++ [entry])
              (chatHistory s) ∧
  wire s'
  = wire s ++
    (if isOpen (Client.ws rcpt) s
     then [send (Client.ws rcpt)
             (chatMessage (Client.username sender) text (now o))]
     else []) ∧
  messageQueues s' = messageQueues s ∧
  registry s' = registry s ∧ userQueue s' = userQueue s ∧
  activeChats s' = activeChats s ∧ sockets s' = sockets s.
Proof.
  intros Hcid Hs Ht s' key entry. unfold s'. cbn [step handleMessage].
  destruct (handleChatMessage_relay ws sender to rcpt text (now o) cid s)
    as [Hw Hm]; [done..|].
  split_and!; try done.
  - by apply chat_appends with rcpt.
  - apply (handleMessage_registry ws (chat (Some to) text) o s). by intros.
  - unfold handleChatMessage. repeat case_match; by frame.
  - unfold handleChatMessage. repeat case_match; by frame.
  - apply (handleMessage_sockets ws (chat (Some to) text) o s). by intros.
Qed.

(** Cat, who waits in the queue and is paired with nobody, writes to
    Bob, whose socket is closing: the message is recorded under
    "b-c" and not sent. *)
Lemma chat_message_relay_witness :
  let s := wsClose 1 (run (opJoins ++ bobJoins ++ catJoins) init) in
  let s' := step (onMessage 2 (chat (Some "b") "hi") (mkOracle "" "t3")) s in
  chatHistory s' = [("b-c", [Entry.mk "Cat" "hi" "t3"])] ∧ wire s' = wire s.
Proof.
  intros s s'.
  destruct (chat_message_relay 2 (Client.mk "c" 2 "Cat" "user") "b"
              (Client.mk "b" 1 "Bob" "user") "hi" (mkOracle "" "t3") "c" s)
    as (Hh & Hw & _); [reflexivity..|].
  split; [exact Hh|]. etrans; [exact Hw|]. vm_compute. reflexivity.
Defined.

(** ** Messages of low priority *)

(** A message of low priority for a connection that can be reached
    takes the place of whatever its lane holds; the transport, the
    other lanes and the rest of the state are left alone. *)
Lemma sendToClient_low k m s :
  queues_wf s → deliverable k s = true → priority m ≠ Some true →
  let s' := sendToClient k m s in
  wire s' = wire s ∧ core s' = core s ∧ pending k s' = Some [m] ∧
  ∀ k', k' ≠ k → pending k' s' = pending k' s.
Proof.
  intros Hwf Hd Hlow s'. split_and!.
  - by apply sendToClient_low_wire.
  - apply sendToClient_core.
  - apply sendToClient_low_pending; [done..|]. intros q.
    by apply queues_wf_bound.
  - intros k' Hne. by apply sendToClient_pending_ne.
Qed.

Lemma tickDeliveries_pending k c m s :
  JsMap.get k (clients s) = Some c → isOpen (Client.ws c) s = true →
  pending k s = Some [m] → (k, Client.ws c, m) ∈ tickDeliveries s.
Proof.
  intros Hc Ho Hp. unfold tickDeliveries. apply list_elem_of_omap.
  exists (k, [m]). split; [by apply get_Some_elem|]. simpl. by rewrite Hc, Ho.
Qed.

Lemma updateUserList_roster a s :
  queues_wf s → adminClient s = Some a → deliverable (Client.id a) s = true →
  pending (Client.id a) (updateUserList s) = Some [userList (roster s)].
Proof.
  intros Hwf Ha Hd. unfold updateUserList. rewrite Ha.
  by apply sendToClient_low.
Qed.

(** The participant branch of [handleDisconnect]: the roster is computed
    before the entry of the connection is deleted. *)
Lemma handleDisconnect_user cid c s :
  cid ≠ "" → JsMap.get cid (clients s) = Some c → Client.type c ≠ "admin" →
  ∃ s3, handleDisconnect (Some cid) s
        = set_clients (JsMap.delete cid) (updateUserList s3) ∧
        clients s3 = clients s ∧ adminClient s3 = adminClient s ∧
        sockets s3 = sockets s ∧ (queues_wf s → queues_wf s3).
Proof.
  intros Hcid Hc Hty. unfold handleDisconnect. cbv zeta. cbn [truthy].
  rewrite bool_decide_eq_true_2 by done. rewrite Hc.
  rewrite decide_False by done. eexists. split; [reflexivity|].
  split_and!; try (repeat case_match; by frame).
  intros Hwf. wf; try apply updateQueue_wf; wf.
Qed.

(** X8.  A video frame is taken from a connection with role [user]
    only; a frame from any other connection, a frame without recipient
    and a frame for a connection that cannot be reached change nothing.
    Otherwise the frame, stamped with the identifier of the sender's
    closure, takes the place of whatever the lane of the recipient
    holds; nothing goes to the transport before the next tick, which
    hands the frame over.  The recipient need not be the sender's
    partner. *)
Theorem video_frame_lane ws to frame o s :
  reachable s →
  let s' := step (onMessage ws (frameFrom to frame) o) s in
  (senderRole ws s ≠ Some "user" ∨ to = None ∨ to = Some "" ∨
   (∃ k, to = Some k ∧ deliverable k s = false) → s' = s) ∧
  (∀ cid toId rcpt,
     closureClientId ws s = Some cid → senderRole ws s = Some "user" →
     to = Some toId → toId ≠ "" →
     JsMap.get toId (clients s) = Some rcpt →
     isOpen (Client.ws rcpt) s = true →
     wire s' = wire s ∧ core s' = core s ∧
     pending toId s' = Some [videoFrame frame cid] ∧
     (∀ k, k ≠ toId → pending k s' = pending k s) ∧
     (toId, Client.ws rcpt, videoFrame frame cid) ∈ tickDeliveries s').
Proof.
  intros Hwf%reachable_wf s'. unfold s'. cbn [step handleMessage]. split.
  - unfold handleVideoFrame, senderRole, getClient.
    destruct (closureClientId ws s) as [cid|]; [|done]. simpl.
    destruct (JsMap.get cid (clients s)) as [c|]; [|done]. simpl.
    intros [Hrole|[->|[->|(k & -> & Hk)]]].
    + rewrite decide_False; [done|]. intros Hty. apply Hrole. by rewrite Hty.
    + by repeat case_match.
    + by repeat case_match.
    + repeat case_match; try done. by apply sendToClient_undeliverable.
  - intros cid toId rcpt Hcid Hrole -> Hne Hrcpt Ho.
    assert (deliverable toId s = true) as Hd
      by (unfold deliverable; by rewrite Hrcpt).
    unfold handleVideoFrame. rewrite Hcid.
    unfold senderRole, getClient in Hrole. rewrite Hcid in Hrole.
    simpl in Hrole.
    destruct (JsMap.get cid (clients s)) as [c|]; [|done].
    injection Hrole as Hrole. rewrite decide_True by done.
    cbn [truthy]. rewrite bool_decide_eq_true_2 by done.
    unfold JsMap.has. rewrite Hrcpt. simpl.
    destruct (sendToClient_low toId (videoFrame frame cid) s)
      as (Hw & Hc & Hp & Hother); [done..|].
    split_and!; try done.
    apply tickDeliveries_pending; [| |done].
    + by rewrite (frame_sendToClient clients).
    + by rewrite <-(isOpen_core s) by (symmetry; apply sendToClient_core).
Qed.

(** Bob, who waits in the queue, streams a frame to Cat. *)
Lemma video_frame_lane_witness :
  let s := run (opJoins ++ bobJoins ++ catJoins ++ [tick]) init in
  let s' := step (frame0 1 (frameFrom (Some "c") "F")) s in
  pending "c" s' = Some [videoFrame "F" "b"] ∧
  step (frame0 0 (frameFrom (Some "c") "F")) s = s.
Proof.
  intros s s'.
  assert (reachable s) as Hs
    by (apply reachable_run; [apply reachable_init|reflexivity]).
  split.
  - destruct (video_frame_lane 1 (Some "c") "F" (mkOracle "" "") s Hs)
      as [_ H].
    destruct (H "b" "c" (Client.mk "c" 2 "Cat" "user")
                eq_refl eq_refl eq_refl ltac:(done) eq_refl eq_refl)
      as (_ & _ & Hp & _).
    exact Hp.
  - destruct (video_frame_lane 0 (Some "c") "F" (mkOracle "" "") s Hs)
      as [H _].
    apply H. left. vm_compute. discriminate.
Defined.

(** X9.  [startVideoStream] and [stopVideoStream] are obeyed for a
    connection whose registry entry has role [admin] and ignored for
    every other connection.  The command goes to the lane of the named
    connection, where it takes the place of what the lane holds; it is
    not sent before the next tick, and the named connection need not be
    paired, nor be a participant. *)
Theorem stream_commands_lane ws userId o s :
  reachable s →
  let start := step (onMessage ws (startVideo userId) o) s in
  let stop := step (onMessage ws (stopVideo userId) o) s in
  (senderRole ws s ≠ Some "admin" ∨ userId = None ∨
   (∃ k, userId = Some k ∧ deliverable k s = false) →
   start = s ∧ stop = s) ∧
  (∀ u, senderRole ws s = Some "admin" → userId = Some u →
        deliverable u s = true →
        (wire start = wire s ∧ core start = core s ∧
         pending u start = Some [startVideoStream] ∧
         ∀ k, k ≠ u → pending k start = pending k s) ∧
        (wire stop = wire s ∧ core stop = core s ∧
         pending u stop = Some [stopVideoStream] ∧
         ∀ k, k ≠ u → pending k stop = pending k s)).
Proof.
  intros Hwf%reachable_wf start stop. unfold start, stop.
  cbn [step handleMessage].
  unfold handleStartVideoStream, handleStopVideoStream. split.
  - intros [Hrole|[->|(k & -> & Hk)]].
    + by rewrite bool_decide_eq_false_2.
    + by case_bool_decide.
    + case_bool_decide; [|done]. simpl.
      by rewrite !sendToClient_undeliverable.
  - intros u Hrole -> Hd. rewrite bool_decide_eq_true_2 by done. simpl.
    split; by apply sendToClient_low.
Qed.

(** The operator asks Cat, who waits in the queue, for her camera; Bob
    asks for it too and is ignored. *)
Lemma stream_commands_lane_witness :
  let s := run (opJoins ++ bobJoins ++ catJoins ++ [tick]) init in
  pending "c" (step (frame0 0 (startVideo (Some "c"))) s)
  = Some [startVideoStream] ∧
  step (frame0 1 (startVideo (Some "c"))) s = s.
Proof.
  intros s.
  assert (reachable s) as Hs
    by (apply reachable_run; [apply reachable_init|reflexivity]).
  split.
  - destruct (stream_commands_lane 0 (Some "c") (mkOracle "" "") s Hs)
      as [_ H].
    destruct (H "c") as [(_ & _ & Hp & _) _]; [reflexivity..|exact Hp].
  - destruct (stream_commands_lane 1 (Some "c") (mkOracle "" "") s Hs)
      as [H _].
    destruct H as [Hstart _]; [|exact Hstart].
    left. vm_compute. discriminate.
Defined.



(** ** No pairing without an operator *)

Lemma deleteKey_nil {V} (x : option string) : deleteKey x ([] : JsMap.t string V) = [].
Proof. by destruct x. Qed.

Lemma handleEndChat_activeChats ws userId s :
  activeChats s = [] → activeChats (handleEndChat ws userId s) = [].
Proof.
  intros Hac. unfold handleEndChat. cbv zeta.
  repeat case_match; frame; rewrite ?Hac; simpl; by rewrite ?deleteKey_nil.
Qed.

Lemma handleDisconnect_activeChats clientId s :
  activeChats s = [] → activeChats (handleDisconnect clientId s) = [].
Proof.
  intros Hac. unfold handleDisconnect. cbv zeta.
  repeat case_match; frame;
    rewrite ?(frame_foldl activeChats) by (intros; apply resetPosition_core);
    frame; rewrite ?Hac; done.
Qed.

Lemma handleDisconnect_adminClient clientId s :
  adminClient (handleDisconnect clientId s) = adminClient s ∨
  activeChats (handleDisconnect clientId s) = [].
Proof.
  unfold handleDisconnect. cbv zeta.
  repeat case_match; frame; auto.
  right.
  rewrite ?(frame_foldl activeChats) by (intros; apply resetPosition_core).
  by frame.
Qed.

Lemma step_idle_unpaired e s :
  (adminClient s = None → activeChats s = []) →
  adminClient (step e s) = None → activeChats (step e s) = [].
Proof.
  intros Hs. destruct e as [ws|ws data o|ws|]; cbn [step].
  - exact Hs.
  - destruct data as [username userType|userId|to text|userId|userId
                     |userId|to frame|]; cbn [handleMessage].
    + unfold handleJoin, wsClose. cbv zeta.
      repeat case_match; frame; try done; intros; apply Hs; congruence.
    + unfold handleSelectUser, sendToClient'. cbv zeta.
      destruct (adminClient s) as [a|] eqn:Ha; [|by rewrite Ha].
      repeat case_match; frame; congruence.
    + unfold handleChatMessage. cbv zeta. repeat case_match; by frame.
    + intros Ha. apply handleEndChat_activeChats, Hs. revert Ha.
      unfold handleEndChat. cbv zeta. repeat case_match; by frame.
    + unfold handleStartVideoStream. repeat case_match; by frame.
    + unfold handleStopVideoStream. repeat case_match; by frame.
    + unfold handleVideoFrame. repeat case_match; by frame.
    + exact Hs.
  - set (s0 := set_sockets (alter closed ws) s).
    destruct (handleDisconnect_adminClient (closureClientId ws s) s0)
      as [Ha|Hac]; [|done].
    rewrite Ha. intros Hnone. by apply handleDisconnect_activeChats, Hs.
  - frame. exact Hs.
Qed.

Lemma reachable_idle_unpaired s :
  reachable s → adminClient s = None → activeChats s = [].
Proof.
  induction 1 as [|e s _ IH _]; [done|]. by apply step_idle_unpaired.
Qed.

Lemma reachable_clients_NoDup s : reachable s → NoDup (JsMap.keys (clients s)).
Proof.
  induction 1 as [|e s _ IH _]; [apply NoDup_nil_2|].
  destruct e as [ws|ws data o|ws|]; cbn [step].
  - exact IH.
  - destruct (join_or_not data) as [(u & t & ->)|Hj].
    + cbn [handleMessage]. rewrite handleJoin_clients.
      by apply NoDup_keys_set.
    + pose proof (handleMessage_registry ws data o s Hj) as [= Hc _].
      by rewrite Hc.
  - destruct (closureClientId ws s) as [cid|]; [|exact IH].
    destruct (handleDisconnect_clients cid (set_sockets (alter closed ws) s))
      as [-> | ->]; [exact IH|]. by apply NoDup_keys_delete.
  - by frame.
Qed.

(** X11.  The operator slot and the pairings.  In every reachable state
    the operator slot, when it is taken, holds an entry that is in the
    registry under its own identifier with role [admin]; when it is
    free, there is no pairing. *)
Theorem operator_slot_and_pairings s :
  reachable s →
  (∀ a, adminClient s = Some a →
        JsMap.get (Client.id a) (clients s) = Some a ∧
        Client.type a = "admin") ∧
  (adminClient s = None → activeChats s = []).
Proof.
  intros Hs. split.
  - by apply reachable_admin_registered.
  - by apply reachable_idle_unpaired.
Qed.

(** The operator is paired with Bob and leaves. *)
Lemma operator_slot_and_pairings_witness :
  let s :=
    run (opJoins ++ bobJoins ++ [frame0 0 (selectUser (Some "b"))]) init in
  JsMap.get "a" (clients s) = Some (Client.mk "a" 0 "Op" "admin") ∧
  activeChats s = [("b", "a"); ("a", "b")] ∧
  activeChats (step (onClose 0) s) = [].
Proof.
  intros s.
  assert (reachable s) as Hs
    by (apply reachable_run; [apply reachable_init|reflexivity]).
  assert (reachable (step (onClose 0) s)) as Hs'
    by (by apply reachable_step).
  destruct (operator_slot_and_pairings s Hs) as [Ha _].
  destruct (operator_slot_and_pairings _ Hs') as [_ Hidle].
  split_and!; [by apply (Ha (Client.mk "a" 0 "Op" "admin"))|reflexivity|].
  by apply Hidle.
Defined.

(** X12.  How a chat ends.  When a connection with role [admin] ends
    the chat naming a registered participant, the entries of both are
    deleted from the pairings and the participant is appended to the
    waiting queue.  When a connection with any other role ends the chat,
    the identifier that the frame names is ignored: the entries of the
    connection and of its partner are deleted, and nobody is put back in
    the queue, the connection that ended the chat included.  In both
    cases nothing goes to the transport within the handler. *)
Theorem endChat_effect ws cid c s :
  closureClientId ws s = Some cid → JsMap.get cid (clients s) = Some c →
  (Client.type c = "admin" →
   ∀ u uc o, JsMap.get u (clients s) = Some uc → Client.type uc = "user" →
             u ≠ "" →
     let s' := step (onMessage ws (endChat (Some u)) o) s in
     activeChats s' = JsMap.delete u (JsMap.delete cid (activeChats s)) ∧
     userQueue s' = userQueue s ++ [u] ∧
     registry s' = registry s ∧ wire s' = wire s) ∧
  (Client.type c ≠ "admin" →
   (∀ userId userId' o o',
      step (onMessage ws (endChat userId) o) s
      = step (onMessage ws (endChat userId') o') s) ∧
   (∀ p pc userId o,
      partner cid s = Some p → p ≠ "" →
      JsMap.get p (clients s) = Some pc → Client.type pc ≠ "user" →
      let s' := step (onMessage ws (endChat userId) o) s in
      activeChats s' = JsMap.delete p (JsMap.delete cid (activeChats s)) ∧
      userQueue s' = userQueue s ∧
      registry s' = registry s ∧ wire s' = wire s) ∧
   (∀ userId o,
      partner cid s = None →
      let s' := step (onMessage ws (endChat userId) o) s in
      activeChats s' = JsMap.delete cid (activeChats s) ∧
      userQueue s' = userQueue s ∧
      registry s' = registry s ∧ wire s' = wire s)).
Proof.
  intros Hcid Hc. split.
  - intros Hty u uc o Hu Htu Hne s'.
    assert (s' = updateUserList (updateQueue
                   (sendToClient u (chatEnded (Some (length (userQueue s ++ [u]))))
                      (set_userQueue (λ q, q ++ [u])
                         (sendToClient u stopVideoStream
                            (set_activeChats (JsMap.delete u)
                               (set_activeChats (JsMap.delete cid) s)))))))
      as ->.
    { unfold s'. cbn [step handleMessage]. unfold handleEndChat.
      rewrite Hcid, Hc. cbv zeta. rewrite decide_True by done. frame.
      cbn [truthy]. rewrite bool_decide_eq_true_2 by done. rewrite Hu.
      by rewrite decide_True by done. }
    unfold registry. split_and!; [by frame..|by wires].
  - intros Hty. split_and!.
    + intros userId userId' o o'. cbn [step handleMessage].
      unfold handleEndChat. rewrite Hcid, Hc. cbv zeta.
      by destruct (decide (Client.type c = "admin")).
    + intros p pc userId o Hp Hne Hpc Htp s'.
      assert (s' = updateUserList (updateQueue
                     (sendToClient p (chatEnded None)
                        (sendToClient p stopVideoStream
                           (set_activeChats (JsMap.delete p)
                              (set_activeChats (JsMap.delete cid) s))))))
        as ->.
      { unfold s'. cbn [step handleMessage]. unfold handleEndChat.
        rewrite Hcid, Hc. cbv zeta. rewrite decide_False by done.
        unfold partner in Hp. rewrite Hp. frame.
        cbn [truthy]. rewrite bool_decide_eq_true_2 by done. rewrite Hpc.
        by rewrite decide_False by done. }
      unfold registry. split_and!; [by frame..|by wires].
    + intros userId o Hp s'.
      assert (s' = updateUserList (updateQueue
                     (set_activeChats (JsMap.delete cid) s))) as ->.
      { unfold s'. cbn [step handleMessage]. unfold handleEndChat.
        rewrite Hcid, Hc. cbv zeta. rewrite decide_False by done.
        unfold partner in Hp. by rewrite Hp. }
      unfold registry. split_and!; [by frame..|by wires].
Qed.

(** Bob is paired with the operator while Cat waits.  When Bob ends the
    chat he is not queued again; when the operator ends it, Bob is
    queued behind Cat. *)
Lemma endChat_effect_witness :
  let s :=
    run (opJoins ++ bobJoins ++ catJoins ++
         [frame0 0 (selectUser (Some "b"))]) init in
  userQueue s = ["c"] ∧
  userQueue (step (frame0 1 (endChat None)) s) = ["c"] ∧
  activeChats (step (frame0 1 (endChat None)) s) = [] ∧
  userQueue (step (frame0 0 (endChat (Some "b"))) s) = ["c"; "b"].
Proof.
  intros s.
  destruct (endChat_effect 1 "b" (Client.mk "b" 1 "Bob" "user") s
              eq_refl eq_refl) as [_ Hbob].
  destruct (Hbob ltac:(done)) as (_ & Hpaired & _).
  destruct (Hpaired "a" (Client.mk "a" 0 "Op" "admin") None (mkOracle "" "")
              eq_refl ltac:(done) eq_refl ltac:(done)) as (Hac & Hq & _).
  destruct (endChat_effect 0 "a" (Client.mk "a" 0 "Op" "admin") s
              eq_refl eq_refl) as [Hop _].
  destruct (Hop eq_refl "b" (Client.mk "b" 1 "Bob" "user") (mkOracle "" "")
              eq_refl eq_refl ltac:(done)) as (_ & Hq' & _).
  split_and!; [reflexivity|exact Hq|etrans; [exact Hac|reflexivity]|exact Hq'].
Defined.

(** X13.  When a participant disconnects while an operator can be
    reached, the roster for the operator is computed before the entry
    of the participant is deleted: the roster that waits in the
    operator's lane after the handler still lists the participant, who
    is no longer in the registry. *)
Theorem roster_lists_leaver ws cid a s :
  reachable s → enabled (onClose ws) s = true →
  closureClientId ws s = Some cid → senderRole ws s = Some "user" →
  adminClient s = Some a → Client.ws a ≠ ws →
  isOpen (Client.ws a) s = true →
  let s' := step (onClose ws) s in
  JsMap.get cid (clients s') = None ∧
  ∃ users u, pending (Client.id a) s' = Some [userList users] ∧
             u ∈ users ∧ UserInfo.id u = cid.
Proof.
  intros Hs He Hcid Hrole Ha Hws Hopen s'.
  unfold senderRole, getClient in Hrole. rewrite Hcid in Hrole.
  simpl in Hrole.
  destruct (JsMap.get cid (clients s)) as [c|] eqn:Hc; [|done].
  injection Hrole as Hty.
  destruct (reachable_registry_keyed s Hs cid c Hc) as [Hid Hne].
  destruct (reachable_admin_registered s Hs a Ha) as [Hga Hta].
  set (s0 := set_sockets (alter closed ws) s).
  destruct (handleDisconnect_user cid c s0) as (s3 & Heq & Hc3 & Ha3 & Hso3 & Hwf3);
    [done|done|by rewrite Hty|].
  unfold s'. cbn [step]. rewrite Hcid. fold s0. rewrite Heq. split.
  - simpl. apply get_delete_eq.
  - exists (roster s3), (userInfo s3 c). split_and!; [| |done].
    + change (pending (Client.id a) (updateUserList s3)
              = Some [userList (roster s3)]).
      apply updateUserList_roster.
      * apply Hwf3. by apply reachable_wf in Hs.
      * by rewrite Ha3.
      * unfold deliverable, isOpen, readyStateOf. rewrite Hc3, Hso3.
        unfold s0. simpl. rewrite Hga. rewrite lookup_alter_ne by done.
        exact Hopen.
    + unfold roster. apply list_elem_of_fmap_2, list_elem_of_filter.
      split; [done|]. rewrite Hc3. unfold s0. simpl.
      apply get_Some_elem in Hc. by apply (list_elem_of_fmap_2 snd) in Hc.
Qed.

(** Bob leaves while he waits in the queue. *)
Lemma roster_lists_leaver_witness :
  let s := run (opJoins ++ bobJoins ++ [tick]) init in
  let s' := step (onClose 1) s in
  JsMap.get "b" (clients s') = None ∧
  pending "a" s' = Some [userList [UserInfo.mk "b" "Bob" "user" false]].
Proof.
  intros s s'.
  assert (reachable s) as Hs
    by (apply reachable_run; [apply reachable_init|reflexivity]).
  destruct (roster_lists_leaver 1 "b" (Client.mk "a" 0 "Op" "admin") s Hs)
    as [Hgone _]; [reflexivity..|done|reflexivity|].
  split; [exact Hgone|reflexivity].
Defined.

(** X14.  A connection that joins with a role other than [admin] is
    handled as a participant whatever the role says.  With a role that
    is neither [admin] nor [user] and an operator present it is put in
    the waiting queue, yet it is left out of the roster, no selection
    can pair it, and its video frames are dropped. *)
Theorem unknown_role_is_queued ws username userType o a s :
  reachable s →
  enabled (onMessage ws (join username userType) o) s = true →
  adminClient s = Some a → userType ≠ "admin" → userType ≠ "user" →
  let s1 := step (onMessage ws (join username userType) o) s in
  userQueue s1 = userQueue s ++ [generateId o] ∧
  (∀ u, u ∈ roster s1 → UserInfo.id u ≠ generateId o) ∧
  (∀ ws' o',
     let s2 := step (onMessage ws' (selectUser (Some (generateId o))) o') s1 in
     core s2 = core s1 ∧ wire s2 = wire s1) ∧
  (∀ to frame o', step (onMessage ws (frameFrom to frame) o') s1 = s1).
Proof.
  intros Hs He Ha Hna Hnu s1.
  assert (reachable s1) as Hs1 by (by apply reachable_step).
  destruct (enabled_live _ _ _ _ He) as [[sock Hsock] Hlive].
  assert (JsMap.get (generateId o) (clients s1)
          = Some (Client.mk (generateId o) ws username userType)) as Hnew.
  { unfold s1. cbn [step handleMessage]. rewrite handleJoin_clients.
    apply get_set_eq. }
  split_and!.
  - unfold s1. cbn [step handleMessage]. unfold handleJoin. cbv zeta.
    rewrite decide_False by done. frame. rewrite Ha. by frame.
  - intros u (c & -> & [Hty Hin]%list_elem_of_filter)%list_elem_of_fmap.
    simpl. intros Hid. unfold JsMap.values in Hin.
    apply list_elem_of_fmap in Hin as ([k c'] & -> & Hin). simpl in *.
    assert (JsMap.get k (clients s1) = Some c') as Hk.
    { apply get_elem_NoDup; [|done]. by apply reachable_clients_NoDup. }
    destruct (reachable_registry_keyed s1 Hs1 k c' Hk) as [Hkid _].
    assert (k = generateId o) as -> by congruence.
    rewrite Hnew in Hk. injection Hk as <-. done.
  - intros ws' o' s2. unfold s2. cbn [step handleMessage].
    split; [|apply handleSelectUser_wire].
    unfold handleSelectUser, sendToClient'. cbv zeta. rewrite Hnew.
    repeat case_match; rewrite ?sendToClient_core; done.
  - intros to frame o'. cbn [step handleMessage]. unfold handleVideoFrame.
    assert (closureClientId ws s1 = Some (generateId o)) as ->.
    { unfold s1. cbn [step handleMessage]. rewrite handleJoin_closure.
      rewrite decide_True by done. by rewrite Hsock. }
    rewrite Hnew. simpl. by rewrite decide_False.
Qed.

(** While "Op" is the operator, "Gus" joins with role "guest". *)
Lemma unknown_role_is_queued_witness :
  let s := run (opJoins ++ [onConnection 1]) init in
  let s1 := step (onMessage 1 (join "Gus" "guest") (mkOracle "g" "t1")) s in
  userQueue s1 = ["g"] ∧ roster s1 = [] ∧
  activeChats (step (frame0 0 (selectUser (Some "g"))) s1) = [].
Proof.
  intros s s1.
  assert (reachable s) as Hs
    by (apply reachable_run; [apply reachable_init|reflexivity]).
  destruct (unknown_role_is_queued 1 "Gus" "guest" (mkOracle "g" "t1")
              (Client.mk "a" 0 "Op" "admin") s Hs)
    as (Hq & _ & Hsel & _); [reflexivity|reflexivity|done|done|].
  split_and!; [exact Hq|reflexivity|].
  destruct (Hsel 0 (mkOracle "" "")) as [Hc _].
  apply core_fields in Hc as (_ & _ & _ & Hac & _).
  etrans; [exact Hac|reflexivity].
Defined.

(** ** The signaling server: the broadcast *)

Lemma sendOnlineUsers_frame userList s entry :
  Signaling.users (Signaling.sendOnlineUsers userList s entry)
  = Signaling.users s ∧
  Signaling.userSessions (Signaling.sendOnlineUsers userList s entry)
  = Signaling.userSessions s ∧
  Signaling.sockets (Signaling.sendOnlineUsers userList s entry)
  = Signaling.sockets s.
Proof.
  destruct entry as [u ws]. unfold Signaling.sendOnlineUsers.
  by destruct (Signaling.isOpen ws s).
Qed.

Lemma sendOnlineUsers_fold userList l s :
  let s' := foldl (Signaling.sendOnlineUsers userList) s l in
  Signaling.users s' = Signaling.users s ∧
  Signaling.userSessions s' = Signaling.userSessions s ∧
  Signaling.sockets s' = Signaling.sockets s ∧
  Signaling.wire s'
  = Signaling.wire s ++
    omap (λ entry : string * nat,
            if Signaling.isOpen entry.2 s
            then Some (Signaling.send entry.2
                         (Signaling.onlineUsers
                            (filter (λ u, u ≠ entry.1) userList)))
            else None) l.
Proof.
  cbv zeta. revert s. induction l as [|[u ws] l IH]; intros s; cbn [foldl].
  - by rewrite app_nil_r.
  - destruct (IH (Signaling.sendOnlineUsers userList s (u, ws)))
      as (Hu & Hs & Hso & Hw).
    destruct (sendOnlineUsers_frame userList s (u, ws)) as (Hu1 & Hs1 & Hso1).
    split_and!; [by rewrite Hu|by rewrite Hs|by rewrite Hso|]. rewrite Hw.
    assert (∀ w, Signaling.isOpen w
                   (Signaling.sendOnlineUsers userList s (u, ws))
                 = Signaling.isOpen w s) as Ho.
    { intros w. unfold Signaling.isOpen, Signaling.readyStateOf.
      by rewrite Hso1. }
    erewrite (list_omap_ext _ _ l l);
      [|apply Forall2_same_length_lookup_2; [done|];
        intros i x y Hx Hy; rewrite Ho; by simplify_eq].
    unfold Signaling.sendOnlineUsers at 1. cbn [omap list_omap snd fst].
    destruct (Signaling.isOpen ws s); simpl; [|done].
    by rewrite <-app_assoc.
Qed.

Lemma broadcastOnlineUsers_frame s :
  let s' := Signaling.broadcastOnlineUsers s in
  Signaling.users s' = Signaling.users s ∧
  Signaling.userSessions s' = Signaling.userSessions s ∧
  Signaling.sockets s' = Signaling.sockets s ∧
  Signaling.wire s'
  = Signaling.wire s ++ omap (onlineUsersFor s) (Signaling.users s).
Proof. apply sendOnlineUsers_fold. Qed.

(** ** The signaling server: the directory *)

Section signaling.
Variable normalize : string → string.

Lemma handleRegister_fields ws n d1 d2 s :
  let name := normalize n in
  let s' := Signaling.handleRegister normalize ws n d1 d2 s in
  Signaling.users s' = JsMap.set name ws (Signaling.users s) ∧
  Signaling.userSessions s'
  = JsMap.set name (Signaling.Session.mk d1 d2) (Signaling.userSessions s) ∧
  Signaling.sockets s'
  = alter (λ k, Signaling.Socket.mk (Signaling.Socket.readyState k)
                                    (Some name)) ws
      (match JsMap.get name (Signaling.users s) with
       | Some existingWs => alter Signaling.closing existingWs
                                  (Signaling.sockets s)
       | None => Signaling.sockets s
       end).
Proof.
  intros name s'. unfold s', Signaling.handleRegister. cbv zeta. fold name.
  match goal with
  | |- context [Signaling.broadcastOnlineUsers ?x] =>
      destruct (broadcastOnlineUsers_frame x) as (-> & -> & -> & _)
  end.
  simpl. by destruct (JsMap.get name (Signaling.users s)).
Qed.

Lemma handleClose_fields ws s :
  let s' := Signaling.handleClose ws s in
  Signaling.sockets s' = alter Signaling.closed ws (Signaling.sockets s) ∧
  ((Signaling.users s' = Signaling.users s ∧
    Signaling.userSessions s' = Signaling.userSessions s ∧
    (Signaling.usernameOf ws s = None ∨ Signaling.usernameOf ws s = Some ""))
   ∨ ∃ name, Signaling.usernameOf ws s = Some name ∧ name ≠ "" ∧
             Signaling.users s' = JsMap.delete name (Signaling.users s) ∧
             Signaling.userSessions s'
             = JsMap.delete name (Signaling.userSessions s)).
Proof.
  intros s'. unfold s', Signaling.handleClose. cbv zeta.
  assert (Signaling.usernameOf ws
            (Signaling.set_sockets (alter Signaling.closed ws) s)
          = Signaling.usernameOf ws s) as ->.
  { unfold Signaling.usernameOf. simpl. rewrite lookup_alter_eq.
    by destruct (Signaling.sockets s !! ws). }
  destruct (Signaling.usernameOf ws s) as [name|];
    [|split; [done|]; left; auto].
  case_bool_decide as Hne.
  - match goal with
    | |- context [Signaling.broadcastOnlineUsers ?x] =>
        destruct (broadcastOnlineUsers_frame x) as (-> & -> & -> & _)
    end.
    split; [done|]. right. by exists name.
  - split; [done|]. left. split_and!; [done..|]. right. f_equal.
    by destruct (decide (name = "")).
Qed.
End signaling.



(** ** Keys of two maps that are written together *)

Lemma keys_delete {V} (k : string) (m : JsMap.t string V) :
  JsMap.keys (JsMap.delete k m) = filter (λ x, x ≠ k) (JsMap.keys m).
Proof.
  unfold JsMap.keys. induction m as [|[k' v] m IH]; [done|].
  cbn [JsMap.delete fmap list_fmap fst]. rewrite filter_cons.
  destruct (decide (k = k')) as [->|Hne].
  - by rewrite decide_False by (by intros ?).
  - rewrite decide_True by done. cbn [fmap list_fmap fst]. by rewrite IH.
Qed.

Lemma keys_set_together {V W} (k : string) (v : V) (w : W)
    (m : JsMap.t string V) (m' : JsMap.t string W) :
  JsMap.keys m = JsMap.keys m' →
  JsMap.keys (JsMap.set k v m) = JsMap.keys (JsMap.set k w m').
Proof.
  intros Heq. destruct (decide (k ∈ JsMap.keys m)) as [Hin|Hnin].
  - rewrite !keys_set_present; [done| |done]. by rewrite <-Heq.
  - rewrite !keys_set_absent; [by rewrite Heq| |done]. by rewrite <-Heq.
Qed.

Section signaling.
Variable normalize : string → string.

Lemma handleMessage_directory ws data o s :
  (∀ n, data ≠ Signaling.register n) →
  Signaling.users (Signaling.handleMessage normalize ws data o s)
  = Signaling.users s ∧
  Signaling.userSessions (Signaling.handleMessage normalize ws data o s)
  = Signaling.userSessions s ∧
  Signaling.sockets (Signaling.handleMessage normalize ws data o s)
  = Signaling.sockets s.
Proof.
  intros Hr. destruct data; simpl; try done.
  - by destruct (Hr username).
  - unfold Signaling.handleSignaling. by repeat case_match.
  - unfold Signaling.handleTyping. by repeat case_match.
Qed.

Lemma register_or_not data :
  (∃ n, data = Signaling.register n) ∨ (∀ n, data ≠ Signaling.register n).
Proof. destruct data; eauto. Qed.

Lemma step_directory_ok e s :
  directory_ok normalize s →
  directory_ok normalize (Signaling.step normalize e s).
Proof.
  intros [Hnorm Hkeys]. unfold directory_ok.
  destruct e as [ws|ws data o|ws]; cbn [Signaling.step].
  - done.
  - destruct (register_or_not data) as [[n ->]|Hr].
    + cbn [Signaling.handleMessage].
      destruct (handleRegister_fields normalize ws n
                  (Signaling.date1 o) (Signaling.date2 o) s)
        as (-> & -> & _).
      split; [|by apply keys_set_together].
      intros k Hk.
      destruct (decide (k ∈ JsMap.keys (Signaling.users s))) as [|Hnin];
        [by apply Hnorm|].
      destruct (decide (normalize n ∈ JsMap.keys (Signaling.users s))).
      * rewrite keys_set_present in Hk by done. done.
      * rewrite keys_set_absent in Hk by done.
        apply elem_of_app in Hk as [?|Hk%list_elem_of_singleton]; [done|].
        by exists n.
    + destruct (handleMessage_directory ws data o s Hr) as (-> & -> & _).
      done.
  - destruct (handleClose_fields ws s)
      as (_ & [(-> & -> & _)|(name & _ & _ & -> & ->)]); [done|].
    split.
    + intros k Hk. apply Hnorm. by apply (keys_delete_subseteq name).
    + by rewrite !keys_delete, Hkeys.
Qed.

Lemma reachable_directory_ok s :
  Signaling.reachable normalize s → directory_ok normalize s.
Proof.
  induction 1 as [|e s _ IH _]; [|by apply step_directory_ok].
  split; [|done]. by intros k ?%elem_of_nil.
Qed.

Lemma step_blank e s :
  JsMap.has "" (Signaling.users s) = true →
  JsMap.has "" (Signaling.users (Signaling.step normalize e s)) = true.
Proof.
  intros [w Hw]%has_true. apply has_true.
  destruct e as [ws|ws data o|ws]; cbn [Signaling.step].
  - by exists w.
  - destruct (register_or_not data) as [[n ->]|Hr].
    + cbn [Signaling.handleMessage].
      destruct (handleRegister_fields normalize ws n
                  (Signaling.date1 o) (Signaling.date2 o) s)
        as (-> & _).
      destruct (decide (normalize n = "")) as [->|Hne].
      * rewrite get_set_eq. by eexists.
      * rewrite get_set_ne by done. by exists w.
    + destruct (handleMessage_directory ws data o s Hr) as (-> & _).
      by exists w.
  - destruct (handleClose_fields ws s)
      as (_ & [(-> & _)|(name & _ & Hne & -> & _)]); [by exists w|].
    rewrite get_delete_ne by done. by exists w.
Qed.
End signaling.

Lemma signaling_reachable_run normalize es s :
  Signaling.reachable normalize s →
  Signaling.admissible normalize es s = true →
  Signaling.reachable normalize (Signaling.run normalize es s).
Proof.
  revert s. induction es as [|e es IH]; intros s Hs; simpl; [done|].
  intros [He Hes]%andb_true_iff. apply IH; [|done]. by constructor.
Qed.

(** X16.  Signaling server: in every reachable state each name of the
    directory is a value of [toLowerCase().trim()], and the sessions
    are kept for exactly the names of the directory, in the same order.
    [handleSignaling] looks [data.to] up as it is written: a frame
    addressed to a spelling that is not in this normal form is never
    relayed and is answered with the error. *)
Theorem directory_names_normalized normalize s :
  Signaling.reachable normalize s →
  (∀ k, k ∈ JsMap.keys (Signaling.users s) → ∃ n, k = normalize n) ∧
  JsMap.keys (Signaling.userSessions s) = JsMap.keys (Signaling.users s) ∧
  (∀ ws kind to body o,
     (∀ n, normalize n ≠ to) →
     Signaling.wire
       (Signaling.step normalize
          (Signaling.onMessage ws (Signaling.signal kind (Some to) body) o) s)
     = Signaling.wire s ++
       [Signaling.send ws (Signaling.error (Signaling.notOnline (Some to)))]).
Proof.
  intros [Hnorm Hkeys]%reachable_directory_ok. split_and!; [done..|].
  intros ws kind to body o Hto. cbn [Signaling.step Signaling.handleMessage].
  unfold Signaling.handleSignaling, Signaling.target. simpl.
  destruct (JsMap.get to (Signaling.users s)) as [t|] eqn:Ht; [|done].
  apply get_Some_keys, Hnorm in Ht as [n ->]. by destruct (Hto n).
Qed.

(** "  Alice " is registered as "alice". *)
Lemma directory_names_normalized_witness :
  let s :=
    Signaling.run Signaling.asciiNormalize aliceRegisters Signaling.init in
  JsMap.keys (Signaling.users s) = ["alice"] ∧
  JsMap.keys (Signaling.userSessions s) = JsMap.keys (Signaling.users s).
Proof.
  intros s. split; [reflexivity|].
  apply (directory_names_normalized Signaling.asciiNormalize s).
  apply signaling_reachable_run; [apply Signaling.reachable_init|reflexivity].
Defined.

(** X17.  Signaling server: registration and lookup agree.  After a
    registration, [check-online] for every spelling with the same normal
    form answers [online: true]; once the [close] of the registered
    socket has been handled it answers [online: false] (the empty name
    apart, which [close] does not delete). *)
Theorem register_check_roundtrip normalize ws ws' n friend o o' s :
  normalize friend = normalize n →
  is_Some (Signaling.sockets s !! ws) →
  let name := normalize n in
  let check := Signaling.onMessage ws' (Signaling.checkOnline friend) o' in
  let s1 :=
    Signaling.step normalize
      (Signaling.onMessage ws (Signaling.register n) o) s in
  let s2 := Signaling.step normalize (Signaling.onClose ws) s1 in
  Signaling.wire (Signaling.step normalize check s1)
  = Signaling.wire s1 ++ [Signaling.send ws' (Signaling.status name true)] ∧
  (name ≠ "" →
   Signaling.wire (Signaling.step normalize check s2)
   = Signaling.wire s2 ++ [Signaling.send ws' (Signaling.status name false)]).
Proof.
  intros Hfriend [k Hk] name check s1 s2.
  destruct (handleRegister_fields normalize ws n
              (Signaling.date1 o) (Signaling.date2 o) s)
    as (Hu1 & _ & Hso1).
  fold name in Hu1, Hso1.
  change (Signaling.handleRegister normalize ws n (Signaling.date1 o)
            (Signaling.date2 o) s) with s1 in *.
  split.
  - unfold check. cbn [Signaling.step Signaling.handleMessage].
    unfold Signaling.handleCheckOnline, JsMap.has. cbv zeta.
    rewrite Hfriend. fold name. by rewrite Hu1, get_set_eq.
  - intros Hne.
    assert (Signaling.usernameOf ws s1 = Some name) as Hname.
    { unfold Signaling.usernameOf. rewrite Hso1, lookup_alter_eq.
      destruct (JsMap.get name (Signaling.users s)) as [w|]; [|by rewrite Hk].
      destruct (decide (w = ws)) as [->|Hw].
      - by rewrite lookup_alter_eq, Hk.
      - by rewrite lookup_alter_ne, Hk by done. }
    destruct (handleClose_fields ws s1) as (_ & [(_ & _ & Hno)|Hdel]).
    { destruct Hno as [Hno|Hno]; congruence. }
    destruct Hdel as (name' & Hname' & _ & Hu2 & _).
    assert (name' = name) as -> by congruence.
    change (Signaling.handleClose ws s1) with s2 in *.
    unfold check. cbn [Signaling.step Signaling.handleMessage].
    unfold Signaling.handleCheckOnline, JsMap.has. cbv zeta.
    rewrite Hfriend. fold name. by rewrite Hu2, get_delete_eq.
Qed.

(** "  Alice " registers; "ALICE" is looked up from socket 1. *)
Lemma register_check_roundtrip_witness :
  let s := Signaling.run Signaling.asciiNormalize aliceRegisters Signaling.init in
  let check :=
    Signaling.onMessage 1 (Signaling.checkOnline "ALICE")
      (Signaling.mkOracle "" "") in
  Signaling.wire (Signaling.step Signaling.asciiNormalize check s)
  = Signaling.wire s ++ [Signaling.send 1 (Signaling.status "alice" true)].
Proof.
  intros s check.
  destruct (register_check_roundtrip Signaling.asciiNormalize 0 1 "  Alice "
              "ALICE" (Signaling.mkOracle "d1" "d2")
              (Signaling.mkOracle "" "")
              (Signaling.step Signaling.asciiNormalize
                 (Signaling.onConnection 0) Signaling.init))
    as [Hon _]; [reflexivity|by eexists|].
  exact Hon.
Defined.

(** X18.  Signaling server: a registration whose name is blank after
    [trim] is stored under the empty name, and [close] skips the
    deletion for a socket whose name is empty: from then on the
    directory holds the empty name in every state, whatever happens. *)
Theorem blank_name_never_removed normalize ws n o s es :
  normalize n = "" →
  let s1 :=
    Signaling.step normalize
      (Signaling.onMessage ws (Signaling.register n) o) s in
  JsMap.get "" (Signaling.users s1) = Some ws ∧
  JsMap.has "" (Signaling.users (Signaling.run normalize es s1)) = true.
Proof.
  intros Hn s1.
  assert (JsMap.get "" (Signaling.users s1) = Some ws) as Hget.
  { unfold s1. cbn [Signaling.step Signaling.handleMessage].
    destruct (handleRegister_fields normalize ws n
                (Signaling.date1 o) (Signaling.date2 o) s) as (-> & _).
    rewrite Hn. apply get_set_eq. }
  split; [done|].
  assert (JsMap.has "" (Signaling.users s1) = true) as Hhas
    by (apply has_true; by eexists).
  clear Hget. clearbody s1. revert s1 Hhas.
  induction es as [|e es IH]; intros s1 Hhas; simpl; [done|].
  by apply IH, step_blank.
Qed.

(** A client registers as "   " and disconnects. *)
Lemma blank_name_never_removed_witness :
  let s :=
    Signaling.run Signaling.asciiNormalize
      [Signaling.onConnection 0;
       Signaling.onMessage 0 (Signaling.register "   ")
         (Signaling.mkOracle "d1" "d2");
       Signaling.onClose 0] Signaling.init in
  JsMap.has "" (Signaling.users s) = true ∧
  Signaling.readyStateOf 0 s = CLOSED.
Proof.
  intros s. split; [|reflexivity].
  apply (blank_name_never_removed Signaling.asciiNormalize 0 "   "
           (Signaling.mkOracle "d1" "d2")
           (Signaling.step Signaling.asciiNormalize
              (Signaling.onConnection 0) Signaling.init)
           [Signaling.onClose 0]).
  reflexivity.
Defined.

Lemma handleRegister_broadcast normalize ws n d1 d2 s :
  let s' := Signaling.handleRegister normalize ws n d1 d2 s in
  ∃ pre, Signaling.wire s'
         = pre ++ omap (onlineUsersFor s') (Signaling.users s').
Proof.
  intros s'. unfold s', Signaling.handleRegister. cbv zeta.
  match goal with
  | |- context [Signaling.broadcastOnlineUsers ?x] =>
      destruct (broadcastOnlineUsers_frame x) as (Hu & _ & Hso & Hw);
      exists (Signaling.wire x)
  end.
  rewrite Hw, Hu. f_equal. apply list_omap_ext.
  apply Forall2_same_length_lookup_2; [done|].
  intros i x y Hx Hy. simplify_eq.
  unfold onlineUsersFor, Signaling.isOpen, Signaling.readyStateOf.
  by rewrite Hu, Hso.
Qed.

(** X19.  Signaling server: a registration is broadcast.  After a
    registration every name of the directory whose socket is open has
    been sent, on that socket, the list of all names of the directory but
    its own, in the order of registration; the list of every other name
    contains the new name. *)
Theorem registration_is_broadcast normalize ws n o s other ws' :
  let name := normalize n in
  let s1 :=
    Signaling.step normalize
      (Signaling.onMessage ws (Signaling.register n) o) s in
  let names := filter (λ u, u ≠ other) (JsMap.keys (Signaling.users s1)) in
  JsMap.get other (Signaling.users s1) = Some ws' →
  Signaling.isOpen ws' s1 = true →
  Signaling.send ws' (Signaling.onlineUsers names) ∈ Signaling.wire s1 ∧
  (other ∉ names) ∧ (other ≠ name → name ∈ names).
Proof.
  intros name s1 names Hin%get_Some_elem Hopen.
  destruct (handleRegister_fields normalize ws n
              (Signaling.date1 o) (Signaling.date2 o) s)
    as (Hu1 & _ & Hso1).
  fold name in Hu1, Hso1.
  change (Signaling.handleRegister normalize ws n (Signaling.date1 o)
            (Signaling.date2 o) s) with s1 in *.
  split_and!.
  - destruct (handleRegister_broadcast normalize ws n
                (Signaling.date1 o) (Signaling.date2 o) s) as [pre Hw].
    change (Signaling.handleRegister normalize ws n (Signaling.date1 o)
              (Signaling.date2 o) s) with s1 in *.
    rewrite Hw. apply elem_of_app. right. apply list_elem_of_omap.
    exists (other, ws'). split; [done|].
    unfold onlineUsersFor. simpl. by rewrite Hopen.
  - unfold names. rewrite list_elem_of_filter. by intros [? _].
  - intros Hne. unfold names. apply list_elem_of_filter. split; [done|].
    rewrite Hu1. eapply get_Some_keys, get_set_eq.
Qed.

(** Bob registers while Alice is connected: Alice is sent ["bob"]. *)
Lemma registration_is_broadcast_witness :
  let s :=
    Signaling.run Signaling.asciiNormalize
      (aliceRegisters ++ [Signaling.onConnection 1]) Signaling.init in
  let s1 :=
    Signaling.step Signaling.asciiNormalize
      (Signaling.onMessage 1 (Signaling.register "Bob")
         (Signaling.mkOracle "d3" "d4")) s in
  Signaling.send 0 (Signaling.onlineUsers ["bob"]) ∈ Signaling.wire s1.
Proof.
  intros s s1.
  destruct (registration_is_broadcast Signaling.asciiNormalize 1 "Bob"
              (Signaling.mkOracle "d3" "d4") s "alice" 0) as [Hin _].
  - reflexivity.
  - reflexivity.
  - exact Hin.
Defined.

(** ** The broker without lanes *)

Lemma direct_sendToClient_core k m s :
  core (Direct.sendToClient k m s) = core s.
Proof. unfold Direct.sendToClient. by repeat case_match. Qed.

Lemma direct_sendToClient_wire k m s :
  wire (Direct.sendToClient k m s) = wire s ++ directCall s k m.
Proof.
  unfold Direct.sendToClient, directCall.
  repeat case_match; simpl; by rewrite ?app_nil_r.
Qed.

Lemma direct_updateQueue_core s : core (Direct.updateQueue s) = core s.
Proof. apply forEach_core. intros. apply direct_sendToClient_core. Qed.

Lemma direct_updateUserList_core s : core (Direct.updateUserList s) = core s.
Proof.
  unfold Direct.updateUserList. case_match; [|done].
  apply direct_sendToClient_core.
Qed.

Lemma direct_endChatOf_core cid u s : core (Direct.endChatOf cid u s) = core s.
Proof.
  unfold Direct.endChatOf. case_decide; [|done].
  apply direct_sendToClient_core.
Qed.

Lemma direct_resetPosition_core cid e s :
  core (Direct.resetPosition cid e s) = core s.
Proof.
  unfold Direct.resetPosition. destruct e. repeat case_decide; try done.
  apply direct_sendToClient_core.
Qed.

Section direct_frame.
Context {A} (proj : state → A) `{!CoreField proj}.

Lemma direct_frame_sendToClient k m s :
  proj (Direct.sendToClient k m s) = proj s.
Proof. apply core_field, direct_sendToClient_core. Qed.

Lemma direct_frame_sendToClient' k m s :
  proj (Direct.sendToClient' k m s) = proj s.
Proof. destruct k; [apply direct_frame_sendToClient|done]. Qed.

Lemma direct_frame_updateQueue s : proj (Direct.updateQueue s) = proj s.
Proof. apply core_field, direct_updateQueue_core. Qed.

Lemma direct_frame_updateUserList s : proj (Direct.updateUserList s) = proj s.
Proof. apply core_field, direct_updateUserList_core. Qed.
End direct_frame.

Ltac direct_frame_field p :=
  rewrite ?(direct_frame_sendToClient p), ?(direct_frame_sendToClient' p),
    ?(direct_frame_updateQueue p), ?(direct_frame_updateUserList p).

Ltac direct_frame :=
  repeat progress
    (direct_frame_field clients; direct_frame_field adminClient;
     direct_frame_field userQueue; direct_frame_field activeChats;
     direct_frame_field chatHistory; direct_frame_field sockets; frame).

Lemma core_eq s s' :
  clients s = clients s' → adminClient s = adminClient s' →
  userQueue s = userQueue s' → activeChats s = activeChats s' →
  chatHistory s = chatHistory s' → sockets s = sockets s' →
  core s = core s'.
Proof. unfold core. by intros -> -> -> -> -> ->. Qed.

Lemma variants_handleJoin ws username userType newId s :
  core (Direct.handleJoin ws username userType newId s)
  = core (handleJoin ws username userType newId s).
Proof.
  unfold Direct.handleJoin, handleJoin, wsClose. cbv zeta.
  repeat case_match; apply core_eq; by direct_frame.
Qed.

Lemma variants_handleSelectUser ws userId s :
  core (Direct.handleSelectUser ws userId s)
  = core (handleSelectUser ws userId s).
Proof.
  unfold Direct.handleSelectUser, handleSelectUser. cbv zeta.
  repeat case_match; apply core_eq; by direct_frame.
Qed.

Lemma variants_handleEndChat ws userId s :
  core (Direct.handleEndChat ws userId s) = core (handleEndChat ws userId s).
Proof.
  unfold Direct.handleEndChat, handleEndChat. cbv zeta.
  destruct (closureClientId ws s) as [cid|]; [|done].
  destruct (JsMap.get cid (clients s)) as [c|]; [|done].
  apply core_eq; direct_frame; try done.
  all: repeat case_match; direct_frame; try done.
Qed.

Lemma variants_handleDisconnect clientId s :
  core (Direct.handleDisconnect clientId s) = core (handleDisconnect clientId s).
Proof.
  unfold Direct.handleDisconnect, handleDisconnect. cbv zeta.
  destruct clientId as [cid|]; [|done].
  destruct (truthy (Some cid)); [|done].
  destruct (JsMap.get cid (clients s)) as [c|]; [|done].
  destruct (decide (Client.type c = "admin")).
  - apply core_eq; frame;
      repeat (rewrite ?(frame_foldl clients), ?(frame_foldl adminClient),
                ?(frame_foldl userQueue), ?(frame_foldl activeChats),
                ?(frame_foldl chatHistory), ?(frame_foldl sockets)
                by (intros; first [apply resetPosition_core
                                  |apply endChatOf_core
                                  |apply direct_resetPosition_core
                                  |apply direct_endChatOf_core]);
              frame); done.
  - direct_frame. destruct (indexOf cid (userQueue s)); direct_frame;
      destruct (JsMap.get cid (activeChats s)) as [p|];
      try destruct (truthy (Some p));
      apply core_eq; by direct_frame.
Qed.

(** The calls that a list of sends makes. *)
Lemma direct_wire_grows k m s :
  ∃ l, wire (Direct.sendToClient k m s) = wire s ++ l.
Proof. eexists. apply direct_sendToClient_wire. Qed.

Lemma grows_refl s : grows s s.
Proof. split; [done|]. exists []. by rewrite app_nil_r. Qed.

Lemma grows_trans s1 s2 s3 : grows s1 s2 → grows s2 s3 → grows s1 s3.
Proof.
  intros [Hc1 [l1 H1]] [Hc2 [l2 H2]]. split; [congruence|].
  exists (l1 ++ l2). by rewrite H2, H1, app_assoc.
Qed.

Lemma grows_elem s s' c : grows s s' → c ∈ wire s → c ∈ wire s'.
Proof. intros [_ [l ->]] Hin. apply elem_of_app. by left. Qed.

Lemma grows_sendToClient k m s : grows s (Direct.sendToClient k m s).
Proof.
  split; [apply direct_sendToClient_core|apply direct_wire_grows].
Qed.

Lemma grows_foldl {A} (f : state → A → state) l s :
  (∀ s x, grows s (f s x)) → grows s (foldl f s l).
Proof.
  intros Hf. revert s. induction l as [|x l IH]; intros s; simpl.
  - apply grows_refl.
  - eapply grows_trans; [apply Hf|apply IH].
Qed.

Lemma grows_forEach {A} (f : A → nat → state → state) l i s :
  (∀ x i s, grows s (f x i s)) → grows s (forEach f l i s).
Proof.
  intros Hf. revert i s. induction l as [|x l IH]; intros i s; simpl.
  - apply grows_refl.
  - eapply grows_trans; [apply Hf|apply IH].
Qed.

Lemma grows_updateQueue s : grows s (Direct.updateQueue s).
Proof. apply grows_forEach. intros. apply grows_sendToClient. Qed.

Lemma grows_updateUserList s : grows s (Direct.updateUserList s).
Proof.
  unfold Direct.updateUserList. case_match; [|apply grows_refl].
  apply grows_sendToClient.
Qed.

Lemma grows_endChatOf cid u s : grows s (Direct.endChatOf cid u s).
Proof.
  unfold Direct.endChatOf. case_decide; [|apply grows_refl].
  apply grows_sendToClient.
Qed.

Lemma grows_resetPosition cid e s : grows s (Direct.resetPosition cid e s).
Proof.
  unfold Direct.resetPosition. destruct e.
  repeat case_decide; try apply grows_refl. apply grows_sendToClient.
Qed.

(** A send to a connection that can be reached is on the log once the
    list of sends is through. *)
Lemma direct_foldl_sends (g : string → Message) (P : string → Prop)
    `{∀ x, Decision (P x)} l u c s :
  u ∈ l → P u → JsMap.get u (clients s) = Some c →
  isOpen (Client.ws c) s = true →
  (∀ x, stringify s (g x) = g x) →
  send (Client.ws c) (g u)
  ∈ wire (foldl (λ s x, if decide (P x)
                        then Direct.sendToClient x (g x) s else s) s l).
Proof.
  intros Hin HP Hc Ho Hg. revert s Hc Ho Hg.
  induction l as [|x l IH]; intros s Hc Ho Hg; [by apply elem_of_nil in Hin|].
  cbn [foldl]. apply elem_of_cons in Hin as [<-|Hin].
  - rewrite decide_True by done.
    eapply grows_elem.
    + apply grows_foldl. intros s' x. case_decide; [|apply grows_refl].
      apply grows_sendToClient.
    + rewrite direct_sendToClient_wire. unfold directCall. rewrite Hc, Ho.
      rewrite Hg. apply elem_of_app. right. apply list_elem_of_here.
  - set (s1 := if decide (P x) then Direct.sendToClient x (g x) s else s).
    assert (core s1 = core s) as Hcore.
    { unfold s1. case_decide; [apply direct_sendToClient_core|done]. }
    apply IH; [done| | |].
    + by rewrite (core_field (proj := clients) _ _ Hcore).
    + by rewrite (isOpen_core _ _ Hcore).
    + intros y. rewrite <-(Hg y).
      unfold stringify. by destruct (g y) as [| | | |? []| | | | |].
Qed.

(** X20.  The lanes change the delivery and nothing else: on every
    state, joining, selecting, ending a chat and disconnecting leave the
    registry, the operator slot, the queue, the pairings, the history
    and the sockets in the broker with lanes exactly as they do in the
    broker without lanes. *)
Theorem lanes_change_delivery_only s :
  (∀ ws username userType newId,
     core (handleJoin ws username userType newId s)
     = core (Direct.handleJoin ws username userType newId s)) ∧
  (∀ ws userId,
     core (handleSelectUser ws userId s)
     = core (Direct.handleSelectUser ws userId s)) ∧
  (∀ ws userId,
     core (handleEndChat ws userId s)
     = core (Direct.handleEndChat ws userId s)) ∧
  (∀ clientId,
     core (handleDisconnect clientId s)
     = core (Direct.handleDisconnect clientId s)).
Proof.
  split_and!; intros; symmetry.
  - apply variants_handleJoin.
  - apply variants_handleSelectUser.
  - apply variants_handleEndChat.
  - apply variants_handleDisconnect.
Qed.

Lemma two_sends_first k1 k2 c1 c2 m1 m2 s :
  JsMap.get k1 (clients s) = Some c1 → JsMap.get k2 (clients s) = Some c2 →
  isOpen (Client.ws c1) s = true → isOpen (Client.ws c2) s = true →
  ∃ rest,
    wire (Direct.updateUserList
            (Direct.updateQueue
               (Direct.sendToClient k2 m2 (Direct.sendToClient k1 m1 s))))
    = wire s ++
      send (Client.ws c1) (stringify s m1) ::
      send (Client.ws c2) (stringify (Direct.sendToClient k1 m1 s) m2) :: rest.
Proof.
  intros H1 H2 Ho1 Ho2.
  destruct (grows_trans _ _ _
              (grows_updateQueue
                 (Direct.sendToClient k2 m2 (Direct.sendToClient k1 m1 s)))
              (grows_updateUserList _)) as [_ [rest ->]].
  exists rest. rewrite !direct_sendToClient_wire. unfold directCall.
  direct_frame. rewrite H1, H2, Ho1.
  rewrite (isOpen_core _ s) by apply direct_sendToClient_core.
  rewrite Ho2. by rewrite <-!app_assoc.
Qed.

(** X21.  In the broker without lanes a selection by the operator of a
    participant, the sockets of both being open, hands [chatStarted],
    with the history of the pair, to the operator and then to the
    participant, before anything else and within the handler; in the
    broker with lanes the same selection hands nothing to the
    transport. *)
Theorem without_lanes_chatStarted_is_sent ws userId user a s :
  adminClient s = Some a → senderRole ws s = Some "admin" →
  JsMap.get userId (clients s) = Some user → Client.type user = "user" →
  JsMap.get (Client.id a) (clients s) = Some a →
  isOpen (Client.ws a) s = true → isOpen (Client.ws user) s = true →
  let h :=
    default [] (JsMap.get (chatKey (Client.id a) userId) (chatHistory s)) in
  (∃ rest,
     wire (Direct.handleSelectUser ws (Some userId) s)
     = wire s ++
       send (Client.ws a)
         (chatStarted (Peer.mk userId (Client.username user) "user")
                      (array h)) ::
       send (Client.ws user)
         (chatStarted (Peer.mk (Client.id a) (Client.username a)
                               (Client.type a)) (array h)) :: rest) ∧
  wire (handleSelectUser ws (Some userId) s) = wire s.
Proof.
  intros Ha Hrole Huser Hty Hga Hoa Hou h.
  split; [|apply handleSelectUser_wire].
  unfold Direct.handleSelectUser. cbv zeta. rewrite Ha, Hrole, Huser.
  rewrite bool_decide_eq_true_2, decide_True by done.
  cbn [chatHistory set_activeChats set_userQueue].
  set (s0 := set_activeChats (JsMap.set (Client.id a) userId)
               (set_activeChats (JsMap.set userId (Client.id a))
                  (set_userQueue (spliceOut userId) s))).
  assert (∀ p x, chatHistory x = chatHistory s →
            stringify x
              (chatStarted p
                 (if JsMap.has (chatKey (Client.id a) userId) (chatHistory s)
                  then stored (chatKey (Client.id a) userId) else array []))
            = chatStarted p (array h)) as Hstr.
  { intros p x Hx. unfold h.
    destruct (JsMap.has _ _) eqn:Hhas; simpl.
    - by rewrite Hx.
    - apply has_false in Hhas. by rewrite Hhas. }
  destruct (two_sends_first (Client.id a) userId a user
              (chatStarted (Peer.mk userId (Client.username user)
                                    (Client.type user))
                 (if JsMap.has (chatKey (Client.id a) userId) (chatHistory s)
                  then stored (chatKey (Client.id a) userId) else array []))
              (chatStarted (Peer.mk (Client.id a) (Client.username a)
                                    (Client.type a))
                 (if JsMap.has (chatKey (Client.id a) userId) (chatHistory s)
                  then stored (chatKey (Client.id a) userId) else array []))
              s0) as [rest Hrest]; [done..|].
  exists rest. rewrite Hrest. rewrite !Hstr by (by direct_frame).
  by rewrite Hty.
Qed.

(** The operator selects Bob; both are connected. *)
Lemma without_lanes_chatStarted_is_sent_witness :
  let s := run (opJoins ++ bobJoins) init in
  (∃ rest,
     wire (Direct.handleSelectUser 0 (Some "b") s)
     = wire s ++
       send 0 (chatStarted (Peer.mk "b" "Bob" "user") (array [])) ::
       send 1 (chatStarted (Peer.mk "a" "Op" "admin") (array [])) :: rest) ∧
  wire (handleSelectUser 0 (Some "b") s) = wire s.
Proof.
  intros s.
  apply (without_lanes_chatStarted_is_sent 0 "b"
           (Client.mk "b" 1 "Bob" "user") (Client.mk "a" 0 "Op" "admin") s);
    reflexivity.
Defined.

(** X22.  In the broker without lanes, when a connection with role
    [admin] disconnects, [chatEnded] is handed to the transport for
    every connection that has an entry in the pairings and can be
    reached, within the handler; in the broker with lanes the handler
    hands nothing to the transport. *)
Theorem without_lanes_chatEnded_is_sent cid c s :
  cid ≠ "" → JsMap.get cid (clients s) = Some c → Client.type c = "admin" →
  (∀ u cu, u ∈ JsMap.keys (activeChats s) → u ≠ cid →
           JsMap.get u (clients s) = Some cu →
           isOpen (Client.ws cu) s = true →
           send (Client.ws cu) (chatEnded None)
           ∈ wire (Direct.handleDisconnect (Some cid) s)) ∧
  wire (handleDisconnect (Some cid) s) = wire s.
Proof.
  intros Hcid Hc Hty. split; [|apply handleDisconnect_wire].
  intros u cu Hu Hne Hcu Hou.
  unfold Direct.handleDisconnect. cbv zeta. cbn [truthy].
  rewrite bool_decide_eq_true_2 by done. rewrite Hc.
  rewrite decide_True by done.
  cbn [wire set_clients activeChats set_adminClient].
  eapply grows_elem.
  { apply grows_foldl. intros. apply grows_resetPosition. }
  cbn [wire set_userQueue set_activeChats].
  apply (direct_foldl_sends (λ _, chatEnded None) (λ x, x ≠ cid)
           (JsMap.keys (activeChats s)) u cu (set_adminClient None s));
    done.
Qed.

(** The operator is paired with Bob and disconnects. *)
Lemma without_lanes_chatEnded_is_sent_witness :
  let s :=
    run (opJoins ++ bobJoins ++ [frame0 0 (selectUser (Some "b"))]) init in
  send 1 (chatEnded None) ∈ wire (Direct.handleDisconnect (Some "a") s) ∧
  wire (handleDisconnect (Some "a") s) = wire s.
Proof.
  intros s.
  destruct (without_lanes_chatEnded_is_sent "a"
              (Client.mk "a" 0 "Op" "admin") s) as [Hsent Hnone];
    [done|reflexivity|reflexivity|].
  split; [|exact Hnone].
  apply (Hsent "b" (Client.mk "b" 1 "Bob" "user")); [|done|reflexivity..].
  vm_compute. apply list_elem_of_here.
Defined.

(** ** The directory of [src/server.js] *)

Lemma server_broadcast_frame data s :
  Server.users (Server.broadcast data s) = Server.users s ∧
  Server.sockets (Server.broadcast data s) = Server.sockets s.
Proof.
  unfold Server.broadcast. generalize (JsMap.values (Server.users s)).
  intros l. revert s. induction l as [|ws l IH]; intros s; simpl; [done|].
  destruct (IH (Server.wsSend ws data s)) as [-> ->]. done.
Qed.

Lemma server_register_fields ws name s :
  let s' := Server.step (Server.onMessage ws (Server.register name)) s in
  Server.users s' = JsMap.set name ws (Server.users s) ∧
  Server.sockets s'
  = alter (λ k, Signaling.Socket.mk (Signaling.Socket.readyState k)
                                    (Some name)) ws (Server.sockets s).
Proof.
  intros s'. unfold s'. cbn [Server.step Server.handleMessage]. cbv zeta.
  match goal with
  | |- context [Server.broadcast ?d ?x] =>
      destruct (server_broadcast_frame d x) as [-> ->]
  end.
  done.
Qed.

Lemma server_close_fields ws name s :
  Server.usernameOf ws s = Some name → name ≠ "" →
  let s' := Server.step (Server.onClose ws) s in
  Server.users s' = JsMap.delete name (Server.users s) ∧
  Server.sockets s' = alter Signaling.closed ws (Server.sockets s).
Proof.
  intros Hname Hne s'. unfold s'. cbn [Server.step]. unfold Server.handleClose.
  cbv zeta.
  assert (Server.usernameOf ws
            (Server.set_sockets (alter Signaling.closed ws) s)
          = Some name) as ->.
  { unfold Server.usernameOf in *. simpl. rewrite lookup_alter_eq.
    by destruct (Server.sockets s !! ws). }
  rewrite bool_decide_eq_true_2 by done.
  match goal with
  | |- context [Server.broadcast ?d ?x] =>
      destruct (server_broadcast_frame d x) as [-> ->]
  end.
  done.
Qed.



(** X24.  [src/server.js]: a socket answers for its last name only.
    When a socket registers under a name, then under a second name that
    is not empty, and closes, the second name is deleted and the first
    one stays in the directory, mapped to the closed socket. *)
Theorem server_first_name_stays ws n1 n2 s :
  n1 ≠ n2 → n2 ≠ "" → is_Some (Server.sockets s !! ws) →
  let s' :=
    Server.run
      [Server.onMessage ws (Server.register n1);
       Server.onMessage ws (Server.register n2);
       Server.onClose ws] s in
  JsMap.get n1 (Server.users s') = Some ws ∧
  JsMap.get n2 (Server.users s') = None ∧
  Signaling.Socket.readyState <$> Server.sockets s' !! ws = Some CLOSED.
Proof.
  intros Hne Hn2 [k Hk] s'. unfold s'. cbn [Server.run foldl].
  set (s1 := Server.step (Server.onMessage ws (Server.register n1)) s).
  set (s2 := Server.step (Server.onMessage ws (Server.register n2)) s1).
  destruct (server_register_fields ws n1 s) as [Hu1 Hso1]. fold s1 in Hu1, Hso1.
  destruct (server_register_fields ws n2 s1) as [Hu2 Hso2].
  fold s2 in Hu2, Hso2.
  assert (Server.usernameOf ws s2 = Some n2) as Hname.
  { unfold Server.usernameOf. rewrite Hso2, lookup_alter_eq.
    by rewrite Hso1, lookup_alter_eq, Hk. }
  destruct (server_close_fields ws n2 s2 Hname Hn2) as [-> ->].
  split_and!.
  - rewrite get_delete_ne by done. rewrite Hu2, get_set_ne by done.
    rewrite Hu1. apply get_set_eq.
  - apply get_delete_eq.
  - rewrite lookup_alter_eq, Hso2, lookup_alter_eq, Hso1, lookup_alter_eq, Hk.
    done.
Qed.

(** A client registers as "al" and then as "alice" and goes away. *)
Lemma server_first_name_stays_witness :
  let s' :=
    Server.run
      [Server.onConnection 0;
       Server.onMessage 0 (Server.register "al");
       Server.onMessage 0 (Server.register "alice");
       Server.onClose 0] Server.init in
  JsMap.get "al" (Server.users s') = Some 0 ∧
  JsMap.get "alice" (Server.users s') = None.
Proof.
  intros s'.
  destruct (server_first_name_stays 0 "al" "alice"
              (Server.step (Server.onConnection 0) Server.init))
    as (H1 & H2 & _); [done|done|by eexists|].
  split; [exact H1|exact H2].
Defined.

(** ** The lobby *)

Lemma lobby_broadcast_fold (m : Lobby.Message) l s :
  let s' :=
    foldl (λ (s : Lobby.state) (client : nat * ReadyState),
             if bool_decide (client.2 = OPEN)
             then Lobby.wsSend client.1 m s else s) s l in
  Lobby.users s' = Lobby.users s ∧ Lobby.sockets s' = Lobby.sockets s ∧
  ∃ calls, Lobby.wire s' = Lobby.wire s ++ calls ∧
           ∀ c, c ∈ calls → ∃ ws, c = Lobby.send ws m.
Proof.
  cbv zeta. revert s. induction l as [|[ws r] l IH]; intros s; cbn [foldl].
  - split_and!; [done..|]. exists []. rewrite app_nil_r. split; [done|].
    by intros c ?%elem_of_nil.
  - match goal with
    | |- context [foldl _ ?x l] =>
        destruct (IH x) as (-> & -> & calls & -> & Hcalls)
    end.
    cbn [fst snd]. case_bool_decide; [|by eauto].
    split_and!; [done..|]. exists (Lobby.send ws m :: calls). simpl.
    rewrite <-app_assoc. split; [done|].
    intros c [->|Hc]%elem_of_cons; [by eexists|by apply Hcalls].
Qed.

Lemma lobby_broadcastUsers s :
  let s' := Lobby.broadcastUsers s in
  Lobby.users s' = Lobby.users s ∧ Lobby.sockets s' = Lobby.sockets s ∧
  ∃ calls, Lobby.wire s' = Lobby.wire s ++ calls ∧
           ∀ c, c ∈ calls → ∃ ws l, c = Lobby.send ws (Lobby.userlist l).
Proof.
  cbv zeta. unfold Lobby.broadcastUsers. cbv zeta.
  destruct (lobby_broadcast_fold
              (Lobby.userlist (Lobby.listed <$> Lobby.users s))
              (Lobby.sockets s) s) as (Hu & Hso & calls & Hw & Hcalls).
  split_and!; [done..|]. exists calls. split; [done|].
  intros c [ws ->]%Hcalls. by eexists _, _.
Qed.

Lemma lobby_relay_fold room fromId body l s :
  let s' :=
    foldl (λ (s : Lobby.state) (entry : string * Lobby.User.t),
             if bool_decide (Lobby.User.room entry.2 = room) &&
                bool_decide (Some entry.1 ≠ fromId)
             then Lobby.wsSend (Lobby.User.ws entry.2)
                    (Lobby.relayed room fromId body) s
             else s) s l in
  Lobby.users s' = Lobby.users s ∧ Lobby.sockets s' = Lobby.sockets s ∧
  Lobby.wire s' = Lobby.wire s ++ omap (relayFor room fromId body) l.
Proof.
  cbv zeta. revert s. induction l as [|e l IH]; intros s; cbn [foldl].
  - by rewrite app_nil_r.
  - match goal with
    | |- context [foldl _ ?x l] => destruct (IH x) as (-> & -> & ->)
    end.
    unfold relayFor at 2. cbn [omap list_omap].
    fold (relayFor room fromId body).
    destruct (bool_decide _ && bool_decide _); simpl; [|done].
    by rewrite <-app_assoc.
Qed.

Lemma delete_middle {V} (k : string) (v : V) pre post :
  k ∉ JsMap.keys pre → k ∉ JsMap.keys post →
  JsMap.delete k (pre ++ (k, v) :: post) = pre ++ post.
Proof.
  unfold JsMap.keys. intros Hpre Hpost.
  induction pre as [|[k' v'] pre IH]; simpl in *.
  - rewrite decide_True by done. clear Hpre.
    induction post as [|[k' v'] post IH]; simpl in *; [done|].
    apply not_elem_of_cons in Hpost as [Hne Hpost].
    rewrite decide_False by done. f_equal. by apply IH.
  - apply not_elem_of_cons in Hpre as [Hne Hpre].
    rewrite decide_False by done. f_equal. by apply IH.
Qed.

Lemma lobby_close_fold ws pre l (s : Lobby.state) :
  Lobby.users s = pre ++ l → NoDup (JsMap.keys (pre ++ l)) →
  Lobby.users
    (foldl (λ (s : Lobby.state) (entry : string * Lobby.User.t),
              if bool_decide (Lobby.User.ws entry.2 = ws) then
                Lobby.broadcastUsers
                  (Lobby.set_users (JsMap.delete entry.1) s)
              else s) s l)
  = pre ++ filter (λ e, Lobby.User.ws e.2 ≠ ws) l.
Proof.
  revert pre s. induction l as [|[k u] l IH]; intros pre s Hs Hnd;
    cbn [foldl].
  - by rewrite filter_nil.
  - rewrite filter_cons. cbn [fst snd]. case_bool_decide as Hws.
    + rewrite decide_False by (by intros ?).
      apply IH.
      * destruct (lobby_broadcastUsers
                    (Lobby.set_users (JsMap.delete k) s)) as (-> & _).
        simpl. rewrite Hs. unfold JsMap.keys in Hnd.
        rewrite fmap_app, fmap_cons in Hnd.
        apply NoDup_app in Hnd as (_ & Hdisj & [Hk _]%NoDup_cons).
        apply delete_middle; [|done].
        intros Hin. apply (Hdisj k Hin). simpl. left.
      * unfold JsMap.keys in *. rewrite fmap_app, fmap_cons in Hnd.
        rewrite fmap_app. apply NoDup_app in Hnd as (Hp & Hdisj & Hl).
        apply NoDup_cons in Hl as [_ Hl]. apply NoDup_app.
        split_and!; [done| |done].
        intros x Hx Hx'. apply (Hdisj x Hx). by right.
    + rewrite decide_True by done.
      rewrite (cons_middle (k, u) pre). rewrite app_assoc.
      apply IH; by rewrite <-app_assoc.
Qed.

(** X25.  Lobby: the room of a [connect-request] is named after the
    user alone.  The objects of [users] have no [id], so the name that
    the operator and the user get is "undefined-" followed by the
    identifier of the user, whoever the operator is and whichever
    socket sent the frame; the [connect-response] for the user carries
    this name and no identifier of the operator. *)
Theorem lobby_room_named_after_user ws fromId toId from to s :
  JsMap.get fromId (Lobby.users s) = Some from →
  Lobby.User.role from = "admin" →
  JsMap.get toId (Lobby.users s) = Some to →
  Lobby.User.role to = "user" →
  let s' :=
    Lobby.step
      (Lobby.onMessage ws (Lobby.connectRequest (Some fromId) (Some toId)))
      s in
  let room := "undefined-" +:+ toId in
  JsMap.get fromId (Lobby.users s') = Some (Lobby.setRoom room from) ∧
  JsMap.get toId (Lobby.users s') = Some (Lobby.setRoom room to) ∧
  (∀ k, k ≠ fromId → k ≠ toId →
        JsMap.get k (Lobby.users s') = JsMap.get k (Lobby.users s)) ∧
  ∃ calls,
    Lobby.wire s'
    = Lobby.wire s ++
      Lobby.send (Lobby.User.ws to) (Lobby.connectResponse room) :: calls ∧
    ∀ c, c ∈ calls → ∃ w l, c = Lobby.send w (Lobby.userlist l).
Proof.
  intros Hf Hrf Ht Hrt s' room.
  assert (fromId ≠ toId) as Hne by (intros ->; congruence).
  unfold s'. cbn [Lobby.step Lobby.handleMessage].
  unfold Lobby.handleConnectRequest. rewrite Hf, Ht. cbv zeta.
  rewrite !bool_decide_eq_true_2 by done. cbn [andb].
  match goal with
  | |- context [Lobby.broadcastUsers ?x] =>
      destruct (lobby_broadcastUsers x) as (-> & _ & calls & -> & Hcalls)
  end.
  simpl. split_and!.
  - rewrite get_set_ne by done. apply get_set_eq.
  - apply get_set_eq.
  - intros k Hk1 Hk2. by rewrite !get_set_ne by done.
  - exists calls. split; [|done]. by rewrite <-app_assoc.
Qed.

(** Both operators ask for a room with "u": both are put in the room
    "undefined-u". *)
Lemma lobby_room_named_after_user_witness :
  let s := Lobby.run lobbyRegisters Lobby.init in
  let s' :=
    Lobby.run
      [Lobby.onMessage 0 (Lobby.connectRequest (Some "o1") (Some "u"));
       Lobby.onMessage 1 (Lobby.connectRequest (Some "o2") (Some "u"))] s in
  Lobby.User.room <$> JsMap.get "o1" (Lobby.users s')
  = Some (Some "undefined-u") ∧
  Lobby.User.room <$> JsMap.get "o2" (Lobby.users s')
  = Some (Some "undefined-u").
Proof.
  intros s s'. split; [reflexivity|].
  destruct (lobby_room_named_after_user 1 "o2" "u"
              (Lobby.User.mk 1 "Op2" "admin" None)
              (Lobby.User.mk 2 "Uma" "user" (Some "undefined-u"))
              (Lobby.step
                 (Lobby.onMessage 0
                    (Lobby.connectRequest (Some "o1") (Some "u"))) s))
    as (Hfrom & _); [reflexivity..|].
  unfold s'. cbn [Lobby.run foldl]. by rewrite Hfrom.
Defined.

(** X26.  Lobby: a [webrtc] frame with a room is passed on, as it is,
    to the socket of every entry of [users] whose room is the room of
    the frame, the entry under the [fromId] of the frame apart, in the
    order of registration, and to nobody else; the sender need not be
    in the room. *)
Theorem lobby_webrtc_relay ws room fromId body s :
  truthy room = true →
  let s' :=
    Lobby.step (Lobby.onMessage ws (Lobby.webrtc room fromId body)) s in
  Lobby.users s' = Lobby.users s ∧
  Lobby.wire s'
  = Lobby.wire s ++ omap (relayFor room fromId body) (Lobby.users s) ∧
  (∀ k u, JsMap.get k (Lobby.users s) = Some u →
          Lobby.User.room u = room → Some k ≠ fromId →
          Lobby.send (Lobby.User.ws u) (Lobby.relayed room fromId body)
          ∈ Lobby.wire s') ∧
  (∀ c, c ∈ omap (relayFor room fromId body) (Lobby.users s) →
        ∃ k u, (k, u) ∈ Lobby.users s ∧ Lobby.User.room u = room ∧
               Some k ≠ fromId ∧
               c = Lobby.send (Lobby.User.ws u)
                     (Lobby.relayed room fromId body)).
Proof.
  intros Hroom s'. unfold s'. cbn [Lobby.step Lobby.handleMessage].
  unfold Lobby.handleWebrtc. rewrite Hroom.
  destruct (lobby_relay_fold room fromId body (Lobby.users s) s)
    as (Hu & _ & Hw).
  cbv zeta in Hu, Hw. rewrite Hu, Hw. split_and!; [done..| |].
  - intros k u Hk Hr Hne. apply elem_of_app. right.
    apply list_elem_of_omap. exists (k, u).
    split; [by apply get_Some_elem|]. unfold relayFor. simpl.
    by rewrite !bool_decide_eq_true_2.
  - intros c ([k u] & Hin & Hc)%list_elem_of_omap. unfold relayFor in Hc.
    simpl in Hc. exists k, u.
    destruct (bool_decide (Lobby.User.room u = room)) eqn:Hr; [|done].
    destruct (bool_decide (Some k ≠ fromId)) eqn:Hk; [|done].
    apply bool_decide_eq_true in Hr, Hk. simpl in Hc.
    split_and!; [done..|]. congruence.
Qed.

(** After both operators have asked for a room with "u", a frame of
    "o1" for the room "undefined-u" goes to "o2" as well. *)
Lemma lobby_webrtc_relay_witness :
  let s :=
    Lobby.run
      (lobbyRegisters ++
       [Lobby.onMessage 0 (Lobby.connectRequest (Some "o1") (Some "u"));
        Lobby.onMessage 1 (Lobby.connectRequest (Some "o2") (Some "u"))])
      Lobby.init in
  let frame := Lobby.webrtc (Some "undefined-u") (Some "o1") "sdp" in
  Lobby.wire (Lobby.step (Lobby.onMessage 0 frame) s)
  = Lobby.wire s ++
    [Lobby.send 1 (Lobby.relayed (Some "undefined-u") (Some "o1") "sdp");
     Lobby.send 2 (Lobby.relayed (Some "undefined-u") (Some "o1") "sdp")].
Proof.
  intros s frame.
  destruct (lobby_webrtc_relay 0 (Some "undefined-u") (Some "o1") "sdp" s)
    as (_ & Hw & _); [reflexivity|].
  etrans; [exact Hw|reflexivity].
Defined.

(** X27.  Lobby: when a socket closes, every entry of [users] that
    holds the socket is deleted, however many identifiers the socket
    registered, and the other entries stay as they are and in their
    order (the keys of [users] being distinct, as those of a [Map]
    are). *)
Theorem lobby_close_removes_entries ws s :
  NoDup (JsMap.keys (Lobby.users s)) →
  Lobby.users (Lobby.step (Lobby.onClose ws) s)
  = filter (λ e, Lobby.User.ws e.2 ≠ ws) (Lobby.users s).
Proof.
  intros Hnd. cbn [Lobby.step]. unfold Lobby.handleClose. cbv zeta.
  by apply (lobby_close_fold ws [] (Lobby.users s)).
Qed.

(** A socket registers as "u" and as "v" and closes. *)
Lemma lobby_close_removes_entries_witness :
  let s :=
    Lobby.run
      (lobbyRegisters ++ [Lobby.onMessage 2 (Lobby.register "v" "Vic" "user")])
      Lobby.init in
  JsMap.keys (Lobby.users s) = ["o1"; "o2"; "u"; "v"] ∧
  JsMap.keys (Lobby.users (Lobby.step (Lobby.onClose 2) s)) = ["o1"; "o2"].
Proof.
  intros s. split; [reflexivity|].
  rewrite (lobby_close_removes_entries 2 s); [reflexivity|].
  apply (bool_decide_unpack _). vm_compute. exact I.
Defined.

(** ** The room server *)

Lemma rooms_sendToClient_core k m s :
  roomsCore (Rooms.sendToClient k m s) = roomsCore s.
Proof. unfold Rooms.sendToClient. by repeat case_match. Qed.

Lemma rooms_core_fields s s' :
  roomsCore s' = roomsCore s →
  Rooms.rooms s' = Rooms.rooms s ∧ Rooms.clients s' = Rooms.clients s ∧
  Rooms.sockets s' = Rooms.sockets s.
Proof. unfold roomsCore. by intros [= -> -> ->]. Qed.

Lemma rooms_getRoomUsers_core rid s s' :
  roomsCore s' = roomsCore s →
  Rooms.getRoomUsers rid s' = Rooms.getRoomUsers rid s.
Proof.
  intros (Hr & Hc & _)%rooms_core_fields. unfold Rooms.getRoomUsers.
  by rewrite Hr, Hc.
Qed.

Lemma rooms_updateAdminUserList_core rid s s' :
  Rooms.updateAdminUserList rid s = Some s' → roomsCore s' = roomsCore s.
Proof.
  unfold Rooms.updateAdminUserList.
  destruct (JsMap.get rid (Rooms.rooms s)) as [room|]; [|by intros [= <-]].
  case_bool_decide; [|by intros [= <-]].
  destruct (Rooms.getRoomUsers rid s); simpl; [|done].
  intros [= <-]. apply rooms_sendToClient_core.
Qed.

Lemma rooms_caught_core rid s :
  roomsCore (Rooms.caught s (Rooms.updateAdminUserList rid s)) = roomsCore s.
Proof.
  unfold Rooms.caught.
  destruct (Rooms.updateAdminUserList rid s) as [s'|] eqn:Hs'; [|done].
  by apply rooms_updateAdminUserList_core in Hs'.
Qed.

Lemma rooms_updateRoom_get rid f s rid' :
  JsMap.get rid' (Rooms.rooms (Rooms.updateRoom rid f s))
  = if decide (rid' = rid) then f <$> JsMap.get rid (Rooms.rooms s)
    else JsMap.get rid' (Rooms.rooms s).
Proof.
  unfold Rooms.updateRoom.
  destruct (JsMap.get rid (Rooms.rooms s)) as [room|] eqn:Hroom; simpl.
  - destruct (decide (rid' = rid)) as [->|Hne].
    + by rewrite get_set_eq.
    + by rewrite get_set_ne.
  - destruct (decide (rid' = rid)) as [->|Hne]; by rewrite ?Hroom.
Qed.

Lemma rooms_updateRoom_frame rid f s :
  Rooms.clients (Rooms.updateRoom rid f s) = Rooms.clients s ∧
  Rooms.sockets (Rooms.updateRoom rid f s) = Rooms.sockets s ∧
  Rooms.wire (Rooms.updateRoom rid f s) = Rooms.wire s.
Proof. unfold Rooms.updateRoom. by case_match. Qed.

Lemma members_ok_core s s' :
  roomsCore s' = roomsCore s → members_ok s → members_ok s'.
Proof.
  intros (Hr & Hc & _)%rooms_core_fields. unfold members_ok.
  by rewrite Hr, Hc.
Qed.

(** An update of a room that keeps its members. *)
Lemma members_ok_updateRoom rid f s :
  (∀ room, Rooms.Room.users (f room) = Rooms.Room.users room) →
  members_ok s → members_ok (Rooms.updateRoom rid f s).
Proof.
  intros Hf Hs rid' room'. rewrite rooms_updateRoom_get.
  destruct (rooms_updateRoom_frame rid f s) as (-> & _).
  destruct (decide (rid' = rid)) as [->|Hne]; [|apply Hs].
  destruct (JsMap.get rid (Rooms.rooms s)) as [room|] eqn:Hroom; [|done].
  simpl. intros [= <-]. rewrite Hf. by apply Hs.
Qed.

Lemma rooms_getRoomUsers_ok rid s :
  members_ok s → is_Some (Rooms.getRoomUsers rid s).
Proof.
  intros Hs. unfold Rooms.getRoomUsers.
  destruct (JsMap.get rid (Rooms.rooms s)) as [room|] eqn:Hroom; [|done].
  apply mapM_is_Some, Forall_forall. intros u Hu.
  destruct (Hs rid room Hroom) as [_ Hmem].
  destruct (Hmem u Hu) as (c & Hc & _). simpl. rewrite Hc. by eexists.
Qed.

Lemma rooms_updateAdminUserList_ok rid s :
  members_ok s → is_Some (Rooms.updateAdminUserList rid s).
Proof.
  intros Hs. unfold Rooms.updateAdminUserList.
  destruct (JsMap.get rid (Rooms.rooms s)); [|done].
  case_bool_decide; [|done].
  destruct (rooms_getRoomUsers_ok rid s Hs) as [l ->]. by eexists.
Qed.

Ltac rooms_ok_step :=
  match goal with
  | H : members_ok ?s |- members_ok ?s => exact H
  | |- members_ok (Rooms.caught ?s (Rooms.updateAdminUserList _ ?s)) =>
      apply (members_ok_core s); [apply rooms_caught_core|]
  | |- members_ok (Rooms.sendToClient _ _ ?s) =>
      apply (members_ok_core s); [apply rooms_sendToClient_core|]
  | |- members_ok (Rooms.wsSend _ _ ?s) =>
      apply (members_ok_core s); [done|]
  | |- members_ok (Rooms.updateRoom _ (Rooms.set_activeChats _) _) =>
      apply members_ok_updateRoom; [done|]
  | |- members_ok (Rooms.updateRoom _ (Rooms.set_chatHistory _) _) =>
      apply members_ok_updateRoom; [done|]
  | |- members_ok (match ?x with _ => _ end) => destruct x eqn:?
  end.

Ltac rooms_ok := cbv zeta; repeat rooms_ok_step.

Lemma members_ok_register newId c s :
  JsMap.get newId (Rooms.clients s) = None →
  members_ok s → members_ok (Rooms.set_clients (JsMap.set newId c) s).
Proof.
  intros Hfresh Hs rid room Hroom. destruct (Hs rid room Hroom) as [Hnd Hmem].
  split; [done|]. intros u Hu. destruct (Hmem u Hu) as (cu & Hcu & Hrest).
  exists cu. split; [|done]. simpl. rewrite get_set_ne; [done|].
  intros ->. congruence.
Qed.

Lemma rooms_handleCreateRoom_ok ws password origin username port rid newId s :
  JsMap.get newId (Rooms.clients s) = None →
  members_ok s →
  members_ok (Rooms.handleCreateRoom ws password origin username port rid
                newId s).
Proof.
  intros Hfresh Hs. unfold Rooms.handleCreateRoom.
  case_bool_decide; rooms_ok.
  apply members_ok_register; [done|].
  intros rid' room'. simpl. destruct (decide (rid = rid')) as [<-|Hne].
  - rewrite get_set_eq. intros [= <-]. simpl. split; [apply NoDup_nil_2|].
    by intros u ?%elem_of_nil.
  - rewrite get_set_ne by done. apply Hs.
Qed.

Lemma rooms_handleJoinRoom_ok ws roomId username newId s :
  JsMap.get newId (Rooms.clients s) = None →
  members_ok s →
  members_ok (Rooms.handleJoinRoom ws roomId username newId s).
Proof.
  intros Hfresh Hs. unfold Rooms.handleJoinRoom. cbv zeta.
  destruct roomId as [rid|]; [|rooms_ok].
  destruct (JsMap.get rid (Rooms.rooms s)) as [room|] eqn:Hroom; [|rooms_ok].
  rooms_ok.
  intros rid' room'. simpl. rewrite rooms_updateRoom_get.
  destruct (rooms_updateRoom_frame rid
              (Rooms.set_users (λ l, l ++ [newId]))
              (Rooms.set_sockets (alter (Rooms.setClientId newId) ws) s))
    as (-> & _).
  simpl. destruct (decide (rid' = rid)) as [->|Hne].
  - rewrite Hroom. simpl. intros [= <-]. simpl.
    destruct (Hs rid room Hroom) as [Hnd Hmem]. split.
    + apply NoDup_app. split_and!; [done| |apply NoDup_singleton].
      intros u Hu ->%list_elem_of_singleton.
      destruct (Hmem newId Hu) as (c & Hc & _). congruence.
    + intros u [Hu| ->%list_elem_of_singleton]%elem_of_app.
      * destruct (Hmem u Hu) as (c & Hc & Hrest). exists c.
        split; [|done]. rewrite get_set_ne; [done|]. intros ->. congruence.
      * eexists. by rewrite get_set_eq.
  - intros Hroom'. destruct (Hs rid' room' Hroom') as [Hnd Hmem].
    split; [done|]. intros u Hu. destruct (Hmem u Hu) as (c & Hc & Hrest).
    exists c. split; [|done]. rewrite get_set_ne; [done|].
    intros ->. congruence.
Qed.

Lemma rooms_handleMessage_ok ws data o s :
  Rooms.enabled (Rooms.onMessage ws data o) s = true →
  members_ok s → members_ok (Rooms.handleMessage ws data o s).
Proof.
  intros He Hs.
  assert ((∀ p og u, data ≠ Rooms.createRoom p og u) ∧
          (∀ r u, data ≠ Rooms.joinRoom r u) ∨
          JsMap.get (Rooms.generateClientId o) (Rooms.clients s) = None)
    as Hfresh.
  { simpl in He. apply andb_true_iff in He as [_ He].
    destruct data; try (by left);
      apply andb_true_iff in He as [_ He%negb_true_iff];
      right; by apply has_false in He. }
  destruct data; cbn [Rooms.handleMessage].
  - destruct Hfresh as [[H _]|Hfresh]; [by destruct (H password origin username)|].
    by apply rooms_handleCreateRoom_ok.
  - destruct Hfresh as [[_ H]|Hfresh]; [by destruct (H roomId username)|].
    by apply rooms_handleJoinRoom_ok.
  - unfold Rooms.handleSelectUser. rooms_ok.
  - unfold Rooms.handleChatMessage. rooms_ok.
  - unfold Rooms.handleEndChat. rooms_ok.
    all: apply members_ok_updateRoom; [by destruct (decide _)|].
    all: rooms_ok.
  - unfold Rooms.handleWebRTC. rooms_ok.
  - done.
Qed.

Lemma rooms_sendToClient_wire k m s :
  Rooms.wire (Rooms.sendToClient k m s)
  = Rooms.wire s ++ option_list (roomsCall m s k).
Proof.
  unfold Rooms.sendToClient, roomsCall.
  destruct (JsMap.get k (Rooms.clients s)) as [c|]; simpl;
    [|by rewrite app_nil_r].
  destruct (Rooms.isOpen (Rooms.Client.ws c) s); simpl;
    [done|by rewrite app_nil_r].
Qed.

Lemma roomsCall_core m s s' k :
  roomsCore s' = roomsCore s → roomsCall m s' k = roomsCall m s k.
Proof.
  intros (_ & Hc & Hso)%rooms_core_fields.
  unfold roomsCall, Rooms.isOpen, Rooms.readyStateOf. by rewrite Hc, Hso.
Qed.

Lemma rooms_notify_fold m l s :
  roomsCore (foldl (λ s u, Rooms.sendToClient u m s) s l) = roomsCore s ∧
  Rooms.wire (foldl (λ s u, Rooms.sendToClient u m s) s l)
  = Rooms.wire s ++ omap (roomsCall m s) l.
Proof.
  revert s. induction l as [|u l IH]; intros s; simpl.
  - by rewrite app_nil_r.
  - destruct (IH (Rooms.sendToClient u m s)) as [Hcore Hwire].
    pose proof (rooms_sendToClient_core u m s) as Hu.
    split; [by rewrite Hcore|].
    rewrite Hwire, rooms_sendToClient_wire, <- app_assoc. f_equal.
    replace (omap (roomsCall m (Rooms.sendToClient u m s)) l)
      with (omap (roomsCall m s) l).
    + by destruct (roomsCall m s u).
    + apply list_omap_ext, Forall2_same_length_lookup_2; [done|].
      intros i x y Hx Hy. assert (x = y) as -> by congruence.
      symmetry. by apply roomsCall_core.
Qed.

Lemma members_ok_unregister cid client s :
  JsMap.get cid (Rooms.clients s) = Some client →
  (∀ room, JsMap.get (Rooms.Client.roomId client) (Rooms.rooms s) = Some room →
           Rooms.Client.type client = "user" → cid ∉ Rooms.Room.users room) →
  members_ok s → members_ok (Rooms.set_clients (JsMap.delete cid) s).
Proof.
  intros Hc Hout Hs rid room Hroom. simpl in Hroom.
  destruct (Hs rid room Hroom) as [Hnd Hmem].
  split; [done|]. intros u Hu. destruct (Hmem u Hu) as (cu & Hcu & Hty & Hrid).
  exists cu. split; [|done]. simpl. rewrite get_delete_ne; [done|].
  intros <-. assert (cu = client) as -> by congruence.
  apply (Hout room); [congruence..|done].
Qed.

Lemma rooms_handleDisconnect_ok clientId s :
  members_ok s →
  ∃ s', Rooms.handleDisconnect clientId s = Some s' ∧ members_ok s'.
Proof.
  intros Hs. unfold Rooms.handleDisconnect.
  destruct clientId as [cid|]; [|by eexists].
  destruct (truthy (Some cid)); [|by eexists].
  destruct (JsMap.get cid (Rooms.clients s)) as [client|] eqn:Hc;
    [|by eexists].
  cbv zeta.
  destruct (JsMap.get (Rooms.Client.roomId client) (Rooms.rooms s))
    as [room|] eqn:Hroom.
  - destruct (decide (Rooms.Client.type client = "admin")) as [Hadm|Huser].
    + destruct (rooms_notify_fold (Rooms.roomClosed "Admin left the room")
                  (Rooms.Room.users room) s) as [Hcore _].
      apply rooms_core_fields in Hcore as (Hr & Hcl & _).
      revert Hr Hcl.
      generalize (foldl (λ s u, Rooms.sendToClient u
                                  (Rooms.roomClosed "Admin left the room") s)
                        s (Rooms.Room.users room)).
      intros sf Hr Hcl. simpl. eexists. split; [done|].
      apply (members_ok_unregister cid client).
      * simpl. rewrite Hcl. exact Hc.
      * intros ? _ Hty. congruence.
      * intros rid room'. simpl. rewrite Hr, Hcl.
        intros [_ Hroom']%get_delete_Some. by apply Hs.
    + set (s1 := Rooms.updateRoom _ (Rooms.set_users _) s).
      assert (members_ok s1 ∧
              (∀ room', JsMap.get (Rooms.Client.roomId client) (Rooms.rooms s1)
                        = Some room' → cid ∉ Rooms.Room.users room') ∧
              Rooms.clients s1 = Rooms.clients s) as (Hs1 & Hout & Hcl1).
      { destruct (rooms_updateRoom_frame (Rooms.Client.roomId client)
                    (Rooms.set_users (spliceOut cid)) s) as (Hcl & _).
        destruct (Hs _ room Hroom) as [Hnd Hmem].
        split_and!; [| |exact Hcl].
        - intros rid room'. unfold s1. rewrite rooms_updateRoom_get, Hcl.
          destruct (decide (rid = Rooms.Client.roomId client)) as [->|Hne];
            [|apply Hs].
          rewrite Hroom. simpl. intros [= <-]. simpl.
          split; [by apply NoDup_spliceOut|].
          intros u Hu%spliceOut_elem. by apply Hmem.
        - intros room'. unfold s1. rewrite rooms_updateRoom_get.
          rewrite decide_True by done. rewrite Hroom. simpl. intros [= <-].
          simpl. by apply spliceOut_NoDup_notin. }
      clearbody s1.
      set (s2 := match JsMap.get cid (Rooms.Room.activeChats room) with
                 | Some partner => _ | None => s1 end).
      assert (members_ok s2 ∧
              (∀ room', JsMap.get (Rooms.Client.roomId client) (Rooms.rooms s2)
                        = Some room' → cid ∉ Rooms.Room.users room') ∧
              Rooms.clients s2 = Rooms.clients s) as (Hs2 & Hout2 & Hcl2).
      { unfold s2.
        destruct (JsMap.get cid (Rooms.Room.activeChats room)) as [partner|];
          [|done].
        destruct (truthy (Some partner)); [|done].
        split_and!.
        - rooms_ok.
        - intros room'.
          destruct (rooms_core_fields _ _
                      (rooms_sendToClient_core partner Rooms.chatEnded
                         (Rooms.updateRoom (Rooms.Client.roomId client)
                            (Rooms.set_activeChats (JsMap.delete partner))
                            (Rooms.updateRoom (Rooms.Client.roomId client)
                               (Rooms.set_activeChats (JsMap.delete cid))
                               s1)))) as (-> & _).
          rewrite !rooms_updateRoom_get, !decide_True by done.
          destruct (JsMap.get (Rooms.Client.roomId client) (Rooms.rooms s1))
            as [r1|] eqn:Hr1; [|done].
          simpl. intros [= <-]. simpl. by apply Hout.
        - destruct (rooms_core_fields _ _
                      (rooms_sendToClient_core partner Rooms.chatEnded
                         (Rooms.updateRoom (Rooms.Client.roomId client)
                            (Rooms.set_activeChats (JsMap.delete partner))
                            (Rooms.updateRoom (Rooms.Client.roomId client)
                               (Rooms.set_activeChats (JsMap.delete cid))
                               s1)))) as (_ & -> & _).
          destruct (rooms_updateRoom_frame (Rooms.Client.roomId client)
                      (Rooms.set_activeChats (JsMap.delete partner))
                      (Rooms.updateRoom (Rooms.Client.roomId client)
                         (Rooms.set_activeChats (JsMap.delete cid)) s1))
            as (-> & _).
          destruct (rooms_updateRoom_frame (Rooms.Client.roomId client)
                      (Rooms.set_activeChats (JsMap.delete cid)) s1)
            as (-> & _).
          done. }
      clearbody s2.
      destruct (rooms_updateAdminUserList_ok (Rooms.Client.roomId client) s2
                  Hs2) as [s3 Hs3].
      rewrite Hs3. simpl. eexists. split; [done|].
      apply rooms_updateAdminUserList_core in Hs3.
      pose proof (rooms_core_fields _ _ Hs3) as (Hr3 & Hc3 & _).
      apply (members_ok_unregister cid client).
      * by rewrite Hc3, Hcl2.
      * intros room' Hroom' _. apply Hout2. by rewrite <- Hr3.
      * by apply (members_ok_core s2).
  - simpl. eexists. split; [done|].
    apply (members_ok_unregister cid client); [done| |done].
    intros room'. by rewrite Hroom.
Qed.

Lemma members_ok_sockets f s :
  members_ok s → members_ok (Rooms.set_sockets f s).
Proof. done. Qed.

Lemma rooms_step_ok e s :
  Rooms.enabled e s = true → members_ok s →
  ∃ s', Rooms.step e s = Some s' ∧ members_ok s'.
Proof.
  intros He Hs. destruct e as [ws|ws data o|ws]; cbn [Rooms.step].
  - eexists. split; [done|]. by apply members_ok_sockets.
  - eexists. split; [done|]. by apply rooms_handleMessage_ok.
  - by apply rooms_handleDisconnect_ok, members_ok_sockets.
Qed.

Lemma rooms_reachable_ok s : Rooms.reachable s → members_ok s.
Proof.
  induction 1 as [|e s s' _ IH He Hstep].
  - intros rid room. done.
  - destruct (rooms_step_ok e s He IH) as (s'' & Hs'' & Hok).
    by assert (s'' = s') as <- by congruence.
Qed.

Lemma rooms_reachable_run es s s' :
  Rooms.reachable s → Rooms.admissible es s = true →
  Rooms.run es s = Some s' → Rooms.reachable s'.
Proof.
  revert s. induction es as [|e es IH]; intros s Hs; simpl.
  - by intros _ [= <-].
  - intros [He Hes]%andb_true_iff.
    destruct (Rooms.step e s) as [s1|] eqn:Hstep; [|done]. simpl.
    apply IH; [|done]. by apply (Rooms.reachable_step e s).
Qed.

Lemma roomState_reachable : Rooms.reachable roomState.
Proof.
  apply (rooms_reachable_run roomOpened Rooms.init);
    [apply Rooms.reachable_init|by vm_compute|by vm_compute].
Qed.

Lemma rooms_sendToClient_grows k m s x :
  x ∈ Rooms.wire s → x ∈ Rooms.wire (Rooms.sendToClient k m s).
Proof.
  intros Hx. rewrite rooms_sendToClient_wire. apply elem_of_app. by left.
Qed.

Lemma rooms_caught_grows rid s x :
  x ∈ Rooms.wire s →
  x ∈ Rooms.wire (Rooms.caught s (Rooms.updateAdminUserList rid s)).
Proof.
  intros Hx. unfold Rooms.caught, Rooms.updateAdminUserList.
  destruct (JsMap.get rid (Rooms.rooms s)); [|done].
  case_bool_decide; [|done].
  destruct (Rooms.getRoomUsers rid s); [|done]. simpl.
  by apply rooms_sendToClient_grows.
Qed.

(** X28.  Room server: in every reachable state every member of every
    room has an entry of [clients], so [getRoomUsers] returns for every
    room identifier, and the [close] listener of every socket, where
    nothing catches an exception, ends without one. *)
Theorem rooms_listeners_return s ws rid :
  Rooms.reachable s →
  is_Some (Rooms.getRoomUsers rid s) ∧
  is_Some (Rooms.step (Rooms.onClose ws) s).
Proof.
  intros Hs%rooms_reachable_ok. split.
  - by apply rooms_getRoomUsers_ok.
  - destruct (rooms_handleDisconnect_ok (Rooms.closureClientId ws s)
                (Rooms.set_sockets (alter closed ws) s))
      as (s' & Hs' & _); [by apply members_ok_sockets|].
    cbn [Rooms.step]. rewrite Hs'. by eexists.
Qed.

Lemma rooms_listeners_return_witness :
  is_Some (Rooms.getRoomUsers "r1" roomState) ∧
  is_Some (Rooms.step (Rooms.onClose 2) roomState).
Proof.
  apply rooms_listeners_return. exact roomState_reachable.
Defined.

(** X29.  Room server: when the socket of the operator of a room
    closes, every member of the room whose socket is open is sent
    [roomClosed], in the order of [room.users], and the room and the
    operator's entry are deleted; the entries of the members stay in
    [clients], under a [roomId] that names no room any more. *)
Theorem operator_close_closes_room s ws cid client room :
  Rooms.reachable s →
  Rooms.closureClientId ws s = Some cid → cid ≠ "" →
  JsMap.get cid (Rooms.clients s) = Some client →
  Rooms.Client.type client = "admin" →
  JsMap.get (Rooms.Client.roomId client) (Rooms.rooms s) = Some room →
  ∃ s', Rooms.step (Rooms.onClose ws) s = Some s' ∧
    Rooms.rooms s'
    = JsMap.delete (Rooms.Client.roomId client) (Rooms.rooms s) ∧
    Rooms.clients s' = JsMap.delete cid (Rooms.clients s) ∧
    Rooms.wire s'
    = Rooms.wire s
      ++ omap (roomsCall (Rooms.roomClosed "Admin left the room")
                 (Rooms.set_sockets (alter closed ws) s))
              (Rooms.Room.users room) ∧
    ∀ u, u ∈ Rooms.Room.users room →
         ∃ c, JsMap.get u (Rooms.clients s') = Some c ∧
              JsMap.get (Rooms.Client.roomId c) (Rooms.rooms s') = None.
Proof.
  intros Hs%rooms_reachable_ok Hcid Hne Hc Hty Hroom.
  cbn [Rooms.step]. rewrite Hcid. unfold Rooms.handleDisconnect.
  assert (truthy (Some cid) = true) as -> by by destruct cid.
  cbn [Rooms.clients Rooms.rooms Rooms.set_sockets]. rewrite Hc, Hroom.
  cbv zeta. rewrite decide_True by done.
  destruct (rooms_notify_fold (Rooms.roomClosed "Admin left the room")
              (Rooms.Room.users room)
              (Rooms.set_sockets (alter closed ws) s)) as [Hcore Hwire].
  apply rooms_core_fields in Hcore as (Hr & Hcl & _).
  revert Hr Hcl Hwire.
  generalize (foldl (λ s u, Rooms.sendToClient u
                              (Rooms.roomClosed "Admin left the room") s)
                    (Rooms.set_sockets (alter closed ws) s)
                    (Rooms.Room.users room)).
  intros sf Hr Hcl Hwire. simpl in Hr, Hcl, Hwire. simpl.
  eexists. split; [done|]. simpl. rewrite Hr, Hcl, Hwire.
  split_and!; [done..|].
  intros u Hu. destruct (Hs _ room Hroom) as [_ Hmem].
  destruct (Hmem u Hu) as (c & Hcu & Htyu & Hrid).
  exists c. split.
  - rewrite get_delete_ne; [done|]. intros <-. congruence.
  - rewrite Hrid. apply get_delete_eq.
Qed.

Lemma operator_close_closes_room_witness :
  ∃ s', Rooms.step (Rooms.onClose 1) roomState = Some s' ∧
    Rooms.rooms s' = JsMap.delete "r1" (Rooms.rooms roomState) ∧
    Rooms.clients s' = JsMap.delete "a1" (Rooms.clients roomState) ∧
    Rooms.wire s'
    = Rooms.wire roomState
      ++ omap (roomsCall (Rooms.roomClosed "Admin left the room")
                 (Rooms.set_sockets (alter closed 1) roomState))
              ["u1"] ∧
    ∀ u, u ∈ ["u1"] →
         ∃ c, JsMap.get u (Rooms.clients s') = Some c ∧
              JsMap.get (Rooms.Client.roomId c) (Rooms.rooms s') = None.
Proof.
  apply (operator_close_closes_room roomState 1 "a1"
           (Rooms.Client.mk 1 "ann" "admin" "r1")
           (Rooms.Room.mk "a1" ["u1"] [] []));
    [exact roomState_reachable|vm_compute; reflexivity|done
    |vm_compute; reflexivity|reflexivity|vm_compute; reflexivity].
Defined.

(** X30.  Room server: what a user writes to the operator of the
    user's room is kept in the room's history under the key of the
    pair, and replayed: when the operator, on an open socket, then
    selects that user, the [chatStarted] that the operator is sent
    carries the history of the pair with the user's message at its
    end. *)
Theorem room_history_replayed s wsU wsA uid aid user admin room text o o' :
  Rooms.closureClientId wsU s = Some uid →
  Rooms.closureClientId wsA s = Some aid →
  JsMap.get uid (Rooms.clients s) = Some user →
  JsMap.get aid (Rooms.clients s) = Some admin →
  Rooms.Client.type user = "user" →
  Rooms.Client.type admin = "admin" →
  Rooms.Client.roomId user = Rooms.Client.roomId admin →
  JsMap.get (Rooms.Client.roomId admin) (Rooms.rooms s) = Some room →
  Rooms.isOpen (Rooms.Client.ws admin) s = true →
  Rooms.send (Rooms.Client.ws admin)
    (Rooms.chatStarted
       (Peer.mk uid (Rooms.Client.username user) "user")
       (default [] (JsMap.get (chatKey aid uid) (Rooms.Room.chatHistory room))
        ++ [Entry.mk (Rooms.Client.username user) text (Rooms.now o)]))
  ∈ Rooms.wire
      (Rooms.handleMessage wsA (Rooms.selectUser (Some uid)) o'
         (Rooms.handleMessage wsU (Rooms.chat (Some aid) text) o s)).
Proof.
  intros HcU HcA Hu Ha Htu Hta Hrid Hroom Hopen.
  cbn [Rooms.handleMessage].
  set (key := chatKey aid uid).
  set (entry := Entry.mk (Rooms.Client.username user) text (Rooms.now o)).
  set (room1 := Rooms.set_chatHistory
                  (λ h, JsMap.set key (default [] (JsMap.get key h) ++ [entry])
                          h) room).
  set (s0 := Rooms.set_rooms (JsMap.set (Rooms.Client.roomId admin) room1) s).
  assert (∃ s1, Rooms.handleChatMessage wsU (Some aid) text (Rooms.now o) s
                = s1 ∧ roomsCore s1 = roomsCore s0) as (s1 & -> & Hcore).
  { eexists. split; [done|]. unfold Rooms.handleChatMessage.
    rewrite HcU, Hu, Hrid, Hroom, Ha. cbv zeta.
    rewrite decide_False by (rewrite Htu; done).
    rewrite rooms_sendToClient_core. unfold Rooms.updateRoom.
    by rewrite Hroom. }
  apply rooms_core_fields in Hcore as (Hr & Hc & Hso).
  unfold Rooms.handleSelectUser, Rooms.closureClientId.
  rewrite Hso, Hc. fold (Rooms.closureClientId wsA s0).
  change (Rooms.closureClientId wsA s0) with (Rooms.closureClientId wsA s).
  change (Rooms.clients s0) with (Rooms.clients s).
  rewrite HcA, Ha, decide_True by done. rewrite Hr. unfold s0 at 1.
  cbn [Rooms.rooms Rooms.set_rooms]. rewrite get_set_eq, Hu.
  rewrite decide_True by done. cbv zeta.
  apply rooms_caught_grows, rooms_sendToClient_grows.
  rewrite rooms_sendToClient_wire. apply elem_of_app. right.
  unfold roomsCall.
  destruct (rooms_updateRoom_frame (Rooms.Client.roomId admin)
              (Rooms.set_activeChats (JsMap.set aid uid))
              (Rooms.updateRoom (Rooms.Client.roomId admin)
                 (Rooms.set_activeChats (JsMap.set uid aid)) s1))
    as (Hc2 & Hso2 & _).
  destruct (rooms_updateRoom_frame (Rooms.Client.roomId admin)
              (Rooms.set_activeChats (JsMap.set uid aid)) s1)
    as (Hc1 & Hso1 & _).
  unfold Rooms.isOpen, Rooms.readyStateOf.
  rewrite Hc2, Hso2, Hc1, Hso1, Hc, Hso.
  change (Rooms.clients s0) with (Rooms.clients s).
  change (Rooms.sockets s0) with (Rooms.sockets s).
  rewrite Ha. simpl. unfold Rooms.isOpen, Rooms.readyStateOf in Hopen.
  rewrite Hopen. simpl. rewrite get_set_eq, Htu. simpl.
  apply list_elem_of_singleton. done.
Qed.

Lemma room_history_replayed_witness :
  Rooms.send 1
    (Rooms.chatStarted (Peer.mk "u1" "bob" "user")
       (default [] (JsMap.get (chatKey "a1" "u1") [])
        ++ [Entry.mk "bob" "hello" "t2"]))
  ∈ Rooms.wire
      (Rooms.handleMessage 1 (Rooms.selectUser (Some "u1"))
         (Rooms.mkOracle "r3" "c3" "t3" "3000")
         (Rooms.handleMessage 2 (Rooms.chat (Some "a1") "hello")
            (Rooms.mkOracle "r2" "c2" "t2" "3000") roomState)).
Proof.
  apply (room_history_replayed roomState 2 1 "u1" "a1"
           (Rooms.Client.mk 2 "bob" "user" "r1")
           (Rooms.Client.mk 1 "ann" "admin" "r1")
           (Rooms.Room.mk "a1" ["u1"] [] []) "hello"
           (Rooms.mkOracle "r2" "c2" "t2" "3000")
           (Rooms.mkOracle "r3" "c3" "t3" "3000"));
    first [reflexivity | vm_compute; reflexivity].
Defined.
